(** * Miniflare: the R2 bucket gateway and the file-system storage

    A shallow embedding of [packages/r2/src/bucket.ts] (the [R2Bucket]
    gateway: [head], [get], [put], [delete], [list]) and of the
    [FileStorage] class (key-to-path mapping, value and sidecar files, the
    alarm key), followed by the properties the specification states about
    them.

    Conventions of the embedding:
    - a JavaScript string is the list of its UTF-16 code units;
    - a [Uint8Array] / [Buffer] is a [list byte];
    - an [async] method is a function from the state it reads and writes to
      a result and the new state; a thrown exception is the [Throw] result,
      and the state at the time of the throw is kept;
    - a JavaScript number is [NaN] or an integer: byte offsets, sizes,
      limits and time stamps are the only numbers the code handles. *)

From Stdlib Require Import ZArith List Bool Ascii String Lia DecimalString Sorted.
From Stdlib Require Import Strings.Byte.
From stdpp Require Import base option list gmap.

Local Open Scope Z_scope.

(** ** JavaScript values *)

Module JS.

(** UTF-16 code units, each in [0, 65536). *)
Abbreviation jsstring := (list Z).

(** The JavaScript string of an ASCII literal. *)
Definition js (s : string) : jsstring :=
  map (fun a : ascii => Z.of_N (N_of_ascii a)) (list_ascii_of_string s).

Definition byte_of_Z (z : Z) : byte :=
  default x00 (Byte.of_N (Z.to_N (z mod 256))).

Definition is_high_surrogate (c : Z) : bool := (0xD800 <=? c) && (c <=? 0xDBFF).
Definition is_low_surrogate (c : Z) : bool := (0xDC00 <=? c) && (c <=? 0xDFFF).

(** UTF-8 bytes of one code point. *)
Definition utf8_code_point (cp : Z) : list byte :=
  if cp <? 0x80 then [byte_of_Z cp]
  else if cp <? 0x800 then
    [byte_of_Z (Z.lor 0xC0 (Z.shiftr cp 6));
     byte_of_Z (Z.lor 0x80 (Z.land cp 0x3F))]
  else if cp <? 0x10000 then
    [byte_of_Z (Z.lor 0xE0 (Z.shiftr cp 12));
     byte_of_Z (Z.lor 0x80 (Z.land (Z.shiftr cp 6) 0x3F));
     byte_of_Z (Z.lor 0x80 (Z.land cp 0x3F))]
  else
    [byte_of_Z (Z.lor 0xF0 (Z.shiftr cp 18));
     byte_of_Z (Z.lor 0x80 (Z.land (Z.shiftr cp 12) 0x3F));
     byte_of_Z (Z.lor 0x80 (Z.land (Z.shiftr cp 6) 0x3F));
     byte_of_Z (Z.lor 0x80 (Z.land cp 0x3F))].

(** [new TextEncoder().encode(s)]: a surrogate pair is one code point, a
    lone surrogate is encoded as U+FFFD. *)
Fixpoint utf8_encode (s : jsstring) : list byte :=
  match s with
  | [] => []
  | c :: rest =>
      if is_high_surrogate c then
        match rest with
        | d :: rest' =>
            if is_low_surrogate d then
              utf8_code_point
                (0x10000 + Z.shiftl (c - 0xD800) 10 + (d - 0xDC00))
                ++ utf8_encode rest'
            else utf8_code_point 0xFFFD ++ utf8_encode rest
        | [] => utf8_code_point 0xFFFD
        end
      else if is_low_surrogate c then
        utf8_code_point 0xFFFD ++ utf8_encode rest
      else utf8_code_point c ++ utf8_encode rest
  end.

(** [view.byteLength] *)
Definition byteLength (b : list byte) : Z := Z.of_nat (length b).

(** [s.startsWith(p)] *)
Fixpoint startsWith (p s : jsstring) : bool :=
  match p, s with
  | [], _ => true
  | _ :: _, [] => false
  | a :: p', b :: s' => bool_decide (a = b) && startsWith p' s'
  end.

(** [s.endsWith(p)] *)
Definition endsWith (p s : jsstring) : bool :=
  startsWith (rev p) (rev s).

(** [s.slice(n)] and [s.substring(n)] for [0 <= n]. *)
Definition slice (n : nat) (s : jsstring) : jsstring := drop n s.

(** [s.includes(d)] *)
Fixpoint includes (d s : jsstring) : bool :=
  startsWith d s ||
  match s with
  | [] => false
  | _ :: s' => includes d s'
  end.

(** The text of [s] before the first occurrence of the non-empty [d]. *)
Fixpoint before_first (d s : jsstring) : jsstring :=
  match s with
  | [] => []
  | c :: s' => if startsWith d s then [] else c :: before_first d s'
  end.

(** [prefix + s.split(d)[0] + d] as the string concatenation computes it:
    with an empty separator [split] cuts [s] into its code units, and the
    first element of the empty array is [undefined], which [+] prints. *)
Definition split_head (d s : jsstring) : jsstring :=
  match d with
  | [] => match s with
          | [] => js "undefined"
          | c :: _ => [c]
          end
  | _ :: _ => before_first d s
  end.

(** Code-unit order of strings, as [<] and [Array.prototype.sort] have
    it. *)
Fixpoint ltb (a b : jsstring) : bool :=
  match a, b with
  | _, [] => false
  | [], _ :: _ => true
  | x :: a', y :: b' => (x <? y) || ((x =? y) && ltb a' b')
  end.

(** Numbers. *)
Inductive number : Type :=
| NaN
| Num (z : Z).

(** [isNaN] on a number. *)
Definition isNaN (n : number) : bool :=
  match n with
  | NaN => true
  | Num _ => false
  end.

(** Decimal text of a non-negative integer, as template strings print
    it. *)
Definition decimal (z : Z) : jsstring :=
  js (NilZero.string_of_uint (N.to_uint (Z.to_N z))).

(** [Buffer.from(bytes).toString("hex")] *)
Definition hex_digit (n : Z) : Z :=
  if n <? 10 then 48 + n else 87 + n.

Definition hex (b : list byte) : jsstring :=
  flat_map (fun x : byte =>
              let n := Z.of_N (Byte.to_N x) in
              [hex_digit (n / 16); hex_digit (n mod 16)]) b.

End JS.

Import JS.

(** Values whose run-time type the validators of the gateway inspect. *)
Inductive jsval : Type :=
| VUndefined
| VNull
| VBoolean (b : bool)
| VNumber (n : number)
| VString (s : jsstring)
| VStringArray (items : list jsstring)
| VDate (time : Z)
| VArrayBuffer (contents : list byte)
| VObject.

(** Truthiness, as [&&] and [if] see it. *)
Definition truthy (v : jsval) : bool :=
  match v with
  | VUndefined | VNull => false
  | VBoolean b => b
  | VNumber NaN => false
  | VNumber (Num z) => negb (z =? 0)
  | VString s => negb (bool_decide (s = []))
  | VStringArray _ | VDate _ | VArrayBuffer _ | VObject => true
  end.

(** [typeof v === "string"] *)
Definition is_string (v : jsval) : bool :=
  match v with VString _ => true | _ => false end.

(** [Array.isArray(v)] *)
Definition is_array (v : jsval) : bool :=
  match v with VStringArray _ => true | _ => false end.

(** [v instanceof Date] *)
Definition is_date (v : jsval) : bool :=
  match v with VDate _ => true | _ => false end.

(** [v instanceof ArrayBuffer] *)
Definition is_array_buffer (v : jsval) : bool :=
  match v with VArrayBuffer _ => true | _ => false end.

(** [v !== undefined] *)
Definition is_defined (v : jsval) : bool :=
  match v with VUndefined => false | _ => true end.

(** A [Headers] instance: its name/value pairs. *)
Definition Headers : Type := list (jsstring * jsstring).

(** A plain object read through [Object.entries] / [Object.values]. *)
Definition jsobject : Type := list (jsstring * jsval).

(** The double quote. *)
Definition dquote : jsstring := [34].

(** ** The R2 gateway: [packages/r2/src/bucket.ts] *)

Module R2.

(** *** Data of [r2Object.ts] and [bucket.ts] *)

(** [R2ObjectMetadata] *)
Record R2ObjectMetadata : Type := {
  key : jsstring;
  size : Z;
  etag : jsstring;
  version : jsstring;
  httpEtag : jsstring;
  uploaded : Z;
  httpMetadata : jsobject;
  customMetadata : jsobject
}.

(** [R2Conditional]; an absent field is [VUndefined]. *)
Record R2Conditional : Type := {
  etagMatches : jsval;
  etagDoesNotMatch : jsval;
  uploadedBefore : jsval;
  uploadedAfter : jsval
}.

(** The object [{}] as a conditional. *)
Definition noConditional : R2Conditional :=
  {| etagMatches := VUndefined; etagDoesNotMatch := VUndefined;
     uploadedBefore := VUndefined; uploadedAfter := VUndefined |}.

(** [R2Conditional | Headers] *)
Inductive OnlyIf : Type :=
| OnlyIfHeaders (h : Headers)
| OnlyIfObject (c : R2Conditional).

(** [R2Range] *)
Record R2Range : Type := {
  r_offset : option number;
  r_length : option number;
  r_suffix : option number
}.

Definition noRange : R2Range :=
  {| r_offset := None; r_length := None; r_suffix := None |}.

(** [R2GetOptions] *)
Record R2GetOptions : Type := {
  get_onlyIf : option OnlyIf;
  get_range : option R2Range
}.

Definition noGetOptions : R2GetOptions :=
  {| get_onlyIf := None; get_range := None |}.

(** [R2HTTPMetadata | Headers] *)
Inductive HttpMetadata : Type :=
| HttpMetadataHeaders (h : Headers)
| HttpMetadataObject (o : jsobject).

(** [R2PutOptions] *)
Record R2PutOptions : Type := {
  put_onlyIf : option OnlyIf;
  put_httpMetadata : option HttpMetadata;
  put_customMetadata : option jsobject;
  md5 : jsval
}.

Definition noPutOptions : R2PutOptions :=
  {| put_onlyIf := None; put_httpMetadata := None;
     put_customMetadata := None; md5 := VUndefined |}.

(** [R2PutValueType], and [PutOther] for any value outside it. A stream is
    the list of the chunks it yields, a view the bytes it shows. *)
Inductive R2PutValue : Type :=
| PutString (s : jsstring)
| PutStream (chunks : list (list byte))
| PutArrayBuffer (b : list byte)
| PutView (b : list byte)
| PutNull
| PutBlob (b : list byte)
| PutOther.

(** The members of [R2ListOptionsInclude]. *)
Inductive IncludeField : Type :=
| IncludeHttpMetadata
| IncludeCustomMetadata.

#[global] Instance IncludeField_eq_dec : EqDecision IncludeField.
Proof. solve_decision. Defined.

(** [R2ListOptions] *)
Record R2ListOptions : Type := {
  l_limit : option number;
  l_prefix : option jsstring;
  l_cursor : option jsstring;
  l_delimiter : option jsstring;
  l_include : option (list IncludeField)
}.

Definition noListOptions : R2ListOptions :=
  {| l_limit := None; l_prefix := None; l_cursor := None;
     l_delimiter := None; l_include := None |}.

(** What [head] and [get] resolve to: [new R2Object(metadata)] or
    [new R2ObjectBody(metadata, value)]. *)
Inductive R2Result : Type :=
| R2Object (m : R2ObjectMetadata)
| R2ObjectBody (m : R2ObjectMetadata) (body : list byte).

(** [R2Objects] *)
Record R2Objects : Type := {
  objects : list R2Result;
  truncated : bool;
  cursor : option jsstring;
  delimitedPrefixes : list jsstring
}.

Definition MAX_LIST_KEYS : Z := 1000.
Definition MAX_KEY_SIZE : Z := 512.
Definition MAX_VALUE_SIZE : Z := 5 * 1000 * 1000 * 1000 - 5 * 1000 * 1000.

Inductive Method : Type := HEAD | GET | PUT | LIST | DELETE.

(** Exceptions. [R2Error method status message] is the [Error] that
    [throwR2Error] builds, whose text is
    [R2 ${method} failed: ${status} ${message}]. *)
Inductive exn : Type :=
| TypeError (message : jsstring)
| R2Error (method : Method) (status : Z) (message : jsstring).

Inductive Result (A : Type) : Type :=
| Ok (a : A)
| Throw (e : exn).
Arguments Ok {A} a.
Arguments Throw {A} e.

(** *** The storage the bucket is built on *)

(** [StoredValueMeta<R2ObjectMetadata>] *)
Record Stored : Type := {
  value : list byte;
  metadata : option R2ObjectMetadata
}.

(** The calls a bucket makes on its [Storage]. *)
Inductive StorageCall : Type :=
| CallMeta (k : jsstring)
| CallGet (k : jsstring)
| CallGetRange (k : jsstring) (off : number) (len : option number)
| CallGetSuffix (k : jsstring) (suf : number)
| CallPut (k : jsstring)
| CallDelete (k : jsstring)
| CallList (pre : jsstring) (lim : Z) (cur : option jsstring).

(** The state an operation runs in: what the storage holds, and the calls
    made on it so far, latest first. *)
Record World : Type := {
  entries : gmap jsstring Stored;
  calls : list StorageCall
}.

Definition called (c : StorageCall) (w : World) : World :=
  {| entries := entries w; calls := c :: calls w |}.

(** Asynchronous methods. *)
Definition M (A : Type) : Type := World -> Result A * World.

Definition ret {A} (a : A) : M A := fun w => (Ok a, w).

Definition bind {A B} (m : M A) (f : A -> M B) : M B :=
  fun w =>
    match m w with
    | (Ok a, w') => f a w'
    | (Throw e, w') => (Throw e, w')
    end.

(** A synchronous computation inside an asynchronous method. *)
Definition lift {A} (r : Result A) : M A := fun w => (r, w).

#[global] Instance M_ret : MRet M := @ret.
#[global] Instance M_bind : MBind M := fun A B f m => bind m f.

#[global] Instance Result_ret : MRet Result := @Ok.
#[global] Instance Result_bind : MBind Result :=
  fun A B f r => match r with Ok a => f a | Throw e => Throw e end.

(** [throwR2Error] *)
Definition throwR2Error {A} (method : Method) (status : Z)
    (message : jsstring) : Result A :=
  Throw (R2Error method status message).

(** Imports of [bucket.ts] that stay parameters: the digest [createMD5] of
    [r2Object.ts], the reading of a [Headers] instance by [parseOnlyIf], the
    weak-or-strong comparison of a supplied entity tag with an etag, as
    HTTP has it for [If-Match], the whole of [parseHttpMetadata], and the
    window arithmetic of the storage's range and suffix reads ([None] when
    the storage throws). *)
Record Platform : Type := {
  createMD5 : list byte -> jsstring;
  headersOnlyIf : Headers -> R2Conditional;
  etagsMatch : jsstring -> jsstring -> bool;
  parseHttpMetadata : option HttpMetadata -> jsobject;
  readRange : list byte -> number -> option number -> option (list byte);
  readSuffix : list byte -> number -> option (list byte)
}.

(** Modelled from the spec: [Storage.meta] of [@miniflare/shared], the
    metadata-only lookup of the storage substrate. *)
Definition storage_meta (k : jsstring)
    : M (option (option R2ObjectMetadata)) :=
  fun w => (Ok (metadata <$> entries w !! k), called (CallMeta k) w).

(** Modelled from the spec: [Storage.get] of [@miniflare/shared], the full
    value lookup of the storage substrate. *)
Definition storage_get (k : jsstring) : M (option Stored) :=
  fun w => (Ok (entries w !! k), called (CallGet k) w).

(** Modelled from the spec: [Storage.put] of [@miniflare/shared]: value and
    metadata are stored under the key as one unit. *)
Definition storage_put (k : jsstring) (v : Stored) : M unit :=
  fun w => (Ok tt, {| entries := <[k := v]> (entries w);
                      calls := CallPut k :: calls w |}).

(** Modelled from the spec: [Storage.delete] of [@miniflare/shared]; the
    result tells whether the key existed. *)
Definition storage_delete (k : jsstring) : M bool :=
  fun w => (Ok (bool_decide (is_Some (entries w !! k))),
            {| entries := delete k (entries w);
               calls := CallDelete k :: calls w |}).

(** Modelled from the spec: [Storage.getRangeMaybeExpired] of
    [@miniflare/shared], the windowed read; [None] stands for the exception
    of a window the storage cannot honour. *)
Definition storage_getRange (P : Platform) (k : jsstring) (off : number)
    (len : option number) : World -> option (option Stored) * World :=
  fun w =>
    (match entries w !! k with
     | None => Some None
     | Some s =>
         match readRange P (value s) off len with
         | Some b => Some (Some {| value := b; metadata := metadata s |})
         | None => None
         end
     end, called (CallGetRange k off len) w).

(** Modelled from the spec: [Storage.getSuffixMaybeExpired] of
    [@miniflare/shared], the read of the last bytes of a value. *)
Definition storage_getSuffix (P : Platform) (k : jsstring) (suf : number)
    : World -> option (option Stored) * World :=
  fun w =>
    (match entries w !! k with
     | None => Some None
     | Some s =>
         match readSuffix P (value s) suf with
         | Some b => Some (Some {| value := b; metadata := metadata s |})
         | None => None
         end
     end, called (CallGetSuffix k suf) w).

(** Modelled from the spec: the enumeration order of [Storage.list],
    ascending by key; the insertion of an entry into a sorted list. *)
Fixpoint insert_by_name (e : jsstring * Stored)
    (l : list (jsstring * Stored)) : list (jsstring * Stored) :=
  match l with
  | [] => [e]
  | x :: l' =>
      if ltb (fst x) (fst e) then x :: insert_by_name e l' else e :: l
  end.

(** Modelled from the spec: the enumeration order of [Storage.list]; the
    entries sorted by key. *)
Definition sort_by_name (l : list (jsstring * Stored))
    : list (jsstring * Stored) :=
  foldr insert_by_name [] l.

(** Modelled from the spec: the enumeration of [Storage.list]; the stored
    keys that start with [pre], in ascending order. *)
Definition matching (pre : jsstring) (m : gmap jsstring Stored)
    : list (jsstring * Stored) :=
  sort_by_name
    (List.filter (fun e => startsWith pre (fst e)) (map_to_list m)).

(** Modelled from the spec: the cursor of [Storage.list]; the part of an
    enumeration that lies strictly after the key the cursor encodes. *)
Definition after_cursor (cur : option jsstring)
    (l : list (jsstring * Stored)) : list (jsstring * Stored) :=
  match cur with
  | None => l
  | Some c => List.filter (fun e => ltb c (fst e)) l
  end.

(** Modelled from the spec: [Storage.list] of [@miniflare/shared], the
    cursor-based [list(prefix, limit, cursor)] primitive. Keys are
    enumerated in ascending order, filtered by the prefix; the cursor is the
    last key of the page before, and the listing resumes strictly after it;
    the next cursor is present when keys remain after the page. *)
Definition storage_list (pre : jsstring) (lim : Z) (cur : option jsstring)
    : M (list (jsstring * option R2ObjectMetadata) * option jsstring) :=
  fun w =>
    let rest := after_cursor cur (matching pre (entries w)) in
    let page := take (Z.to_nat lim) rest in
    let next :=
      if (List.length page <? List.length rest)%nat
      then fst <$> last page else None in
    (Ok (map (fun e => (fst e, metadata (snd e))) page, next),
     called (CallList pre lim cur) w).

(** Modelled from the spec: the values an etag clause of the conditional
    evaluator supplies, a single string or a list. *)
Definition etag_values (v : jsval) : option (list jsstring) :=
  match v with
  | VString s => Some [s]
  | VStringArray l => Some l
  | _ => None
  end.

(** Modelled from the spec: the comparison of the etag of the object with
    the supplied values. The etag equals a supplied value when they are
    the same string, or when the weak-or-strong comparison of HTTP
    [If-Match] takes them for the same entity tag. *)
Definition etag_among (P : Platform) (etag : jsstring)
    (supplied : list jsstring) : bool :=
  existsb (fun tag => bool_decide (tag = etag) || etagsMatch P tag etag)
    supplied.

(** Modelled from the spec: the timestamp an upload-time clause of the
    conditional evaluator supplies. *)
Definition date_value (v : jsval) : option Z :=
  match v with
  | VDate t => Some t
  | _ => None
  end.

(** Modelled from the spec: a clause of the conditional evaluator holds
    when it is not supplied. *)
Definition clause {A} (supplied : option A) (holds : A -> bool) : bool :=
  match supplied with
  | Some a => holds a
  | None => true
  end.

(** Modelled from the spec: the clauses of the conditional evaluator of
    [r2Object.ts]: all supplied clauses must hold. *)
Definition satisfied (P : Platform) (c : R2Conditional)
    (m : R2ObjectMetadata) : bool :=
  clause (etag_values (etagMatches c)) (etag_among P (etag m))
  && clause (etag_values (etagDoesNotMatch c))
            (fun l => negb (etag_among P (etag m) l))
  && clause (date_value (uploadedBefore c)) (fun t => uploaded m <? t)
  && clause (date_value (uploadedAfter c)) (fun t => t <? uploaded m).

(** Modelled from the spec: [testR2Conditional] of [r2Object.ts]. The
    result [true] says that the test fails: some supplied clause does not
    hold of the metadata. *)
Definition testR2Conditional (P : Platform) (c : R2Conditional)
    (m : R2ObjectMetadata) : bool :=
  negb (satisfied P c m).

(** Modelled from the spec: [parseOnlyIf] of [r2Object.ts]. An absent bag is
    the empty conditional, which every object satisfies. *)
Definition parseOnlyIf (P : Platform) (o : option OnlyIf) : R2Conditional :=
  match o with
  | None => noConditional
  | Some (OnlyIfHeaders h) => headersOnlyIf P h
  | Some (OnlyIfObject c) => c
  end.

(** *** Validation *)

(** [validateKey] *)
Definition validateKey (method : Method) (key : jsstring) : Result unit :=
  if bool_decide (key = js "") then
    Throw (TypeError (js "Key name cannot be empty."))
  else if bool_decide (key = js ".") then
    Throw (TypeError
             (dquote ++ js "." ++ dquote ++ js " is not allowed as a key name."))
  else if bool_decide (key = js "..") then
    Throw (TypeError
             (dquote ++ js ".." ++ dquote ++ js " is not allowed as a key name."))
  else
    let keyLength := byteLength (utf8_encode key) in
    if MAX_KEY_SIZE <? keyLength then
      throwR2Error method 414
        (js "UTF-8 encoded length of " ++ decimal keyLength
           ++ js " exceeds key length limit of " ++ decimal MAX_KEY_SIZE
           ++ js ".")
    else Ok tt.

(** [validateOnlyIf]. The first test of the source, on a value that is
    neither a [Headers] instance nor an object, has no case here. *)
Definition validateOnlyIf (onlyIf : OnlyIf) : Result unit :=
  match onlyIf with
  | OnlyIfHeaders _ => Ok tt
  | OnlyIfObject c =>
      if truthy (etagMatches c)
         && negb (is_string (etagMatches c) || is_array (etagMatches c))
      then throwR2Error GET 400 (js "etagMatches must be a string.")
      else if truthy (etagDoesNotMatch c)
              && negb (is_string (etagDoesNotMatch c)
                       || is_array (etagDoesNotMatch c))
      then throwR2Error GET 400 (js "etagDoesNotMatch must be a string.")
      else if truthy (uploadedBefore c) && negb (is_date (uploadedBefore c))
      then throwR2Error GET 400 (js "uploadedBefore must be a Date.")
      else if truthy (uploadedAfter c) && negb (is_date (uploadedAfter c))
      then throwR2Error GET 400 (js "uploadedAfter must be a Date.")
      else Ok tt
  end.

(** [offset !== undefined && !isNaN(offset)], and the like. *)
Definition defined_and_not_NaN (field : option number) : bool :=
  match field with
  | None => false
  | Some n => negb (isNaN n)
  end.

(** [validateR2GetOptions] *)
Definition validateR2GetOptions (options : R2GetOptions) : Result unit :=
  let onlyIf := default (OnlyIfObject noConditional) (get_onlyIf options) in
  let range := default noRange (get_range options) in
  validateOnlyIf onlyIf;;
  if defined_and_not_NaN (r_offset range) then
    throwR2Error GET 400 (js "offset must be a number.")
  else if defined_and_not_NaN (r_length range) then
    throwR2Error GET 400 (js "length must be a number.")
  else if defined_and_not_NaN (r_suffix range) then
    throwR2Error GET 400 (js "suffix must be a number.")
  else Ok tt.

(** The loop of [validateHttpMetadata] over [Object.entries]. *)
Fixpoint validateHttpEntries (es : jsobject) : Result unit :=
  match es with
  | [] => Ok tt
  | (k, v) :: rest =>
      if bool_decide (k = js "cacheExpiry") then
        if negb (is_date v) && is_defined v then
          throwR2Error PUT 400
            (js "cacheExpiry's value must be a Date or undefined.")
        else validateHttpEntries rest
      else
        if negb (is_string v) && is_defined v then
          throwR2Error PUT 400
            (k ++ js "'s value must be a string or undefined.")
        else validateHttpEntries rest
  end.

(** [validateHttpMetadata] *)
Definition validateHttpMetadata (httpMetadata : option HttpMetadata)
    : Result unit :=
  match httpMetadata with
  | None => Ok tt
  | Some (HttpMetadataHeaders _) => Ok tt
  | Some (HttpMetadataObject o) => validateHttpEntries o
  end.

(** The loop of [validateR2PutOptions] over [Object.values]. *)
Fixpoint validateCustomValues (es : jsobject) : Result unit :=
  match es with
  | [] => Ok tt
  | (_, v) :: rest =>
      if negb (is_string v) then
        throwR2Error PUT 400 (js "customMetadata values must be strings.")
      else validateCustomValues rest
  end.

(** [validateR2PutOptions] *)
Definition validateR2PutOptions (options : R2PutOptions) : Result unit :=
  let onlyIf := default (OnlyIfObject noConditional) (put_onlyIf options) in
  validateOnlyIf onlyIf;;
  validateHttpMetadata (put_httpMetadata options);;
  match put_customMetadata options with
   | None => Ok tt
   | Some o => validateCustomValues o
   end;;
  if is_defined (md5 options)
     && negb (is_array_buffer (md5 options))
     && negb (is_string (md5 options))
  then throwR2Error PUT 400
         (js "md5 must be a string, ArrayBuffer, or undefined.")
  else Ok tt.

End R2.

(** *** The class [R2Bucket]

    The request context of [#prepareCtx] and the input and output gates
    make no call on the storage; the methods are modelled from the point
    where [#prepareCtx] has returned. *)

Module R2Bucket.
Import R2.

(** What [createVersion()] and [new Date()] yield during a [put]. *)
Record Fresh : Type := {
  fresh_version : jsstring;
  fresh_time : Z
}.

Section Methods.

Context (P : Platform).

(** [head] *)
Definition head (key : jsstring) : M (option R2Result) :=
  lift (validateKey HEAD key);;
  stored ← storage_meta key;
  match mjoin stored with
  | None => mret None
  | Some metadata => mret (Some (R2Object metadata))
  end.

(** The [try]/[catch] around a windowed read of the storage. *)
Definition satisfiable (read : World -> option (option Stored) * World)
    : M (option Stored) :=
  fun w =>
    match read w with
    | (Some stored, w') => (Ok stored, w')
    | (None, w') =>
        (throwR2Error GET 400 (js "The requested range is not satisfiable."),
         w')
    end.

(** The part of [get] that fetches the data, dependent upon whether suffix
    or range exists. *)
Definition get_stored (key : jsstring) (range : R2Range) : M (option Stored) :=
  match r_suffix range with
  | Some suf => satisfiable (storage_getSuffix P key suf)
  | None =>
      match r_offset range, r_length range with
      | None, None => storage_get key
      | off, len =>
          match len with
           | Some (Num 0) =>
               lift (throwR2Error GET 400
                       (js "The requested range is not satisfiable."))
           | _ => mret tt
           end;;
          satisfiable (storage_getRange P key (default (Num 0) off) len)
      end
  end.

(** [get] *)
Definition get (key : jsstring) (options : option R2GetOptions)
    : M (option R2Result) :=
  let options := default noGetOptions options in
  let range := default noRange (get_range options) in
  lift (validateKey GET key);;
  lift (validateR2GetOptions options);;
  let onlyIf := parseOnlyIf P (get_onlyIf options) in
  meta ← storage_meta key;
  match mjoin meta with
  | Some m =>
      if testR2Conditional P onlyIf m || (size m =? 0) then
        mret (Some (R2Object m))
      else
        stored ← get_stored key range;
        match stored with
        | Some {| value := value; metadata := Some metadata |} =>
            mret (Some (R2ObjectBody metadata value))
        | _ => mret None
        end
  | None => mret None
  end.

(** The conversion of the value of a [put] to a [Uint8Array]. *)
Definition toUint8Array (value : R2PutValue) : Result (list byte) :=
  match value with
  | PutString s => Ok (utf8_encode s)
  | PutStream chunks => Ok (concat chunks)
  | PutArrayBuffer b => Ok b
  | PutView b => Ok b
  | PutNull => Ok []
  | PutBlob b => Ok b
  | PutOther =>
      Throw (TypeError
               (js "R2 put() accepts only nulls, strings, Blobs, ArrayBuffers, ArrayBufferViews, and ReadableStreams as values."))
  end.

(** [md5 !== undefined], with [md5] converted to a hex string when it is an
    [ArrayBuffer], and then [md5 !== md5Hash]. *)
Definition md5_mismatch (md5 : jsval) (md5Hash : jsstring) : bool :=
  match md5 with
  | VUndefined => false
  | VArrayBuffer b => negb (bool_decide (hex b = md5Hash))
  | VString s => negb (bool_decide (s = md5Hash))
  | _ => true
  end.

(** [put] *)
Definition put (fresh : Fresh) (key : jsstring) (value : R2PutValue)
    (options : option R2PutOptions) : M (option R2Result) :=
  let options := default noPutOptions options in
  lift (validateKey PUT key);;
  lift (validateR2PutOptions options);;
  lift (if is_defined (md5 options)
           && negb (is_string (md5 options))
           && negb (is_array_buffer (md5 options))
        then throwR2Error PUT 400
               (js "The Content-MD5 you specified is not valid.")
        else Ok tt);;
  let customMetadata := default [] (put_customMetadata options) in
  let onlyIf := parseOnlyIf P (put_onlyIf options) in
  let httpMetadata := parseHttpMetadata P (put_httpMetadata options) in
  meta ← storage_meta key;
  if match mjoin meta with
     | Some m => testR2Conditional P onlyIf m
     | None => false
     end
  then mret None
  else
    stored ← lift (toUint8Array value);
    lift (if MAX_VALUE_SIZE <? byteLength stored then
            throwR2Error PUT 400
              (js "Value length of " ++ decimal (byteLength stored)
                 ++ js " exceeds limit of " ++ decimal MAX_VALUE_SIZE
                 ++ js ".")
          else Ok tt);;
    let md5Hash := createMD5 P stored in
    lift (if md5_mismatch (md5 options) md5Hash then
            throwR2Error PUT 400
              (js "The Content-MD5 you specified did not match what we received.")
          else Ok tt);;
    let metadata :=
      {| key := key;
         size := byteLength stored;
         etag := md5Hash;
         version := fresh_version fresh;
         httpEtag := dquote ++ md5Hash ++ dquote;
         uploaded := fresh_time fresh;
         httpMetadata := httpMetadata;
         customMetadata := customMetadata |} in
    storage_put key {| value := stored; metadata := Some metadata |};;
    mret (Some (R2Object metadata)).

(** [delete] *)
Definition delete (key : jsstring) : M unit :=
  lift (validateKey DELETE key);;
  storage_delete key;;
  mret tt.

(** [Set.prototype.add] on a set kept in insertion order. *)
Definition set_add (x : jsstring) (set : list jsstring) : list jsstring :=
  if bool_decide (x ∈ set) then set else set ++ [x].

(** The callback of the [filter] of [#list] that filters out objects that
    exist within the delimiter: its return value, [None] when it ends
    without reaching a [return], and the set of delimited prefixes after the
    call. *)
Definition delimiter_callback (prefix : jsstring) (delimiter : option jsstring)
    (delimitedPrefixes : list jsstring) (metadata : R2ObjectMetadata)
    : option bool * list jsstring :=
  match delimiter with
  | None => (Some true, delimitedPrefixes)
  | Some d =>
      let objectKey := slice (List.length prefix) (key metadata) in
      if includes d objectKey then
        let delimitedPrefix := prefix ++ split_head d objectKey ++ d in
        (Some false, set_add delimitedPrefix delimitedPrefixes)
      else (None, delimitedPrefixes)
  end.

(** [Array.prototype.filter] keeps an element when the callback returns a
    truthy value; [undefined] is not. *)
Definition keeps (returned : option bool) : bool := default false returned.

(** The [filter] with that callback, over the metadata in order. *)
Fixpoint filter_delimited (prefix : jsstring) (delimiter : option jsstring)
    (delimitedPrefixes : list jsstring) (ms : list R2ObjectMetadata)
    : list R2ObjectMetadata * list jsstring :=
  match ms with
  | [] => ([], delimitedPrefixes)
  | m :: rest =>
      let '(returned, dps) :=
        delimiter_callback prefix delimiter delimitedPrefixes m in
      let '(kept, dps') := filter_delimited prefix delimiter dps rest in
      (if keeps returned then m :: kept else kept, dps')
  end.

(** The last [map] of [#list]: the metadata groups that were not asked for
    are emptied. *)
Definition listed_object (include : list IncludeField)
    (metadata : R2ObjectMetadata) : R2Result :=
  R2Object
    {| key := key metadata;
       size := size metadata;
       etag := etag metadata;
       version := version metadata;
       httpEtag := httpEtag metadata;
       uploaded := uploaded metadata;
       httpMetadata :=
         if bool_decide (IncludeHttpMetadata ∈ include)
         then httpMetadata metadata else [];
       customMetadata :=
         if bool_decide (IncludeCustomMetadata ∈ include)
         then customMetadata metadata else [] |}.

(** [#list]: the objects of one query, its cursor, and the set of delimited
    prefixes after it. *)
Definition list_private (prefix : jsstring) (limit : Z)
    (include : list IncludeField) (delimitedPrefixes : list jsstring)
    (delimiter : option jsstring) (cursor : option jsstring)
    : M (list R2Result * option jsstring * list jsstring) :=
  res ← storage_list prefix limit cursor;
  let '(kept, dps) :=
    filter_delimited prefix delimiter delimitedPrefixes
      (omap snd (fst res)) in
  mret (map (listed_object include) kept, snd res, dps).

(** The [while] loop of [list]. Every turn that does not leave the loop
    adds an object, so [limit] turns are enough: the [O] case is not
    reached from [list]. *)
Fixpoint list_loop (turns : nat) (prefix : jsstring) (limit : Z)
    (include : list IncludeField) (delimiter : option jsstring)
    (objects : list R2Result) (delimitedPrefixes : list jsstring)
    (cursor : option jsstring)
    : M (list R2Result * list jsstring * option jsstring) :=
  if Z.of_nat (List.length objects) + Z.of_nat (List.length delimitedPrefixes)
     <? limit
  then
    match turns with
    | O => mret (objects, delimitedPrefixes, cursor)
    | S turns' =>
        r ← list_private prefix (limit - Z.of_nat (List.length objects))
              include delimitedPrefixes delimiter cursor;
        let '(newObjects, newCursor, dps) := r in
        if (List.length newObjects =? 0)%nat then
          mret (objects, dps, newCursor)
        else
          list_loop turns' prefix limit include delimiter
            (objects ++ newObjects) dps newCursor
    end
  else mret (objects, delimitedPrefixes, cursor).

(** [Math.min(limit, 100)] *)
Definition min_100 (limit : number) : number :=
  match limit with
  | NaN => NaN
  | Num z => Num (Z.min z 100)
  end.

(** [list] *)
Definition list (options : option R2ListOptions) : M R2Objects :=
  let options := default noListOptions options in
  let prefix := default (js "") (l_prefix options) in
  let limit := default (Num MAX_LIST_KEYS) (l_limit options) in
  let cursor := l_cursor options in
  let include := default [] (l_include options) in
  let delimiter := l_delimiter options in
  lift (match limit with
        | Num z =>
            if (z <? 1) || (MAX_LIST_KEYS <? z) then
              throwR2Error LIST 400
                (js "MaxKeys params must be positive integer <= 1000.")
            else Ok tt
        | NaN => Ok tt
        end);;
  let limit := if (0 <? List.length include)%nat then min_100 limit else limit in
  r ← match limit with
      | Num z =>
          list_loop (Z.to_nat z) prefix z include delimiter [] [] cursor
      | NaN => mret ([], [], cursor)
      end;
  let '(objects, delimitedPrefixes, cursor) := r in
  mret {| objects := objects;
          truncated := bool_decide (is_Some cursor);
          cursor := cursor;
          delimitedPrefixes := delimitedPrefixes |}.

End Methods.

End R2Bucket.

(** ** The file-system storage: class [FileStorage] *)

(** [path.join] of Node, POSIX flavour. *)
Module Path.

(** [s.split("/")] *)
Fixpoint split_slash (s : jsstring) (segment : jsstring) : list jsstring :=
  match s with
  | [] => [rev segment]
  | c :: s' =>
      if c =? 47 then rev segment :: split_slash s' []
      else split_slash s' (c :: segment)
  end.

(** The segments that remain once [.], empty segments and [..] are
    resolved; [stack] holds them latest first. *)
Fixpoint resolve_segments (allowAboveRoot : bool) (segments : list jsstring)
    (stack : list jsstring) : list jsstring :=
  match segments with
  | [] => rev stack
  | seg :: rest =>
      if bool_decide (seg = js "") || bool_decide (seg = js ".") then
        resolve_segments allowAboveRoot rest stack
      else if bool_decide (seg = js "..") then
        match stack with
        | top :: stack' =>
            if bool_decide (top = js "..") then
              resolve_segments allowAboveRoot rest (seg :: stack)
            else resolve_segments allowAboveRoot rest stack'
        | [] =>
            if allowAboveRoot then
              resolve_segments allowAboveRoot rest [seg]
            else resolve_segments allowAboveRoot rest []
        end
      else resolve_segments allowAboveRoot rest (seg :: stack)
  end.

(** [segments.join("/")] *)
Fixpoint join_slash (segments : list jsstring) : jsstring :=
  match segments with
  | [] => []
  | [seg] => seg
  | seg :: rest => seg ++ js "/" ++ join_slash rest
  end.

(** [path.normalize] *)
Definition normalize (p : jsstring) : jsstring :=
  match p with
  | [] => js "."
  | _ =>
      let isAbsolute := startsWith (js "/") p in
      let trailingSeparator := endsWith (js "/") p in
      let resolved :=
        join_slash (resolve_segments (negb isAbsolute) (split_slash p []) []) in
      match resolved with
      | [] =>
          if isAbsolute then js "/"
          else if trailingSeparator then js "./" else js "."
      | _ =>
          let resolved :=
            if trailingSeparator then resolved ++ js "/" else resolved in
          if isAbsolute then js "/" ++ resolved else resolved
      end
  end.

(** [path.join(a, b)] *)
Definition join (a b : jsstring) : jsstring :=
  match a, b with
  | [], [] => js "."
  | [], _ => normalize b
  | _, [] => normalize a
  | _, _ => normalize (a ++ js "/" ++ b)
  end.

End Path.

Module FS.

(** [FileStorageErrorCode] *)
Inductive FileStorageErrorCode : Type :=
| ERR_TRAVERSAL
| ERR_NAMESPACE_KEY_CHILD.

(** Exceptions: a [FileStorageError], an error of the file system with its
    [code], or the [SyntaxError] of [JSON.parse]. *)
Inductive exn : Type :=
| FileStorageError (code : FileStorageErrorCode) (message : jsstring)
| SystemError (code : jsstring)
| SyntaxError.

Inductive Result (A : Type) : Type :=
| Ok (a : A)
| Throw (e : exn).
Arguments Ok {A} a.
Arguments Throw {A} e.

(** The regular files below the file-system root, by absolute path. *)
Abbreviation Files := (gmap jsstring (list byte)).

Definition M (A : Type) : Type := Files -> Result A * Files.

#[global] Instance M_ret : MRet M := fun A a fs => (Ok a, fs).
#[global] Instance M_bind : MBind M :=
  fun A B f m fs =>
    match m fs with
    | (Ok a, fs') => f a fs'
    | (Throw e, fs') => (Throw e, fs')
    end.

Definition throw {A} (e : exn) : M A := fun fs => (Throw e, fs).

(** [try { body } catch (e) { handler(e) }] *)
Definition try_catch {A} (body : M A) (handler : exn -> M A) : M A :=
  fun fs =>
    match body fs with
    | (Ok a, fs') => (Ok a, fs')
    | (Throw e, fs') => handler e fs'
    end.

(** [e.code === code] *)
Definition has_code (e : exn) (code : jsstring) : bool :=
  match e with
  | SystemError c => bool_decide (c = code)
  | _ => false
  end.

(** Modelled from the spec: the parent path segments of a path, nearest
    last: the text before each of its slashes but the leading one. *)
Fixpoint ancestors_from (before : jsstring) (s : jsstring) : list jsstring :=
  match s with
  | [] => []
  | c :: s' =>
      if (c =? 47) && negb (bool_decide (before = []))
      then rev before :: ancestors_from (c :: before) s'
      else ancestors_from (c :: before) s'
  end.

(** Modelled from the spec: the parent path segments of a path. *)
Definition ancestors (p : jsstring) : list jsstring := ancestors_from [] p.

(** Modelled from the spec: the namespace collision; some parent path
    segment of the path is a regular file. *)
Definition below_a_file (fs : Files) (p : jsstring) : bool :=
  existsb (fun a => bool_decide (is_Some (fs !! a))) (ancestors p).

(** Modelled from the spec: [readFile] of [./helpers]. A missing file reads
    as [undefined]; a path below a regular file fails with [ENOTDIR]. *)
Definition readFile (p : jsstring) : M (option (list byte)) :=
  fun fs =>
    if below_a_file fs p then (Throw (SystemError (js "ENOTDIR")), fs)
    else (Ok (fs !! p), fs).

(** Modelled from the spec: the directory of a path is a regular file. *)
Definition parent_is_a_file (fs : Files) (p : jsstring) : bool :=
  match last (ancestors p) with
  | Some dir => bool_decide (is_Some (fs !! dir))
  | None => false
  end.

(** Modelled from the spec: a path segment above the directory of a path
    is a regular file. *)
Definition above_parent_is_a_file (fs : Files) (p : jsstring) : bool :=
  existsb (fun a => bool_decide (is_Some (fs !! a)))
    (removelast (ancestors p)).

(** Modelled from the spec: [writeFile] of [./helpers]. The directories
    above the file are created as needed, as [mkdir] with [recursive]
    does: this fails with [ENOTDIR] when a segment above the directory of
    the file is a regular file, and with [EEXIST] when the directory of
    the file is one itself. *)
Definition writeFile (p : jsstring) (data : list byte) : M unit :=
  fun fs =>
    if above_parent_is_a_file fs p then (Throw (SystemError (js "ENOTDIR")), fs)
    else if parent_is_a_file fs p then (Throw (SystemError (js "EEXIST")), fs)
    else (Ok tt, <[p := data]> fs).

(** Modelled from the spec: [deleteFile] of [./helpers]; the result tells
    whether the file existed. *)
Definition deleteFile (p : jsstring) : M bool :=
  fun fs =>
    if below_a_file fs p then (Throw (SystemError (js "ENOTDIR")), fs)
    else (Ok (bool_decide (is_Some (fs !! p))), delete p fs).

Section Types.

Context {Meta : Type}.

(** [StoredValueMeta<Meta>] *)
Record StoredValueMeta : Type := {
  value : list byte;
  expiration : option number;
  metadata : option Meta
}.

(** [FileMeta<Meta>] *)
Record FileMeta : Type := {
  meta_key : option jsstring;
  meta_expiration : option number;
  meta_metadata : option Meta
}.

(** The object [{}] as a [FileMeta]. *)
Definition noFileMeta : FileMeta :=
  {| meta_key := None; meta_expiration := None; meta_metadata := None |}.

End Types.

Arguments StoredValueMeta : clear implicits.
Arguments FileMeta : clear implicits.

(** Imports of the class and built-ins of the language that stay
    parameters: [sanitisePath] of [@miniflare/shared], the decoding of UTF-8
    text, [Number] on a string, [String] on a number, and [JSON.parse]
    ([None] when it throws) and [JSON.stringify] on sidecar records. *)
Record Runtime (Meta : Type) : Type := {
  sanitisePath : jsstring -> jsstring;
  utf8_decode : list byte -> jsstring;
  toNumber : jsstring -> number;
  toString : number -> jsstring;
  JSON_parse : jsstring -> option (FileMeta Meta);
  JSON_stringify : FileMeta Meta -> jsstring
}.
Arguments sanitisePath {Meta} _ _.
Arguments utf8_decode {Meta} _ _.
Arguments toNumber {Meta} _ _.
Arguments toString {Meta} _ _.
Arguments JSON_parse {Meta} _ _.
Arguments JSON_stringify {Meta} _ _.

(** The fields of a [FileStorage]: the resolved root directory and the
    [sanitise] flag. *)
Record Config : Type := {
  root : jsstring;
  sanitise : bool
}.

Definition metaSuffix : jsstring := js ".meta.json".

Definition ALARM_KEY : jsstring := js "__MINIFLARE_ALARM__".

End FS.

Module FileStorage.
Import FS.

Section Methods.

Context {Meta : Type} (R : Runtime Meta) (this : Config).

(** [keyPath]: the path of the key's file, [None] when it does not start
    with the root, and whether sanitising changed the key. *)
Definition keyPath (key : jsstring) : option jsstring * bool :=
  let sanitisedKey := if sanitise this then sanitisePath R key else key in
  let filePath := Path.join (root this) sanitisedKey in
  (if startsWith (root this) filePath then Some filePath else None,
   negb (bool_decide (sanitisedKey = key))).

(** [!filePath]: the path is [undefined] or the empty string. *)
Definition no_path (filePath : option jsstring) : bool :=
  match filePath with
  | None => true
  | Some p => bool_decide (p = [])
  end.

(** [meta]: the sidecar record of a file, [{}] when there is no sidecar or
    an empty one. *)
Definition meta (keyFilePath : jsstring) : M (FileMeta Meta) :=
  metaBytes ← readFile (keyFilePath ++ metaSuffix);
  match metaBytes with
  | None => mret noFileMeta
  | Some b =>
      let metaString := utf8_decode R b in
      if bool_decide (metaString = []) then mret noFileMeta
      else match JSON_parse R metaString with
           | Some m => mret m
           | None => throw SyntaxError
           end
  end.

(** The handler of the [catch] blocks of the reading methods: a key below
    a key does not exist. *)
Definition not_found_if_ENOTDIR {A} (absent : A) (e : exn) : M A :=
  if has_code e (js "ENOTDIR") then mret absent else throw e.

(** [getMaybeExpired] *)
Definition getMaybeExpired (key : jsstring)
    : M (option (StoredValueMeta Meta)) :=
  let '(filePath, _) := keyPath key in
  if no_path filePath then mret None
  else
    let filePath := default [] filePath in
    try_catch
      (value ← readFile filePath;
       match value with
       | None => mret None
       | Some value =>
           m ← meta filePath;
           mret (Some {| value := value;
                         expiration := meta_expiration m;
                         metadata := meta_metadata m |})
       end)
      (not_found_if_ENOTDIR None).

(** The text of the [ERR_NAMESPACE_KEY_CHILD] error. *)
Definition namespace_message (key : jsstring) : jsstring :=
  js "Cannot put key " ++ dquote ++ key ++ dquote
    ++ js " as a parent namespace is also a key." ++ [10]
    ++ js "This is a limitation of Miniflare's file-system storage. Please "
    ++ js "use in-memory/Redis storage instead, or change your key layout.".

(** The handler of the [catch] blocks of the writing methods. *)
Definition namespace_if_EEXIST {A} (key : jsstring) (e : exn) : M A :=
  if negb (has_code e (js "EEXIST")) then throw e
  else throw (FileStorageError ERR_NAMESPACE_KEY_CHILD (namespace_message key)).

Definition traversal_error : exn :=
  FileStorageError ERR_TRAVERSAL
    (js "Cannot store values outside of storage root directory").

(** [put] *)
Definition put (key : jsstring) (stored : StoredValueMeta Meta) : M unit :=
  let '(filePath, sanitised) := keyPath key in
  if no_path filePath then throw traversal_error
  else
    let filePath := default [] filePath in
    try_catch (writeFile filePath (value stored)) (namespace_if_EEXIST key);;
    let metaFilePath := filePath ++ metaSuffix in
    if bool_decide (is_Some (expiration stored))
       || bool_decide (is_Some (metadata stored))
       || sanitised
    then
      writeFile metaFilePath
        (utf8_encode
           (JSON_stringify R
              {| meta_key := Some key;
                 meta_expiration := expiration stored;
                 meta_metadata := metadata stored |}))
    else
      deleteFile metaFilePath;;
      mret tt.

(** [deleteMaybeExpired] *)
Definition deleteMaybeExpired (key : jsstring) : M bool :=
  let '(filePath, _) := keyPath key in
  if no_path filePath then mret false
  else
    let filePath := default [] filePath in
    try_catch
      (existed ← deleteFile filePath;
       deleteFile (filePath ++ metaSuffix);;
       mret existed)
      (not_found_if_ENOTDIR false).

(** [getAlarm] *)
Definition getAlarm : M (option number) :=
  let '(filePath, _) := keyPath ALARM_KEY in
  if no_path filePath then mret None
  else
    let filePath := default [] filePath in
    try_catch
      (value ← readFile filePath;
       match value with
       | None => mret None
       | Some valueUint8Array =>
           mret (Some (toNumber R (utf8_decode R valueUint8Array)))
       end)
      (not_found_if_ENOTDIR None).

(** [setAlarm] *)
Definition setAlarm (scheduledTime : number) : M unit :=
  let '(filePath, _) := keyPath ALARM_KEY in
  if no_path filePath then throw traversal_error
  else
    let filePath := default [] filePath in
    try_catch
      (let valueUint8Array := utf8_encode (toString R scheduledTime) in
       writeFile filePath valueUint8Array)
      (namespace_if_EEXIST ALARM_KEY).

(** [deleteAlarm] *)
Definition deleteAlarm : M unit :=
  let '(filePath, _) := keyPath ALARM_KEY in
  if no_path filePath then mret tt
  else
    let filePath := default [] filePath in
    try_catch
      (deleteFile filePath;;
       deleteFile (filePath ++ metaSuffix);;
       mret tt)
      (not_found_if_ENOTDIR tt).

End Methods.

End FileStorage.

(** ** The enumeration of the file-system storage *)

Module FileListing.
Import JS FS.

(** [StoredKeyMeta<Meta>] *)
Record StoredKeyMeta (Meta : Type) : Type := {
  name : jsstring;
  key_expiration : option number;
  key_metadata : option Meta
}.
Arguments name {Meta} _.
Arguments key_expiration {Meta} _.
Arguments key_metadata {Meta} _.

(** Modelled from the spec: [walk] of [./helpers], the recursive walk of a
    directory; it yields the paths of the regular files below the
    directory, in no order that the callers may rely on. *)
Definition walk (dir : jsstring) : M (list jsstring) :=
  fun fs =>
    (Ok (List.filter (startsWith (dir ++ js "/")) (map fst (map_to_list fs))),
     fs).

Section Methods.

Context {Meta : Type} (R : Runtime Meta) (this : Config).

(** The body of the [for await] loop of [listAllMaybeExpired], over the
    paths that [walk] yields. *)
Fixpoint list_paths (paths : list jsstring) (keys : list (StoredKeyMeta Meta))
    : M (list (StoredKeyMeta Meta)) :=
  match paths with
  | [] => mret keys
  | filePath :: rest =>
      if endsWith metaSuffix filePath then list_paths rest keys
      else
        let name := slice (List.length (root this) + 1) filePath in
        m ← FileStorage.meta R filePath;
        let realName := default name (meta_key m) in
        list_paths rest
          (keys ++ [{| name := realName;
                       key_expiration := meta_expiration m;
                       key_metadata := meta_metadata m |}])
  end.

(** [listAllMaybeExpired] *)
Definition listAllMaybeExpired : M (list (StoredKeyMeta Meta)) :=
  paths ← walk (root this);
  list_paths paths [].

End Methods.

End FileListing.

(** ** Workers Sites: [packages/miniflare/src/plugins/kv/sites.ts] *)

Module Sites.
Import JS.

(** [KVGatewayListOptions] *)
Record KVGatewayListOptions : Type := {
  limit : option Z;
  prefix : option jsstring;
  cursor : option jsstring
}.

(** [KVGatewayListResult], with each key as its [name]. *)
Record KVGatewayListResult : Type := {
  keys : list jsstring;
  list_complete : bool;
  next_cursor : option jsstring
}.

(** [SiteMatcherRegExps], over the matchers of [../../shared]. *)
Record SiteMatcherRegExps (MatcherRegExps : Type) : Type := {
  include : option MatcherRegExps;
  exclude : option MatcherRegExps
}.
Arguments include {MatcherRegExps} _.
Arguments exclude {MatcherRegExps} _.

(** Exceptions: what [validateListOptions] throws, and the [TypeError] of
    a property read on [undefined]. *)
Inductive exn : Type :=
| ValidationError (message : jsstring)
| TypeError.

Inductive Result (A : Type) : Type :=
| Ok (a : A)
| Throw (e : exn).
Arguments Ok {A} a.
Arguments Throw {A} e.

(** Imports of [sites.ts] and built-ins of the language that stay
    parameters: the matchers and [testRegExps], [base64Encode],
    [base64Decode] of [../../shared], [validateListOptions] of [./gateway]
    ([None] when it returns), [MAX_LIST_KEYS] of [./constants],
    [encodeURIComponent] and [decodeURIComponent], and [keys.sort] with
    [lexicographicCompare]. *)
Record Shared : Type := {
  MatcherRegExps : Type;
  testRegExps : MatcherRegExps -> jsstring -> bool;
  base64Encode : jsstring -> jsstring;
  base64Decode : jsstring -> jsstring;
  validateListOptions : KVGatewayListOptions -> option exn;
  MAX_LIST_KEYS : Z;
  encodeURIComponent : jsstring -> jsstring;
  decodeURIComponent : jsstring -> jsstring;
  sort_names : list jsstring -> list jsstring
}.

Section Functions.

Context (S : Shared).

(** [testSiteRegExps] *)
Definition testSiteRegExps (regExps : SiteMatcherRegExps (MatcherRegExps S))
    (key : jsstring) : bool :=
  match include regExps with
  | None => true
  | Some inc => testRegExps S inc key
  end
  && match exclude regExps with
     | None => true
     | Some exc => negb (testRegExps S exc key)
     end.

Definition SITES_NO_CACHE_PREFIX : jsstring := js "$__MINIFLARE_SITES__$/".

(** [encodeSitesKey] *)
Definition encodeSitesKey (key : jsstring) : jsstring :=
  SITES_NO_CACHE_PREFIX ++ encodeURIComponent S key.

(** [decodeSitesKey] *)
Definition decodeSitesKey (key : jsstring) : jsstring :=
  if startsWith SITES_NO_CACHE_PREFIX key
  then decodeURIComponent S (slice (List.length SITES_NO_CACHE_PREFIX) key)
  else key.

(** [keys.findIndex(({ name }) => name === startAfter)], counted from
    [i]; [-1] when there is none. *)
Fixpoint findIndex (startAfter : jsstring) (names : list jsstring) (i : Z) : Z :=
  match names with
  | [] => -1
  | name :: rest =>
      if bool_decide (name = startAfter) then i
      else findIndex startAfter rest (i + 1)
  end.

(** [keys[i]] *)
Definition at_index (names : list jsstring) (i : Z) : option jsstring :=
  if i <? 0 then None else names !! Z.to_nat i.

(** [keys.slice(start, end)] *)
Definition array_slice (names : list jsstring) (first last : Z)
    : list jsstring :=
  let len := Z.of_nat (List.length names) in
  let relative i := if i <? 0 then Z.max (len + i) 0 else Z.min i len in
  take (Z.to_nat (relative last - relative first))
    (drop (Z.to_nat (relative first)) names).

(** The sorted array of all keys matching the prefix, that the loop of
    [sitesGatewayList] over [listKeysInDirectory] and the [sort] after it
    build; [names] is what [listKeysInDirectory] yields. *)
Definition site_keys (names : list jsstring)
    (siteRegExps : SiteMatcherRegExps (MatcherRegExps S))
    (prefix : option jsstring) : list jsstring :=
  sort_names S
    (List.filter (fun name => match prefix with
                              | None => true
                              | Some p => startsWith p name
                              end)
       (map encodeSitesKey (List.filter (testSiteRegExps siteRegExps) names))).

(** [sitesGatewayList], from the regular expressions already parsed and
    over the names [listKeysInDirectory] yields. *)
Definition sitesGatewayList (names : list jsstring)
    (siteRegExps : SiteMatcherRegExps (MatcherRegExps S))
    (opts : KVGatewayListOptions) : Result KVGatewayListResult :=
  match validateListOptions S opts with
  | Some e => Throw e
  | None =>
      let limit := default (MAX_LIST_KEYS S) (limit opts) in
      let keys := site_keys names siteRegExps (prefix opts) in
      let startAfter := match cursor opts with
                        | None => []
                        | Some c => base64Decode S c
                        end in
      let startIndex :=
        if bool_decide (startAfter = []) then 0
        else
          let startIndex := findIndex startAfter keys 0 in
          let startIndex :=
            if startIndex =? -1 then Z.of_nat (List.length keys)
            else startIndex in
          startIndex + 1 in
      let endIndex := startIndex + limit in
      if endIndex <? Z.of_nat (List.length keys) then
        match at_index keys (endIndex - 1) with
        | None => Throw TypeError
        | Some name =>
            Ok {| keys := array_slice keys startIndex endIndex;
                  list_complete := false;
                  next_cursor := Some (base64Encode S name) |}
        end
      else
        Ok {| keys := array_slice keys startIndex endIndex;
              list_complete := true;
              next_cursor := None |}
  end.

End Functions.

End Sites.

(** * The terms the properties are stated in *)

(** ** For the gateway *)

Module BucketTerms.
Import JS R2.

(** A key that [validateKey] is to refuse. *)
Definition invalid_key (k : jsstring) : Prop :=
  k = js "" \/ k = js "." \/ k = js ".."
  \/ MAX_KEY_SIZE < byteLength (utf8_encode k).

(** The errors for malformed input: a [TypeError], or an [R2Error] with a
    status of the 400 class. *)
Definition InvalidInput (e : exn) : Prop :=
  match e with
  | TypeError _ => True
  | R2Error _ status _ => 400 <= status < 500
  end.

(** The error of a digest that does not match. *)
Definition IntegrityMismatch : exn :=
  R2Error PUT 400
    (js "The Content-MD5 you specified did not match what we received.").

(** The digest a caller supplies, normalised to hex. *)
Definition expected_digest (md5 : jsval) : option jsstring :=
  match md5 with
  | VString s => Some s
  | VArrayBuffer b => Some (hex b)
  | _ => None
  end.

(** The metadata that [put] builds. *)
Definition new_metadata (P : Platform) (fresh : R2Bucket.Fresh)
    (k : jsstring) (bytes : list byte) (opts : R2PutOptions)
    : R2ObjectMetadata :=
  {| key := k;
     size := byteLength bytes;
     etag := createMD5 P bytes;
     version := R2Bucket.fresh_version fresh;
     httpEtag := dquote ++ createMD5 P bytes ++ dquote;
     uploaded := R2Bucket.fresh_time fresh;
     httpMetadata := parseHttpMetadata P (put_httpMetadata opts);
     customMetadata := default [] (put_customMetadata opts) |}.

(** The metadata stored under a key. *)
Definition stored_metadata (w : World) (k : jsstring)
    : option R2ObjectMetadata :=
  mjoin (metadata <$> entries w !! k).

(** [put] answers [null] before it looks at the value: the key has
    metadata and the conditional test fails on it. *)
Definition short_circuits (P : Platform) (opts : R2PutOptions) (w : World)
    (k : jsstring) : bool :=
  match stored_metadata w k with
  | Some m => testR2Conditional P (parseOnlyIf P (put_onlyIf opts)) m
  | None => false
  end.

(** The conditional [{etagMatches: e}]. *)
Definition etagMatches_only (e : jsstring) : OnlyIf :=
  OnlyIfObject
    {| etagMatches := VString e; etagDoesNotMatch := VUndefined;
       uploadedBefore := VUndefined; uploadedAfter := VUndefined |}.


(** The options [{range: {offset: n}}] of a [get]. *)
Definition get_from_offset (n : number) : R2GetOptions :=
  {| get_onlyIf := None;
     get_range := Some {| r_offset := Some n; r_length := None;
                          r_suffix := None |} |}.

(** The options [{onlyIf: {etagMatches: e}, md5}] of a [put]. *)
Definition put_if_etag (e : jsstring) (md5 : jsval) : R2PutOptions :=
  {| put_onlyIf := Some (etagMatches_only e); put_httpMetadata := None;
     put_customMetadata := None; md5 := md5 |}.

(** The options [{md5}] of a [put]. *)
Definition put_with_md5 (md5 : jsval) : R2PutOptions :=
  {| put_onlyIf := None; put_httpMetadata := None;
     put_customMetadata := None; md5 := md5 |}.

(** The opaque part of an entity tag: the tag without the weakness mark
    [W/] and without the double quotes around it. *)
Definition opaque_tag (tag : jsstring) : jsstring :=
  let tag := if startsWith (js "W/") tag then slice 2 tag else tag in
  match tag with
  | 34 :: inner =>
      if endsWith dquote inner
      then take (List.length inner - 1) inner
      else tag
  | _ => tag
  end.

(** A platform to run the methods on concrete inputs. Its digest is a
    stand-in: ["md5-"] and the hex text of the bytes read backwards. Its
    comparison of entity tags is that of their opaque parts. *)
Definition sample_platform : Platform :=
  {| createMD5 := fun b => js "md5-" ++ hex (rev b);
     headersOnlyIf := fun _ => noConditional;
     etagsMatch := fun tag etag =>
                     bool_decide (opaque_tag tag = opaque_tag etag);
     parseHttpMetadata := fun _ => [];
     readRange := fun b _ _ => Some b;
     readSuffix := fun b _ => Some b |}.

(** The version and the time of the sample [put]s. *)
Definition sample_fresh : R2Bucket.Fresh :=
  {| R2Bucket.fresh_version := js "v1"; R2Bucket.fresh_time := 1000 |}.

(** A storage that holds nothing and was never called. *)
Definition empty_world : World := {| entries := ∅; calls := [] |}.

(** The world after [put(k, text)] on the sample platform. *)
Definition after_put (k text : string) (w : World) : World :=
  snd (R2Bucket.put sample_platform sample_fresh (js k) (PutString (js text))
         None w).

(** A bucket with the key ["k"], put with the value [null]. *)
Definition empty_object : World :=
  snd (R2Bucket.put sample_platform sample_fresh (js "k") PutNull None
         empty_world).

(** A bucket with the keys ["a/b"], ["a/c"] and ["d"]. *)
Definition three_keys : World :=
  after_put "d" "3" (after_put "a/c" "2" (after_put "a/b" "1" empty_world)).

(** A bucket with the keys ["a"] and ["b"]. *)
Definition ab_keys : World :=
  after_put "b" "2" (after_put "a" "1" empty_world).

(** A bucket with the keys ["a"], ["b"] and ["c"]. *)
Definition abc_keys : World :=
  after_put "c" "3" (after_put "b" "2" (after_put "a" "1" empty_world)).

(** The metadata [put] wrote for the key ["d"] of [three_keys]. *)
Definition metadata_d : R2ObjectMetadata :=
  new_metadata sample_platform sample_fresh (js "d") [x33] noPutOptions.

(** The keys of the objects of a listing. *)
Definition object_keys (l : list R2Result) : list jsstring :=
  map (fun o => match o with
                | R2Object m => key m
                | R2ObjectBody m _ => key m
                end) l.

(** The options [{limit, prefix, cursor}] of a [list]. *)
Definition list_options (pre : jsstring) (n : nat) (cur : option jsstring)
    : R2ListOptions :=
  {| l_limit := Some (Num (Z.of_nat n)); l_prefix := Some pre;
     l_cursor := cur; l_delimiter := None; l_include := None |}.

(** The options [{delimiter}] of a [list]. *)
Definition list_delimited (d : jsstring) : R2ListOptions :=
  {| l_limit := None; l_prefix := None; l_cursor := None;
     l_delimiter := Some d; l_include := None |}.

(** Every entry of the storage carries metadata, and the metadata names
    the key it is stored under, as the entries that [put] writes do. *)
Definition written_by_put (w : World) : Prop :=
  forall k s, entries w !! k = Some s ->
              exists m, metadata s = Some m /\ key m = k.

(** The objects a listing without [include] shows for stored entries. *)
Definition objects_of (l : list (jsstring * Stored)) : list R2Result :=
  map (R2Bucket.listed_object []) (omap (fun e => metadata (snd e)) l).

(** The cursor that resumes an enumeration at position [p]: none at the
    start, else the key before the position. *)
Definition cursor_at (l : list (jsstring * Stored)) (p : nat)
    : option jsstring :=
  match p with
  | O => None
  | S q => fst <$> l !! q
  end.

(** Two entries in strictly ascending order of their names. *)
Definition by_name (x y : jsstring * Stored) : Prop :=
  ltb (fst x) (fst y) = true.

(** Keys in strictly ascending order. *)
Definition ascending (ks : list jsstring) : Prop :=
  StronglySorted (fun a b => ltb a b = true) ks.

End BucketTerms.

(** ** For the file-system storage *)

Module FileTerms.
Import JS FS.

(** The path is the root directory or lies below it. *)
Definition below_root (root p : jsstring) : Prop :=
  p = root \/ startsWith (root ++ js "/") p = true.

(** A value stored without expiration and without metadata. *)
Definition plain {Meta : Type} (b : list byte) : StoredValueMeta Meta :=
  {| value := b; expiration := None; metadata := None |}.

(** A storage rooted at [/tmp/store] that does not sanitise its keys. *)
Definition unsanitised_store : Config :=
  {| root := js "/tmp/store"; sanitise := false |}.

(** The path of the file of the alarm. *)
Definition alarm_path {Meta : Type} (R : Runtime Meta) (this : Config)
    : option jsstring :=
  fst (FileStorage.keyPath R this ALARM_KEY).

(** The sidecar of a file is absent, empty, or text that [JSON.parse]
    accepts. *)
Definition sidecar_readable {Meta : Type} (R : Runtime Meta) (fs : Files)
    (p : jsstring) : Prop :=
  match fs !! (p ++ metaSuffix) with
  | None => True
  | Some b =>
      utf8_decode R b = [] \/ is_Some (JSON_parse R (utf8_decode R b))
  end.

(** A runtime to run the methods on concrete inputs: keys are left as they
    are, text is ASCII, [Number] is a stand-in that counts the code units,
    and sidecars are kept empty. *)
Definition sample_runtime : Runtime unit :=
  {| sanitisePath := fun k => k;
     utf8_decode := fun b => map (fun x => Z.of_N (Byte.to_N x)) b;
     toNumber := fun s => Num (Z.of_nat (List.length s));
     toString := fun n => match n with
                          | NaN => js "NaN"
                          | Num z => decimal z
                          end;
     JSON_parse := fun _ => Some noFileMeta;
     JSON_stringify := fun _ => js "{}" |}.

(** The file system after [put(ALARM_KEY, "42")] on the sample runtime. *)
Definition after_alarm_put : Files :=
  snd (FileStorage.put sample_runtime unsanitised_store ALARM_KEY
         (plain [x34; x32]) ∅).

(** The file system after [setAlarm(1234)] on the sample runtime. *)
Definition after_setAlarm : Files :=
  snd (FileStorage.setAlarm sample_runtime unsanitised_store (Num 1234) ∅).

End FileTerms.

(** ** For further properties of the gateway *)

Module MoreBucketTerms.
Import JS R2 BucketTerms.

(** Every entry of the storage carries metadata that names its key, gives
    the byte length of its value as [size] and the digest of its value as
    [etag], and has the quoted etag as [httpEtag]. *)
Definition consistent (P : Platform) (w : World) : Prop :=
  forall k s,
    entries w !! k = Some s ->
    exists m,
      metadata s = Some m
      /\ key m = k
      /\ size m = byteLength (value s)
      /\ etag m = createMD5 P (value s)
      /\ httpEtag m = dquote ++ etag m ++ dquote.

(** A computation that leaves the entries of the storage as they are. *)
Definition reads {A} (m : M A) : Prop :=
  forall w, entries (snd (m w)) = entries w.

(** The limit a [list] is asked for, 1000 when none is given. *)
Definition requested_limit (o : option R2ListOptions) : number :=
  default (Num MAX_LIST_KEYS) (l_limit (default noListOptions o)).

(** The metadata groups a [list] is asked to include. *)
Definition requested_include (o : option R2ListOptions) : list IncludeField :=
  default [] (l_include (default noListOptions o)).

(** The error of a limit outside [1, 1000]. *)
Definition ListLimitInvalid : exn :=
  R2Error LIST 400 (js "MaxKeys params must be positive integer <= 1000.").

(** The options [{prefix, delimiter}] of a [list]. *)
Definition list_grouped (pre d : jsstring) : R2ListOptions :=
  {| l_limit := None; l_prefix := Some pre; l_cursor := None;
     l_delimiter := Some d; l_include := None |}.

(** A delimited prefix [p] of a listing with prefix [pre] and delimiter
    [d]: it is [pre], a segment free of [d], and [d], and a stored key that
    starts with [pre] starts with it. *)
Definition groups_stored_key (stored : gmap jsstring Stored)
    (pre d p : jsstring) : Prop :=
  exists seg k,
    p = pre ++ seg ++ d
    /\ includes d seg = false
    /\ is_Some (stored !! k)
    /\ startsWith pre k = true
    /\ startsWith p k = true.

(** The error of the second test of the digest in [put]. *)
Definition DigestNotValid : exn :=
  R2Error PUT 400 (js "The Content-MD5 you specified is not valid.").

(** An [R2Error] with status 400. *)
Definition BadRequest (e : exn) : Prop :=
  match e with
  | R2Error _ status _ => status = 400
  | TypeError _ => False
  end.

(** Code units of the ASCII range. *)
Definition ascii_only (s : jsstring) : Prop :=
  Forall (fun c => 0 <= c < 0x80) s.

End MoreBucketTerms.

(** ** For further properties of the file-system storage *)

Module MoreFileTerms.
Import JS FS FileTerms.

(** The test of [put] that decides between writing and deleting the
    sidecar. *)
Definition has_sidecar {Meta : Type} (stored : StoredValueMeta Meta)
    (sanitised : bool) : bool :=
  bool_decide (is_Some (expiration stored))
  || bool_decide (is_Some (metadata stored))
  || sanitised.

(** The record [put] writes into the sidecar. *)
Definition sidecar_record {Meta : Type} (key : jsstring)
    (stored : StoredValueMeta Meta) : FileMeta Meta :=
  {| meta_key := Some key;
     meta_expiration := expiration stored;
     meta_metadata := metadata stored |}.

(** The bytes [put] writes into the sidecar. *)
Definition sidecar_bytes {Meta : Type} (R : Runtime Meta) (key : jsstring)
    (stored : StoredValueMeta Meta) : list byte :=
  utf8_encode (JSON_stringify R (sidecar_record key stored)).

(** The files after a [put] that wrote the value file [p]. *)
Definition after_write {Meta : Type} (R : Runtime Meta) (key : jsstring)
    (stored : StoredValueMeta Meta) (sanitised : bool) (p : jsstring)
    (fs : Files) : Files :=
  if has_sidecar stored sanitised
  then <[p ++ metaSuffix := sidecar_bytes R key stored]>
         (<[p := value stored]> fs)
  else delete (p ++ metaSuffix) (<[p := value stored]> fs).

(** The error of a key below a key. *)
Definition NamespaceKeyChild (key : jsstring) : exn :=
  FileStorageError ERR_NAMESPACE_KEY_CHILD
    (FileStorage.namespace_message key).

(** A record survives being written as JSON text, encoded, decoded and
    parsed, and its text is not empty. *)
Definition json_round_trips {Meta : Type} (R : Runtime Meta)
    (m : FileMeta Meta) : Prop :=
  utf8_decode R (utf8_encode (JSON_stringify R m)) <> []
  /\ JSON_parse R (utf8_decode R (utf8_encode (JSON_stringify R m))) = Some m.

(** A stand-in for JSON on sidecar records without user metadata: a letter
    for the expiration, followed by its code unit when it is a number, and
    the key after a ["K"]. *)
Definition compact_stringify (m : FileMeta unit) : jsstring :=
  match meta_expiration m with
  | Some (Num z) => [69; z]
  | Some NaN => [78; 78]
  | None => [85; 85]
  end
  ++ match meta_metadata m with
     | Some _ => [77]
     | None => [109]
     end
  ++ match meta_key m with
     | Some k => 75 :: k
     | None => []
     end.

Definition compact_parse (s : jsstring) : option (FileMeta unit) :=
  match s with
  | e :: z :: m :: rest =>
      Some {| meta_key := match rest with
                          | 75 :: k => Some k
                          | _ => None
                          end;
              meta_expiration :=
                if e =? 69 then Some (Num z)
                else if e =? 78 then Some NaN else None;
              meta_metadata := if m =? 77 then Some tt else None |}
  | _ => None
  end.

(** The sample runtime with the stand-in for JSON. *)
Definition compact_runtime : Runtime unit :=
  {| sanitisePath := sanitisePath sample_runtime;
     utf8_decode := utf8_decode sample_runtime;
     toNumber := toNumber sample_runtime;
     toString := toString sample_runtime;
     JSON_parse := compact_parse;
     JSON_stringify := compact_stringify |}.

(** The entry the enumeration is to show for a stored record. *)
Definition listed_as {Meta : Type} (key : jsstring)
    (stored : StoredValueMeta Meta) : FileListing.StoredKeyMeta Meta :=
  {| FileListing.name := key;
     FileListing.key_expiration := expiration stored;
     FileListing.key_metadata := metadata stored |}.

(** Every file below the directory [dir] is named like a sidecar. *)
Definition only_sidecar_names (dir : jsstring) (fs : Files) : Prop :=
  forall p, is_Some (fs !! p) -> startsWith (dir ++ js "/") p = true ->
            endsWith metaSuffix p = true.

(** A value that expires at time 5. *)
Definition expiring (b : list byte) : StoredValueMeta unit :=
  {| value := b; expiration := Some (Num 5); metadata := None |}.

End MoreFileTerms.

(** ** For Workers Sites *)

Module SitesTerms.
Import JS.

(** The page of [n] keys of the sorted keys [K] that starts at position
    [pos], as [sitesGatewayList] is to return it: the listing is complete
    when no key remains after the page, and the cursor encodes the last
    key of the page otherwise. *)
Definition page_at (S : Sites.Shared) (K : list jsstring) (pos n : nat)
    : Sites.KVGatewayListResult :=
  {| Sites.keys := take n (drop pos K);
     Sites.list_complete := bool_decide (List.length K <= pos + n)%nat;
     Sites.next_cursor :=
       if bool_decide (List.length K <= pos + n)%nat then None
       else Sites.base64Encode S <$> K !! (pos + n - 1)%nat |}.

(** The empty and complete listing. *)
Definition no_keys : Sites.KVGatewayListResult :=
  {| Sites.keys := []; Sites.list_complete := true;
     Sites.next_cursor := None |}.

(** The options [{limit, prefix, cursor}]. *)
Definition list_from (n : nat) (pre cur : option jsstring)
    : Sites.KVGatewayListOptions :=
  {| Sites.limit := Some (Z.of_nat n); Sites.prefix := pre;
     Sites.cursor := cur |}.

(** No include and no exclude globs. *)
Definition all_files {T : Type} : Sites.SiteMatcherRegExps T :=
  {| Sites.include := None; Sites.exclude := None |}.

(** The insertion of a name into names sorted by code units. *)
Fixpoint insert_name (x : jsstring) (l : list jsstring) : list jsstring :=
  match l with
  | [] => [x]
  | y :: l' => if ltb y x then y :: insert_name x l' else x :: l
  end.

(** A stand-in for the imports, to run the functions on concrete inputs:
    a matcher is a prefix, base64 adds and removes a leading ["b"], every
    option is valid, URI components are left as they are, and keys are
    sorted by code units. *)
Definition sample_shared : Sites.Shared :=
  {| Sites.MatcherRegExps := jsstring;
     Sites.testRegExps := startsWith;
     Sites.base64Encode := fun s => 98 :: s;
     Sites.base64Decode := fun s => drop 1 s;
     Sites.validateListOptions := fun _ => None;
     Sites.MAX_LIST_KEYS := 1000;
     Sites.encodeURIComponent := fun s => s;
     Sites.decodeURIComponent := fun s => s;
     Sites.sort_names := foldr insert_name [] |}.

(** The files of a sample site. *)
Definition site_files : list jsstring :=
  [js "index.html"; js "about.html"; js "css/site.css"].

End SitesTerms.

(** * Properties of the gateway *)

Module BucketProps.
Import JS R2 BucketTerms.

(** *** Key validation *)

Lemma validateKey_invalid method k :
  invalid_key k -> exists e, validateKey method k = Throw e /\ InvalidInput e.
Proof.
  unfold validateKey. intros H.
  repeat case_bool_decide; try (eexists; split; [reflexivity | exact I]).
  destruct H as [H | [H | [H | H]]]; try contradiction.
  apply Z.ltb_lt in H. rewrite H.
  eexists; split; [reflexivity |]. simpl. lia.
Qed.

Lemma validateKey_valid method k :
  ~ invalid_key k -> validateKey method k = Ok tt.
Proof.
  unfold validateKey, invalid_key. intros H.
  repeat case_bool_decide; try (exfalso; apply H; tauto).
  destruct (MAX_KEY_SIZE <? byteLength (utf8_encode k)) eqn:E; [| reflexivity].
  apply Z.ltb_lt in E. exfalso; apply H; tauto.
Qed.

Lemma validateKey_ok_valid (k : jsstring) :
  validateKey GET k = Ok tt -> ~ invalid_key k.
Proof.
  intros H Hi. destruct (validateKey_invalid GET k Hi) as (e & He & _).
  congruence.
Qed.

(** C8. For every key that is empty, ["."], [".."], or longer than 512
    bytes in UTF-8, each of [head], [get], [put] and [delete] fails with an
    invalid-input error ([TypeError], or status 414), and the world after
    the call is the world before it: the storage was not called. *)
Theorem invalid_key_rejected P fresh k :
  invalid_key k ->
  forall (w : World) (value : R2PutValue) (gopts : option R2GetOptions)
         (popts : option R2PutOptions),
    (exists e, InvalidInput e /\ R2Bucket.head k w = (Throw e, w))
    /\ (exists e, InvalidInput e /\ R2Bucket.get P k gopts w = (Throw e, w))
    /\ (exists e, InvalidInput e
                  /\ R2Bucket.put P fresh k value popts w = (Throw e, w))
    /\ (exists e, InvalidInput e /\ R2Bucket.delete k w = (Throw e, w)).
Proof.
  intros H w value gopts popts.
  repeat split.
  - destruct (validateKey_invalid HEAD k H) as (e & He & Hi).
    exists e; split; [exact Hi |].
    unfold R2Bucket.head. cbn. rewrite He. reflexivity.
  - destruct (validateKey_invalid GET k H) as (e & He & Hi).
    exists e; split; [exact Hi |].
    unfold R2Bucket.get. cbn. rewrite He. reflexivity.
  - destruct (validateKey_invalid PUT k H) as (e & He & Hi).
    exists e; split; [exact Hi |].
    unfold R2Bucket.put. cbn. rewrite He. reflexivity.
  - destruct (validateKey_invalid DELETE k H) as (e & He & Hi).
    exists e; split; [exact Hi |].
    unfold R2Bucket.delete. cbn. rewrite He. reflexivity.
Qed.

(** A key of 171 CJK characters is 513 bytes long in UTF-8. *)
Lemma invalid_key_rejected_witness :
  invalid_key (repeat 0x4e2d 171)
  /\ exists e,
       InvalidInput e
       /\ R2Bucket.put sample_platform sample_fresh (repeat 0x4e2d 171)
            PutNull None empty_world = (Throw e, empty_world).
Proof.
  assert (H : invalid_key (repeat 0x4e2d 171)).
  { unfold invalid_key. right; right; right. vm_compute. reflexivity. }
  split; [exact H |].
  exact (proj1 (proj2 (proj2
    (invalid_key_rejected sample_platform sample_fresh _ H
       empty_world PutNull None None)))).
Defined.

(** *** [put] and [get] *)

Lemma validateR2PutOptions_md5 opts :
  validateR2PutOptions opts = Ok tt ->
  is_defined (md5 opts) && negb (is_string (md5 opts))
    && negb (is_array_buffer (md5 opts)) = false.
Proof.
  unfold validateR2PutOptions.
  destruct (validateOnlyIf _); cbn; [| discriminate].
  destruct (validateHttpMetadata _); cbn; [| discriminate].
  destruct (match put_customMetadata opts with
            | Some o => validateCustomValues o
            | None => Ok tt
            end); cbn; [| discriminate].
  destruct (md5 opts); cbn; try discriminate; reflexivity.
Qed.

(** What a [put] with a valid key and valid options does, step by step. *)
Lemma put_steps P fresh k v opts w :
  validateKey PUT k = Ok tt ->
  validateR2PutOptions opts = Ok tt ->
  R2Bucket.put P fresh k v (Some opts) w =
  if short_circuits P opts w k then (Ok None, called (CallMeta k) w)
  else
    match R2Bucket.toUint8Array v with
    | Throw e => (Throw e, called (CallMeta k) w)
    | Ok bytes =>
        if MAX_VALUE_SIZE <? byteLength bytes then
          (throwR2Error PUT 400
             (js "Value length of " ++ decimal (byteLength bytes)
                ++ js " exceeds limit of " ++ decimal MAX_VALUE_SIZE
                ++ js "."), called (CallMeta k) w)
        else if R2Bucket.md5_mismatch (md5 opts) (createMD5 P bytes) then
          (Throw IntegrityMismatch, called (CallMeta k) w)
        else
          (Ok (Some (R2Object (new_metadata P fresh k bytes opts))),
           {| entries :=
                <[k := {| value := bytes;
                          metadata := Some (new_metadata P fresh k bytes opts) |}]>
                  (entries w);
              calls := CallPut k :: CallMeta k :: calls w |})
    end.
Proof.
  intros Hk Ho.
  unfold R2Bucket.put, short_circuits, stored_metadata.
  cbn [default]. unfold mbind, M_bind, bind, lift.
  unfold id. rewrite Hk, Ho, (validateR2PutOptions_md5 _ Ho).
  unfold storage_meta. cbn [fst snd].
  destruct (match mjoin (metadata <$> entries w !! k) with
            | Some m => testR2Conditional P (parseOnlyIf P (put_onlyIf opts)) m
            | None => false
            end); [reflexivity |].
  destruct (R2Bucket.toUint8Array v) as [bytes | e]; [| reflexivity].
  destruct (MAX_VALUE_SIZE <? byteLength bytes); [reflexivity |].
  destruct (R2Bucket.md5_mismatch _ _); reflexivity.
Qed.

Lemma put_default_options P fresh k v w :
  R2Bucket.put P fresh k v None w
  = R2Bucket.put P fresh k v (Some noPutOptions) w.
Proof. reflexivity. Qed.

(** The empty conditional is satisfied by every object. *)
Lemma noConditional_passes P m :
  testR2Conditional P noConditional m = false.
Proof. reflexivity. Qed.

(** Whatever a [put] does, it writes at most its own key, and it writes
    only when it resolves to the new object. *)
Lemma put_entries P fresh k v o w :
  let r := R2Bucket.put P fresh k v o w in
  let opts := default noPutOptions o in
  entries (snd r) = entries w
  \/ exists bytes,
       R2Bucket.toUint8Array v = Ok bytes
       /\ R2Bucket.md5_mismatch (md5 opts) (createMD5 P bytes) = false
       /\ fst r = Ok (Some (R2Object (new_metadata P fresh k bytes opts)))
       /\ entries (snd r)
          = <[k := {| value := bytes;
                      metadata := Some (new_metadata P fresh k bytes opts) |}]>
              (entries w).
Proof.
  cbn zeta.
  set (opts := default noPutOptions o).
  assert (E : R2Bucket.put P fresh k v o w
              = R2Bucket.put P fresh k v (Some opts) w)
    by (destruct o; reflexivity).
  rewrite E. clear E.
  destruct (validateKey PUT k) as [[] |e] eqn:Hk.
  2:{ left. unfold R2Bucket.put. cbn. rewrite Hk. reflexivity. }
  destruct (validateR2PutOptions opts) as [[] |e] eqn:Ho.
  2:{ left. unfold R2Bucket.put. cbn. unfold id. rewrite Hk. cbn.
      rewrite Ho. reflexivity. }
  rewrite (put_steps _ _ _ _ _ _ Hk Ho).
  destruct (short_circuits P opts w k); [left; reflexivity |].
  destruct (R2Bucket.toUint8Array v) as [bytes | e]; [| left; reflexivity].
  destruct (MAX_VALUE_SIZE <? byteLength bytes); [left; reflexivity |].
  destruct (R2Bucket.md5_mismatch _ _) eqn:Hm; [left; reflexivity |].
  right. exists bytes. repeat split; try reflexivity. exact Hm.
Qed.

(** What a [get] without range does on a key with stored metadata. *)
Lemma get_steps P k o w s m :
  validateKey GET k = Ok tt ->
  validateR2GetOptions (default noGetOptions o) = Ok tt ->
  get_range (default noGetOptions o) = None ->
  entries w !! k = Some s ->
  metadata s = Some m ->
  fst (R2Bucket.get P k o w) =
  Ok (Some
        (if testR2Conditional P
              (parseOnlyIf P (get_onlyIf (default noGetOptions o))) m
            || (size m =? 0)
         then R2Object m
         else R2ObjectBody m (value s))).
Proof.
  intros Hk Ho Hr Hs Hm.
  unfold R2Bucket.get.
  cbn zeta. unfold mbind, M_bind, bind, lift.
  rewrite Hk, Ho, Hr.
  unfold storage_meta. cbn [fst snd]. rewrite Hs. cbn [fmap option_fmap option_map mjoin option_join].
  rewrite Hm.
  destruct (testR2Conditional _ _ m || (size m =? 0)); [reflexivity |].
  cbn. rewrite Hs. destruct s as [val md]. cbn in *. rewrite Hm. reflexivity.
Qed.

(** C1, as stated, fails on an empty value: the key ["k"] is valid and the
    value [null] has the canonical bytes [[]], within the size limit, yet
    the [get] that follows the [put] resolves to the metadata alone, an
    [R2Object] without a body. *)
Lemma round_trip_empty_value_counterexample :
  let w1 := snd (R2Bucket.put sample_platform sample_fresh (js "k") PutNull
                   None empty_world) in
  ~ invalid_key (js "k")
  /\ R2Bucket.toUint8Array PutNull = Ok []
  /\ byteLength [] <= MAX_VALUE_SIZE
  /\ (exists m, fst (R2Bucket.get sample_platform (js "k") None w1)
                = Ok (Some (R2Object m)))
  /\ forall m body, fst (R2Bucket.get sample_platform (js "k") None w1)
                    <> Ok (Some (R2ObjectBody m body)).
Proof.
  cbn zeta. split; [apply validateKey_ok_valid; reflexivity |].
  split; [reflexivity |]. split; [vm_compute; discriminate |].
  split.
  - eexists. vm_compute. reflexivity.
  - intros m body. vm_compute. discriminate.
Qed.

(** C1, amended. For every valid key and every value whose canonical bytes
    are within the size limit, [put(k, v)] stores the object and resolves
    to metadata whose [size] is the byte length and whose [etag] is the
    digest of those bytes; the [get(k)] that follows resolves to that
    metadata with a body identical to the bytes when they are not empty,
    and to that metadata without a body when they are empty. *)
Theorem put_get_round_trip P fresh k v bytes w :
  ~ invalid_key k ->
  R2Bucket.toUint8Array v = Ok bytes ->
  byteLength bytes <= MAX_VALUE_SIZE ->
  exists m w1,
    R2Bucket.put P fresh k v None w = (Ok (Some (R2Object m)), w1)
    /\ size m = byteLength bytes
    /\ etag m = createMD5 P bytes
    /\ fst (R2Bucket.get P k None w1)
       = Ok (Some (if bool_decide (bytes = []) then R2Object m
                   else R2ObjectBody m bytes)).
Proof.
  intros Hk Hv Hsz.
  rewrite put_default_options.
  rewrite (put_steps P fresh k v noPutOptions w
             (validateKey_valid PUT k Hk) eq_refl).
  assert (Hsc : short_circuits P noPutOptions w k = false).
  { unfold short_circuits. destruct (stored_metadata w k); reflexivity. }
  rewrite Hsc, Hv.
  destruct (MAX_VALUE_SIZE <? byteLength bytes) eqn:E;
    [apply Z.ltb_lt in E; lia |].
  cbn [md5 noPutOptions R2Bucket.md5_mismatch].
  eexists _, _. split; [reflexivity |].
  split; [reflexivity |]. split; [reflexivity |].
  erewrite (get_steps P k None _ _ _ (validateKey_valid GET k Hk) eq_refl eq_refl).
  2:{ cbn [entries]. apply lookup_insert_eq. }
  2:{ reflexivity. }
  cbn [default get_onlyIf noGetOptions parseOnlyIf value].
  rewrite noConditional_passes. cbn [orb new_metadata size].
  unfold byteLength. destruct bytes as [| b bytes']; reflexivity.
Qed.

Lemma put_get_round_trip_witness :
  ~ invalid_key (js "k")
  /\ R2Bucket.toUint8Array (PutString (js "hi")) = Ok [x68; x69]
  /\ byteLength [x68; x69] <= MAX_VALUE_SIZE
  /\ exists m w1,
       R2Bucket.put sample_platform sample_fresh (js "k")
         (PutString (js "hi")) None empty_world
       = (Ok (Some (R2Object m)), w1)
       /\ size m = 2
       /\ etag m = js "md5-6968"
       /\ fst (R2Bucket.get sample_platform (js "k") None w1)
          = Ok (Some (R2ObjectBody m [x68; x69])).
Proof.
  assert (Hk : ~ invalid_key (js "k"))
    by (apply validateKey_ok_valid; reflexivity).
  assert (Hsz : byteLength [x68; x69] <= MAX_VALUE_SIZE)
    by (vm_compute; discriminate).
  split; [exact Hk |]. split; [reflexivity |]. split; [exact Hsz |].
  exact (put_get_round_trip sample_platform sample_fresh (js "k")
           (PutString (js "hi")) [x68; x69] empty_world Hk eq_refl Hsz).
Defined.

(** C3, as stated, fails: in a bucket that holds nothing, a [put] of the
    valid key ["k"] that carries [onlyIf.etagMatches] does not resolve to
    [null]; it resolves to the new object, which the storage then holds. *)
Lemma conditional_put_on_missing_counterexample :
  let r := R2Bucket.put sample_platform sample_fresh (js "k")
             (PutString (js "v"))
             (Some (put_if_etag (js "abc") VUndefined)) empty_world in
  ~ invalid_key (js "k")
  /\ entries empty_world !! js "k" = None
  /\ fst r <> Ok None
  /\ is_Some (entries (snd r) !! js "k").
Proof.
  cbn zeta. split; [apply validateKey_ok_valid; reflexivity |].
  split; [reflexivity |].
  split; [vm_compute; discriminate |].
  vm_compute. eexists. reflexivity.
Qed.

(** C3, amended. For every valid key that has no stored metadata, [put]
    does not run the conditional test: whatever [onlyIf] it carries, an
    [etagMatches] clause included, a [put] with valid options, a value
    within the size limit and no mismatching digest writes the object and
    resolves to its new metadata. *)
Theorem conditional_put_on_missing_key_writes P fresh k v opts bytes w :
  ~ invalid_key k ->
  stored_metadata w k = None ->
  validateR2PutOptions opts = Ok tt ->
  R2Bucket.toUint8Array v = Ok bytes ->
  byteLength bytes <= MAX_VALUE_SIZE ->
  R2Bucket.md5_mismatch (md5 opts) (createMD5 P bytes) = false ->
  exists w1,
    R2Bucket.put P fresh k v (Some opts) w
    = (Ok (Some (R2Object (new_metadata P fresh k bytes opts))), w1)
    /\ entries w1 !! k
       = Some {| value := bytes;
                 metadata := Some (new_metadata P fresh k bytes opts) |}.
Proof.
  intros Hk Hnone Ho Hv Hsz Hmd.
  rewrite (put_steps P fresh k v opts w (validateKey_valid PUT k Hk) Ho).
  unfold short_circuits. rewrite Hnone, Hv.
  destruct (MAX_VALUE_SIZE <? byteLength bytes) eqn:E;
    [apply Z.ltb_lt in E; lia |].
  rewrite Hmd. eexists. split; [reflexivity |].
  cbn [entries]. apply lookup_insert_eq.
Qed.

Lemma conditional_put_on_missing_key_writes_witness :
  let opts := put_if_etag (js "abc") VUndefined in
  ~ invalid_key (js "k")
  /\ stored_metadata empty_world (js "k") = None
  /\ validateR2PutOptions opts = Ok tt
  /\ R2Bucket.toUint8Array (PutString (js "v")) = Ok [x76]
  /\ byteLength [x76] <= MAX_VALUE_SIZE
  /\ R2Bucket.md5_mismatch (md5 opts) (createMD5 sample_platform [x76])
     = false
  /\ exists w1,
       R2Bucket.put sample_platform sample_fresh (js "k")
         (PutString (js "v")) (Some opts) empty_world
       = (Ok (Some (R2Object
                      (new_metadata sample_platform sample_fresh (js "k")
                         [x76] opts))), w1)
       /\ entries w1 !! js "k"
          = Some {| value := [x76];
                    metadata :=
                      Some (new_metadata sample_platform sample_fresh
                              (js "k") [x76] opts) |}.
Proof.
  cbn zeta.
  assert (Hk : ~ invalid_key (js "k"))
    by (apply validateKey_ok_valid; reflexivity).
  assert (Hsz : byteLength [x76] <= MAX_VALUE_SIZE)
    by (vm_compute; discriminate).
  split; [exact Hk |]. do 3 (split; [reflexivity |]).
  split; [exact Hsz |]. split; [reflexivity |].
  exact (conditional_put_on_missing_key_writes sample_platform sample_fresh
           (js "k") (PutString (js "v")) (put_if_etag (js "abc") VUndefined)
           [x76] empty_world Hk eq_refl eq_refl eq_refl Hsz eq_refl).
Defined.

(** *** The integrity check *)

Lemma mismatch_of_expected_digest md5 d hash :
  expected_digest md5 = Some d -> d <> hash ->
  R2Bucket.md5_mismatch md5 hash = true.
Proof.
  unfold expected_digest, R2Bucket.md5_mismatch.
  destruct md5; try discriminate; intros [= <-] Hne;
    (case_bool_decide; [congruence | reflexivity]).
Qed.

(** C7, as stated, fails: the bucket holds the key ["k"] with an etag other
    than ["nomatch"]; a [put] of ["k"] that carries
    [onlyIf.etagMatches = "nomatch"] and the digest ["bad"], which is not
    the digest of its bytes, does not fail with the integrity error: its
    conditional test fails first, and it resolves to [null]. *)
Lemma integrity_after_conditional_counterexample :
  let w := after_put "k" "old" empty_world in
  let opts := put_if_etag (js "nomatch") (VString (js "bad")) in
  expected_digest (md5 opts) = Some (js "bad")
  /\ R2Bucket.toUint8Array (PutString (js "new")) = Ok [x6e; x65; x77]
  /\ js "bad" <> createMD5 sample_platform [x6e; x65; x77]
  /\ fst (R2Bucket.put sample_platform sample_fresh (js "k")
            (PutString (js "new")) (Some opts) w) = Ok None.
Proof.
  cbn zeta. split; [reflexivity |]. split; [reflexivity |].
  split; [vm_compute; discriminate |].
  vm_compute. reflexivity.
Qed.

(** C7, amended. Take a [put] that supplies an expected digest, a hex
    string or raw bytes normalised to hex, other than the digest of the
    canonical bytes of its value. It never writes: the storage holds after
    it what it held before, and it does not resolve to an object. And when
    its key and options are valid, its conditional does not short-circuit
    it and its value is within the size limit, it fails with the integrity
    error, having made one call on the storage, the metadata lookup. *)
Theorem integrity_mismatch_rejected P fresh k v opts bytes d w :
  expected_digest (md5 opts) = Some d ->
  R2Bucket.toUint8Array v = Ok bytes ->
  d <> createMD5 P bytes ->
  let r := R2Bucket.put P fresh k v (Some opts) w in
  entries (snd r) = entries w
  /\ (forall o, fst r <> Ok (Some o))
  /\ (~ invalid_key k ->
      validateR2PutOptions opts = Ok tt ->
      short_circuits P opts w k = false ->
      byteLength bytes <= MAX_VALUE_SIZE ->
      r = (Throw IntegrityMismatch, called (CallMeta k) w)).
Proof.
  intros Hd Hv Hne. cbn zeta.
  pose proof (mismatch_of_expected_digest _ _ _ Hd Hne) as Hmm.
  split; [| split].
  - destruct (put_entries P fresh k v (Some opts) w)
      as [H | (bytes' & Hv' & Hm' & _)]; [exact H |].
    cbn [default from_option id] in Hm'. unfold id in Hm'. congruence.
  - intros o Ho.
    destruct (validateKey PUT k) as [[] |e] eqn:Hk.
    2:{ unfold R2Bucket.put in Ho. cbn in Ho. rewrite Hk in Ho.
        discriminate. }
    destruct (validateR2PutOptions opts) as [[] |e] eqn:Hopts.
    2:{ unfold R2Bucket.put in Ho. cbn in Ho. unfold id in Ho.
        rewrite Hk in Ho. cbn in Ho. rewrite Hopts in Ho. discriminate. }
    rewrite (put_steps _ _ _ _ _ _ Hk Hopts), Hv, Hmm in Ho.
    destruct (short_circuits P opts w k); [discriminate |].
    destruct (MAX_VALUE_SIZE <? byteLength bytes); discriminate.
  - intros Hk Hopts Hsc Hsz.
    rewrite (put_steps _ _ _ _ _ _ (validateKey_valid PUT k Hk) Hopts).
    rewrite Hsc, Hv, Hmm.
    destruct (MAX_VALUE_SIZE <? byteLength bytes) eqn:E;
      [apply Z.ltb_lt in E; lia | reflexivity].
Qed.

Lemma integrity_mismatch_rejected_witness :
  let w := after_put "k" "old" empty_world in
  let opts := put_with_md5 (VArrayBuffer [x0b; xad]) in
  expected_digest (md5 opts) = Some (js "0bad")
  /\ R2Bucket.toUint8Array (PutString (js "new")) = Ok [x6e; x65; x77]
  /\ js "0bad" <> createMD5 sample_platform [x6e; x65; x77]
  /\ ~ invalid_key (js "k")
  /\ validateR2PutOptions opts = Ok tt
  /\ short_circuits sample_platform opts w (js "k") = false
  /\ byteLength [x6e; x65; x77] <= MAX_VALUE_SIZE
  /\ R2Bucket.put sample_platform sample_fresh (js "k")
       (PutString (js "new")) (Some opts) w
     = (Throw IntegrityMismatch, called (CallMeta (js "k")) w).
Proof.
  cbn zeta.
  assert (Hne : js "0bad" <> createMD5 sample_platform [x6e; x65; x77])
    by (vm_compute; discriminate).
  assert (Hk : ~ invalid_key (js "k"))
    by (apply validateKey_ok_valid; reflexivity).
  assert (Hsz : byteLength [x6e; x65; x77] <= MAX_VALUE_SIZE)
    by (vm_compute; discriminate).
  assert (Hsc : short_circuits sample_platform
                  (put_with_md5 (VArrayBuffer [x0b; xad]))
                  (after_put "k" "old" empty_world) (js "k") = false)
    by (vm_compute; reflexivity).
  split; [reflexivity |]. split; [reflexivity |]. split; [exact Hne |].
  split; [exact Hk |]. split; [reflexivity |]. split; [exact Hsc |].
  split; [exact Hsz |].
  exact (proj2 (proj2
    (integrity_mismatch_rejected sample_platform sample_fresh (js "k")
       (PutString (js "new")) (put_with_md5 (VArrayBuffer [x0b; xad]))
       [x6e; x65; x77] (js "0bad")
       (after_put "k" "old" empty_world) eq_refl eq_refl Hne))
    Hk eq_refl Hsc Hsz).
Defined.

(** *** Conditional [get] *)






(** *** Validation of the range of a [get] *)

(** C4. The code rejects what the claim accepts: a [get] whose range has a
    numeric offset, any integer, is refused by [validateR2GetOptions] with
    the 400 error ["offset must be a number."], and likewise a numeric
    length or suffix; an offset that is [NaN] passes. On the valid key
    ["k"], [get("k", {range: {offset: 0}})] fails with that error without
    a call on the storage. *)
Theorem numeric_range_rejected :
  (forall z, validateR2GetOptions (get_from_offset (Num z))
             = Throw (R2Error GET 400 (js "offset must be a number.")))
  /\ (forall z, validateR2GetOptions
                  {| get_onlyIf := None;
                     get_range := Some {| r_offset := None;
                                          r_length := Some (Num z);
                                          r_suffix := None |} |}
                = Throw (R2Error GET 400 (js "length must be a number.")))
  /\ (forall z, validateR2GetOptions
                  {| get_onlyIf := None;
                     get_range := Some {| r_offset := None;
                                          r_length := None;
                                          r_suffix := Some (Num z) |} |}
                = Throw (R2Error GET 400 (js "suffix must be a number.")))
  /\ validateR2GetOptions (get_from_offset NaN) = Ok tt
  /\ R2Bucket.get sample_platform (js "k") (Some (get_from_offset (Num 0)))
       (after_put "k" "hi" empty_world)
     = (Throw (R2Error GET 400 (js "offset must be a number.")),
        after_put "k" "hi" empty_world).
Proof.
  repeat split; try (intros z); reflexivity.
Qed.

(** The range of a [get] passes the validation exactly when each field
    that is present is [NaN]. *)
Lemma range_accepted_iff r :
  validateR2GetOptions {| get_onlyIf := None; get_range := Some r |} = Ok tt
  <-> forall n, r_offset r = Some n \/ r_length r = Some n
                \/ r_suffix r = Some n -> n = NaN.
Proof.
  destruct r as [[[| zo] |] [[| zl] |] [[| zs] |]]; cbn;
    (split;
     [ try discriminate; intros _ n [[= <-] | [[= <-] | [= <-]]];
       reflexivity
     | intros H; try reflexivity ]).
  all: try (specialize (H (Num zo) ltac:(auto)); discriminate).
  all: try (specialize (H (Num zl) ltac:(auto)); discriminate).
  all: try (specialize (H (Num zs) ltac:(auto)); discriminate).
Qed.

(** *** The enumeration of the storage *)

Lemma ltb_irrefl a : ltb a a = false.
Proof.
  induction a as [| x a IH]; [reflexivity |].
  cbn. rewrite Z.ltb_irrefl, Z.eqb_refl, IH. reflexivity.
Qed.

Lemma ltb_trans a b c :
  ltb a b = true -> ltb b c = true -> ltb a c = true.
Proof.
  revert b c. induction a as [| x a IH]; intros [| y b] [| z c];
    cbn; try discriminate; try reflexivity.
  intros H1 H2.
  apply orb_true_iff in H1. apply orb_true_iff in H2.
  apply orb_true_iff.
  destruct H1 as [H1 | H1], H2 as [H2 | H2].
  - left. apply Z.ltb_lt in H1, H2. apply Z.ltb_lt. lia.
  - apply andb_true_iff in H2 as [H2 _].
    left. apply Z.ltb_lt in H1. apply Z.eqb_eq in H2. apply Z.ltb_lt. lia.
  - apply andb_true_iff in H1 as [H1 _].
    left. apply Z.ltb_lt in H2. apply Z.eqb_eq in H1. apply Z.ltb_lt. lia.
  - apply andb_true_iff in H1 as [H1 H1'].
    apply andb_true_iff in H2 as [H2 H2'].
    right. apply Z.eqb_eq in H1, H2. subst.
    rewrite Z.eqb_refl. cbn. eapply IH; eassumption.
Qed.

Lemma ltb_total a b : ltb a b = false -> ltb b a = false -> a = b.
Proof.
  revert b. induction a as [| x a IH]; intros [| y b];
    cbn; try discriminate; try reflexivity.
  intros H1 H2.
  apply orb_false_iff in H1 as [H1 H1'].
  apply orb_false_iff in H2 as [H2 H2'].
  apply Z.ltb_ge in H1, H2.
  assert (x = y) by lia. subst y.
  rewrite Z.eqb_refl in H1', H2'. cbn in H1', H2'.
  f_equal. apply IH; assumption.
Qed.

Lemma ltb_asym a b : ltb a b = true -> ltb b a = false.
Proof.
  intros H. destruct (ltb b a) eqn:E; [| reflexivity].
  pose proof (ltb_trans _ _ _ H E) as Hc.
  rewrite ltb_irrefl in Hc. discriminate.
Qed.

Lemma by_name_keys (l : list (jsstring * Stored)) :
  StronglySorted by_name l -> ascending (map fst l).
Proof.
  unfold ascending.
  induction 1 as [| x l Hs IH Hall]; cbn; constructor; [exact IH |].
  apply Forall_forall. intros k Hk.
  apply list_elem_of_fmap in Hk as (y & -> & Hy).
  rewrite Forall_forall in Hall. apply Hall, Hy.
Qed.

Lemma insert_by_name_perm e l : insert_by_name e l ≡ₚ e :: l.
Proof.
  induction l as [| x l IH]; cbn; [reflexivity |].
  destruct (ltb (fst x) (fst e)); [| reflexivity].
  rewrite IH. apply Permutation_swap.
Qed.

Lemma sort_by_name_perm l : sort_by_name l ≡ₚ l.
Proof.
  induction l as [| x l IH]; cbn; [reflexivity |].
  rewrite insert_by_name_perm, IH. reflexivity.
Qed.

Lemma insert_by_name_sorted e l :
  StronglySorted by_name l ->
  (forall x, x ∈ l -> fst x <> fst e) ->
  StronglySorted by_name (insert_by_name e l).
Proof.
  induction 1 as [| x l Hs IH Hall]; intros Hfresh; cbn.
  - constructor; constructor.
  - destruct (ltb (fst x) (fst e)) eqn:E.
    + constructor.
      * apply IH. intros y Hy. apply Hfresh. right. exact Hy.
      * apply Forall_forall. intros y Hy.
        rewrite insert_by_name_perm in Hy.
        apply elem_of_cons in Hy as [-> | Hy]; [exact E |].
        rewrite Forall_forall in Hall. apply Hall, Hy.
    + assert (Hlt : ltb (fst e) (fst x) = true).
      { destruct (ltb (fst e) (fst x)) eqn:E'; [reflexivity |].
        exfalso. apply (Hfresh x); [left |].
        apply ltb_total; assumption. }
      constructor; [constructor; assumption |].
      constructor; [exact Hlt |].
      eapply Forall_impl; [exact Hall |].
      cbn. intros y Hy. eapply ltb_trans; eassumption.
Qed.

Lemma sort_by_name_sorted l :
  NoDup (map fst l) -> StronglySorted by_name (sort_by_name l).
Proof.
  induction l as [| x l IH]; cbn; intros Hnd; [constructor |].
  apply NoDup_cons in Hnd as [Hx Hnd].
  apply insert_by_name_sorted; [apply IH, Hnd |].
  intros y Hy Heq. apply Hx.
  rewrite sort_by_name_perm in Hy.
  rewrite <- Heq. apply list_elem_of_fmap. exists y. split; [reflexivity | exact Hy].
Qed.

Lemma NoDup_fst_filter (f : jsstring * Stored -> bool) l :
  NoDup (map fst l) -> NoDup (map fst (List.filter f l)).
Proof.
  induction l as [| x l IH]; cbn; intros Hnd; [constructor |].
  apply NoDup_cons in Hnd as [Hx Hnd].
  destruct (f x); cbn; [| apply IH, Hnd].
  apply NoDup_cons. split; [| apply IH, Hnd].
  intros Hin. apply Hx.
  apply list_elem_of_fmap in Hin as (y & Hy1 & Hy2).
  apply list_elem_of_fmap. exists y. split; [exact Hy1 |].
  apply list_elem_of_In in Hy2. apply filter_In in Hy2 as [Hy2 _].
  apply list_elem_of_In, Hy2.
Qed.

Lemma matching_sorted pre m : StronglySorted by_name (matching pre m).
Proof.
  unfold matching. apply sort_by_name_sorted, NoDup_fst_filter.
  apply NoDup_fst_map_to_list.
Qed.

(** The enumeration holds each stored key that starts with the prefix,
    once, in ascending order. *)
Lemma matching_keys (pre : jsstring) (m : gmap jsstring Stored) :
  ascending (map fst (matching pre m))
  /\ forall k s, (k, s) ∈ matching pre m
                 <-> m !! k = Some s /\ startsWith pre k = true.
Proof.
  split; [apply by_name_keys, matching_sorted |].
  intros k s. unfold matching. rewrite sort_by_name_perm.
  rewrite list_elem_of_In, filter_In, <- list_elem_of_In.
  rewrite elem_of_map_to_list. cbn. reflexivity.
Qed.

Lemma filter_all {A} (f : A -> bool) l :
  Forall (fun x => f x = true) l -> List.filter f l = l.
Proof.
  induction 1 as [| x l Hx _ IH]; cbn; [reflexivity |].
  rewrite Hx, IH. reflexivity.
Qed.

(** Resuming after the key before position [p] skips the first [p]
    entries. *)
Lemma after_cursor_drop l p :
  StronglySorted by_name l ->
  (p <= List.length l)%nat ->
  after_cursor (cursor_at l p) l = drop p l.
Proof.
  intros Hs. revert p.
  induction Hs as [| x l Hs IH Hall]; intros p Hp.
  - destruct p as [| [| p]]; reflexivity.
  - destruct p as [| [| p]]; [reflexivity | |].
    + cbn. rewrite ltb_irrefl. apply filter_all. exact Hall.
    + cbn in Hp.
      assert (Hq : (S p <= List.length l)%nat) by lia.
      specialize (IH (S p) Hq).
      destruct (l !! p) as [y |] eqn:Ey.
      2:{ apply lookup_ge_None in Ey. lia. }
      unfold cursor_at in *. rewrite lookup_cons_ne_0 by lia.
      replace (Nat.pred (S p)) with p by lia.
      rewrite Ey in *. cbn [fmap option_fmap option_map after_cursor] in *.
      cbn [List.filter drop].
      rewrite Forall_forall in Hall.
      rewrite (ltb_asym (fst x) (fst y)); [exact IH |].
      apply Hall. eapply list_elem_of_lookup_2. exact Ey.
Qed.

(** *** [list] without a delimiter *)

Lemma filter_delimited_no_delimiter pre dps ms :
  R2Bucket.filter_delimited pre None dps ms = (ms, dps).
Proof.
  induction ms as [| m ms IH]; cbn; [reflexivity |].
  rewrite IH. reflexivity.
Qed.

Lemma omap_listed (page : list (jsstring * Stored)) :
  omap snd (map (fun e => (fst e, metadata (snd e))) page)
  = omap (fun e => metadata (snd e)) page.
Proof.
  induction page as [| e page IH]; cbn; [reflexivity |].
  rewrite IH. reflexivity.
Qed.

Lemma object_keys_objects_of w pre l :
  written_by_put w ->
  (forall e, e ∈ l -> e ∈ matching pre (entries w)) ->
  object_keys (objects_of l) = map fst l.
Proof.
  intros Hall. unfold objects_of, object_keys.
  induction l as [| [k s] l IH]; intros Hin; cbn; [reflexivity |].
  destruct (Hall k s) as (m & Hm & Hkey).
  { apply (matching_keys pre (entries w)). apply Hin. left. }
  rewrite Hm. cbn. rewrite Hkey. f_equal.
  apply IH. intros e He. apply Hin. right. exact He.
Qed.

Lemma objects_of_length w pre l :
  written_by_put w ->
  (forall e, e ∈ l -> e ∈ matching pre (entries w)) ->
  List.length (objects_of l) = List.length l.
Proof.
  intros Hall Hin.
  pose proof (object_keys_objects_of w pre l Hall Hin) as H.
  apply (f_equal (@List.length jsstring)) in H.
  unfold object_keys in H. rewrite !length_map in H. exact H.
Qed.

(** The loop is left at once when the page is full. *)
Lemma list_loop_full turns pre lim inc del objs dps cur :
  lim <= Z.of_nat (List.length objs) + Z.of_nat (List.length dps) ->
  R2Bucket.list_loop turns pre lim inc del objs dps cur
  = mret (objs, dps, cur).
Proof.
  intros H.
  destruct turns; cbn [R2Bucket.list_loop];
    (replace (Z.of_nat (List.length objs) + Z.of_nat (List.length dps) <? lim)
       with false by (symmetry; apply Z.ltb_ge; lia));
    reflexivity.
Qed.

(** One query of the storage from position [p] of the enumeration, for [n]
    keys that are there. *)
Lemma storage_list_page w pre n p :
  let L := matching pre (entries w) in
  (1 <= n)%nat -> (p + n <= List.length L)%nat ->
  storage_list pre (Z.of_nat n) (cursor_at L p) w
  = (Ok (map (fun e => (fst e, metadata (snd e))) (take n (drop p L)),
         if bool_decide (p + n < List.length L)%nat
         then cursor_at L (p + n) else None),
     called (CallList pre (Z.of_nat n) (cursor_at L p)) w).
Proof.
  intros L Hn Hp. unfold storage_list. fold L.
  rewrite (after_cursor_drop L p (matching_sorted pre (entries w))) by lia.
  rewrite Nat2Z.id. f_equal. f_equal. f_equal.
  rewrite length_take, length_drop.
  replace (n `min` (List.length L - p))%nat with n by lia.
  case_bool_decide as Hlt.
  - replace (n <? List.length L - p)%nat with true
      by (symmetry; apply Nat.ltb_lt; lia).
    rewrite last_lookup, length_take, length_drop.
    replace (Nat.pred (n `min` (List.length L - p)))%nat with (n - 1)%nat by lia.
    rewrite lookup_take_lt by lia. rewrite lookup_drop.
    unfold cursor_at. replace (p + n)%nat with (S (p + (n - 1))) by lia.
    reflexivity.
  - replace (n <? List.length L - p)%nat with false
      by (symmetry; apply Nat.ltb_ge; lia).
    reflexivity.
Qed.

(** A listing of [n] keys from position [p], when the enumeration has that
    many from there: one query fills the page. *)
Lemma list_page w pre n p :
  let L := matching pre (entries w) in
  written_by_put w ->
  (1 <= n <= 1000)%nat -> (p + n <= List.length L)%nat ->
  R2Bucket.list (Some (list_options pre n (cursor_at L p))) w
  = (Ok {| objects := objects_of (take n (drop p L));
           truncated := bool_decide (p + n < List.length L)%nat;
           cursor := if bool_decide (p + n < List.length L)%nat
                     then cursor_at L (p + n) else None;
           delimitedPrefixes := [] |},
     called (CallList pre (Z.of_nat n) (cursor_at L p)) w).
Proof.
  intros L Hall Hn Hp.
  assert (Hlen : List.length (objects_of (take n (drop p L))) = n).
  { rewrite (objects_of_length w pre).
    - rewrite length_take, length_drop. lia.
    - exact Hall.
    - intros e He. apply elem_of_take in He as (i & He & _).
      rewrite lookup_drop in He.
      eapply list_elem_of_lookup_2. exact He. }
  unfold R2Bucket.list, list_options.
  cbn [default from_option id l_limit l_prefix l_cursor l_include l_delimiter
       List.length].
  unfold id.
  replace ((Z.of_nat n <? 1) || (MAX_LIST_KEYS <? Z.of_nat n)) with false.
  2:{ symmetry. apply orb_false_iff. unfold MAX_LIST_KEYS.
      split; [apply Z.ltb_ge | apply Z.ltb_ge]; lia. }
  cbn [Nat.ltb Nat.leb].
  rewrite Nat2Z.id.
  destruct n as [| n']; [lia |].
  unfold mbind at 1. unfold M_bind, bind, lift.
  unfold mbind at 1. unfold M_bind, bind.
  cbn [R2Bucket.list_loop List.length].
  replace (Z.of_nat 0 + Z.of_nat 0 <? Z.of_nat (S n')) with true
    by (symmetry; apply Z.ltb_lt; lia).
  unfold R2Bucket.list_private.
  unfold mbind at 1. unfold M_bind, bind.
  unfold mbind at 1. unfold M_bind, bind.
  replace (Z.of_nat (S n') - Z.of_nat 0) with (Z.of_nat (S n')) by lia.
  pose proof (storage_list_page w pre (S n') p) as Hpage.
  cbn zeta in Hpage. fold L in Hpage.
  rewrite Hpage by lia. clear Hpage.
  cbn [fst snd].
  rewrite omap_listed, filter_delimited_no_delimiter.
  cbn [mret M_ret ret].
  change (map (R2Bucket.listed_object [])
              (omap (fun e => metadata (snd e)) (take (S n') (drop p L))))
    with (objects_of (take (S n') (drop p L))).
  rewrite Hlen. cbn [Nat.eqb app].
  rewrite list_loop_full by (rewrite Hlen; cbn [List.length]; lia).
  assert (Htr : bool_decide
                  (is_Some (if bool_decide (p + S n' < List.length L)%nat
                            then cursor_at L (p + S n') else None))
                = bool_decide (p + S n' < List.length L)%nat).
  { destruct (bool_decide (p + S n' < List.length L)%nat) eqn:Hb.
    - apply bool_decide_eq_true_1 in Hb.
      apply bool_decide_eq_true_2.
      unfold cursor_at. replace (p + S n')%nat with (S (p + n')) by lia.
      destruct (L !! (p + n')%nat) eqn:E; [eexists; reflexivity |].
      apply lookup_ge_None in E. lia.
    - apply bool_decide_eq_false_2. intros [x Hx]. discriminate. }
  unfold mret, M_ret, ret. rewrite Htr. reflexivity.
Qed.

Lemma page_in_matching (L : list (jsstring * Stored)) n p e :
  e ∈ take n (drop p L) -> e ∈ L.
Proof.
  intros He. apply elem_of_take in He as (i & He & _).
  rewrite lookup_drop in He. eapply list_elem_of_lookup_2. exact He.
Qed.

Lemma object_keys_app l1 l2 :
  object_keys (l1 ++ l2) = object_keys l1 ++ object_keys l2.
Proof. unfold object_keys. apply map_app. Qed.

(** In every result of [list], [truncated] is true iff a cursor is
    present. *)
Lemma truncated_iff_cursor o w r w' :
  R2Bucket.list o w = (Ok r, w') ->
  truncated r = true <-> is_Some (cursor r).
Proof.
  unfold R2Bucket.list. cbn zeta.
  unfold mbind at 1. unfold M_bind, bind, lift.
  destruct (match default (Num MAX_LIST_KEYS) (l_limit (default noListOptions o))
            with
            | Num z => _
            | NaN => _
            end) as [[] | e]; [| discriminate].
  unfold mbind at 1. unfold M_bind, bind.
  match goal with
  | |- context [let (_, _) := ?loop w in _] =>
      destruct (loop w) as [[[[objs dps] cur] | e] w1]
  end; [| discriminate].
  cbn. intros [= <- <-]. cbn.
  rewrite bool_decide_eq_true. reflexivity.
Qed.

Lemma put_written P fresh k v o w :
  written_by_put w -> written_by_put (snd (R2Bucket.put P fresh k v o w)).
Proof.
  intros Hw k' s.
  destruct (put_entries P fresh k v o w) as [H | (bytes & _ & _ & _ & H)];
    cbn zeta in H; rewrite H; [apply Hw |].
  destruct (decide (k = k')) as [<- | Hne].
  - rewrite lookup_insert_eq. intros [= <-]. eexists. split; reflexivity.
  - rewrite lookup_insert_ne by exact Hne. apply Hw.
Qed.

Lemma empty_world_written : written_by_put empty_world.
Proof. intros k s H. cbn in H. rewrite lookup_empty in H. discriminate. Qed.

(** One query of the storage from position [p] of the enumeration, for
    more keys than are there: the page holds what remains, and the storage
    reports the end by an absent cursor. *)
Lemma storage_list_short_page w pre n p :
  let L := matching pre (entries w) in
  (p <= List.length L)%nat -> (List.length L <= p + n)%nat ->
  storage_list pre (Z.of_nat n) (cursor_at L p) w
  = (Ok (map (fun e => (fst e, metadata (snd e))) (drop p L), None),
     called (CallList pre (Z.of_nat n) (cursor_at L p)) w).
Proof.
  intros L Hp Hn. unfold storage_list. fold L.
  rewrite (after_cursor_drop L p (matching_sorted pre (entries w))) by lia.
  rewrite Nat2Z.id.
  rewrite take_ge by (rewrite length_drop; lia).
  rewrite Nat.ltb_irrefl. reflexivity.
Qed.

Lemma objects_of_app l1 l2 : objects_of (l1 ++ l2) = objects_of l1 ++ objects_of l2.
Proof. unfold objects_of. rewrite omap_app, map_app. reflexivity. Qed.

(** One turn of the loop of [list] that is entered. *)
Lemma list_loop_step t pre lim inc del objs dps cur w :
  Z.of_nat (List.length objs) + Z.of_nat (List.length dps) < lim ->
  R2Bucket.list_loop (S t) pre lim inc del objs dps cur w
  = match R2Bucket.list_private pre (lim - Z.of_nat (List.length objs)) inc
            dps del cur w with
    | (Ok (newObjects, newCursor, dps'), w1) =>
        if (List.length newObjects =? 0)%nat
        then (Ok (objs, dps', newCursor), w1)
        else R2Bucket.list_loop t pre lim inc del (objs ++ newObjects) dps'
               newCursor w1
    | (Throw e, w1) => (Throw e, w1)
    end.
Proof.
  intros Hlt. cbn [R2Bucket.list_loop].
  replace (Z.of_nat (List.length objs) + Z.of_nat (List.length dps) <? lim)
    with true by (symmetry; apply Z.ltb_lt; exact Hlt).
  unfold mbind, M_bind, bind.
  destruct (R2Bucket.list_private _ _ _ _ _ _ w)
    as [[[[newObjects newCursor] dps'] | e] w1]; [| reflexivity].
  destruct (List.length newObjects =? 0)%nat; reflexivity.
Qed.

(** One query of [#list] without delimiter and without [include]. *)
Lemma list_private_plain pre lim dps cur w page next w1 :
  storage_list pre lim cur w
  = (Ok (map (fun e => (fst e, metadata (snd e))) page, next), w1) ->
  R2Bucket.list_private pre lim [] dps None cur w
  = (Ok (objects_of page, next, dps), w1).
Proof.
  intros H. unfold R2Bucket.list_private, mbind, M_bind, bind.
  rewrite H. cbn [fst snd].
  rewrite omap_listed, filter_delimited_no_delimiter. reflexivity.
Qed.

(** [list] with a limit in range, without delimiter and without
    [include], is its loop. *)
Lemma list_plain pre n cur w :
  (1 <= n <= 1000)%nat ->
  R2Bucket.list (Some (list_options pre n cur)) w
  = match R2Bucket.list_loop n pre (Z.of_nat n) [] None [] [] cur w with
    | (Ok (objs, dps, c), w1) =>
        (Ok {| objects := objs; truncated := bool_decide (is_Some c);
               cursor := c; delimitedPrefixes := dps |}, w1)
    | (Throw e, w1) => (Throw e, w1)
    end.
Proof.
  intros Hn. unfold R2Bucket.list, list_options.
  cbn [default from_option id l_limit l_prefix l_cursor l_include l_delimiter
       List.length].
  unfold id.
  replace ((Z.of_nat n <? 1) || (MAX_LIST_KEYS <? Z.of_nat n)) with false.
  2:{ symmetry. apply orb_false_iff. unfold MAX_LIST_KEYS.
      split; [apply Z.ltb_ge | apply Z.ltb_ge]; lia. }
  cbn [Nat.ltb Nat.leb].
  rewrite Nat2Z.id.
  unfold mbind, M_bind, bind, lift.
  destruct (R2Bucket.list_loop _ _ _ _ _ _ _ _ w)
    as [[[[objs dps] c] | e] w1]; reflexivity.
Qed.

(** A listing of [n] keys from position [p], when fewer than [n] keys
    remain there: the loop of [list] takes what remains, asks again with
    the absent cursor the storage gave it, and fills the page from the
    start of the enumeration. *)
Lemma list_short_page w pre n p :
  let L := matching pre (entries w) in
  let r := (List.length L - p)%nat in
  written_by_put w ->
  (1 <= n <= 1000)%nat ->
  (p < List.length L)%nat ->
  (List.length L < p + n)%nat ->
  (n - r < List.length L)%nat ->
  fst (R2Bucket.list (Some (list_options pre n (cursor_at L p))) w)
  = Ok {| objects := objects_of (drop p L ++ take (n - r) L);
          truncated := true;
          cursor := cursor_at L (n - r);
          delimitedPrefixes := [] |}.
Proof.
  intros L r Hall Hn Hp Hshort Hwrap.
  assert (Hin : forall a b e, e ∈ take a (drop b L) -> e ∈ L).
  { intros a b e He. exact (page_in_matching L a b e He). }
  assert (Hlen1 : List.length (objects_of (drop p L)) = r).
  { rewrite (objects_of_length w pre _ Hall).
    - rewrite length_drop. reflexivity.
    - intros e He. apply (Hin (List.length L) p).
      rewrite take_ge by (rewrite length_drop; lia). exact He. }
  assert (Hlen2 : List.length (objects_of (take (n - r) L)) = (n - r)%nat).
  { rewrite (objects_of_length w pre _ Hall).
    - rewrite length_take. lia.
    - intros e He. apply (Hin (n - r)%nat 0%nat). rewrite drop_0. exact He. }
  rewrite (list_plain pre n _ w Hn).
  destruct n as [| [| n'']]; [lia | lia |].
  set (n := S (S n'')) in *.
  change (R2Bucket.list_loop n) with (R2Bucket.list_loop (S (S n''))).
  rewrite list_loop_step by (cbn [List.length]; lia).
  cbn [List.length]. replace (Z.of_nat n - Z.of_nat 0) with (Z.of_nat n) by lia.
  pose proof (storage_list_short_page w pre n p) as Hpage.
  cbn zeta in Hpage. fold L in Hpage.
  rewrite (list_private_plain _ _ _ _ _ _ _ _ (Hpage ltac:(lia) ltac:(lia))).
  clear Hpage. rewrite Hlen1.
  replace (r =? 0)%nat with false by (symmetry; apply Nat.eqb_neq; lia).
  cbn [app].
  set (w1 := called _ w).
  rewrite list_loop_step by (rewrite Hlen1; cbn [List.length]; lia).
  rewrite Hlen1.
  replace (Z.of_nat n - Z.of_nat r) with (Z.of_nat (n - r)) by lia.
  pose proof (storage_list_page w1 pre (n - r) 0) as Hpage.
  cbn zeta in Hpage.
  change (entries w1) with (entries w) in Hpage. fold L in Hpage.
  cbn [cursor_at Nat.add] in Hpage. rewrite drop_0 in Hpage.
  rewrite (list_private_plain _ _ _ _ _ _ _ _ (Hpage ltac:(lia) ltac:(lia))).
  clear Hpage. rewrite Hlen2.
  replace (n - r =? 0)%nat with false by (symmetry; apply Nat.eqb_neq; lia).
  rewrite list_loop_full
    by (rewrite length_app, Hlen1, Hlen2; cbn [List.length]; lia).
  rewrite (bool_decide_eq_true_2 (n - r < List.length L)%nat) by lia.
  unfold mret, M_ret, ret. cbn [fst].
  assert (Hc : is_Some (cursor_at L (n - r))).
  { unfold cursor_at. destruct (n - r)%nat as [| q] eqn:Eq; [lia |].
    destruct (L !! q) eqn:E; [eexists; reflexivity |].
    apply lookup_ge_None in E. lia. }
  rewrite (bool_decide_eq_true_2 _ Hc).
  rewrite objects_of_app. reflexivity.
Qed.

(** C6. The code does not return what the claim expects when the last page
    is short. Let a bucket written by [put] hold [M] keys that start with
    the prefix, and take a limit [N] with [N < M < 2 N], without
    delimiter. The first call returns the [N] least keys, [truncated] and
    a cursor. Resuming with that cursor does not yield the remaining
    [M - N] keys with [truncated] false: the storage reports the end of
    the enumeration by an absent cursor, the loop of [list] calls [#list]
    again with it, and the result holds [N] objects, the remaining keys
    followed by the [2 N - M] least keys once more, with [truncated] true
    and a cursor. The two pages together hold a key twice. *)
Theorem list_pagination_restarts w pre n :
  let L := matching pre (entries w) in
  let keys := map fst L in
  written_by_put w ->
  (1 <= n <= 1000)%nat ->
  (n < List.length keys)%nat ->
  (List.length keys < 2 * n)%nat ->
  exists c first second,
    fst (R2Bucket.list (Some (list_options pre n None)) w) = Ok first
    /\ object_keys (objects first) = take n keys
    /\ truncated first = true
    /\ cursor first = Some c
    /\ fst (R2Bucket.list (Some (list_options pre n (Some c))) w) = Ok second
    /\ object_keys (objects second)
       = drop n keys ++ take (2 * n - List.length keys) keys
    /\ List.length (objects second) = n
    /\ truncated second = true
    /\ is_Some (cursor second)
    /\ ~ NoDup (object_keys (objects first ++ objects second)).
Proof.
  intros L keys Hw Hn Hlt Hshort.
  assert (HlenL : List.length keys = List.length L) by apply length_map.
  rewrite HlenL in *.
  destruct (L !! (n - 1)%nat) as [[c s] |] eqn:Ec.
  2:{ apply lookup_ge_None in Ec. lia. }
  assert (Hc : cursor_at L n = Some c).
  { unfold cursor_at. destruct n as [| n']; [lia |].
    replace (S n' - 1)%nat with n' in Ec by lia. rewrite Ec. reflexivity. }
  pose proof (list_page w pre n 0 Hw Hn) as H1. cbn zeta in H1. fold L in H1.
  specialize (H1 ltac:(lia)).
  cbn [cursor_at Nat.add] in H1. rewrite drop_0 in H1.
  rewrite (bool_decide_eq_true_2 _ Hlt), Hc in H1.
  pose proof (list_short_page w pre n n Hw Hn) as H2.
  cbn zeta in H2. fold L in H2.
  specialize (H2 ltac:(lia) ltac:(lia) ltac:(lia)). rewrite Hc in H2.
  replace (n - (List.length L - n))%nat with (2 * n - List.length L)%nat
    in H2 by lia.
  assert (Hk1 : object_keys (objects_of (take n L)) = take n keys).
  { rewrite (object_keys_objects_of w pre _ Hw).
    - subst keys. rewrite <- fmap_take. reflexivity.
    - intros e He. apply (page_in_matching L n 0). exact He. }
  assert (Hk2 : object_keys
                  (objects_of (drop n L ++ take (2 * n - List.length L) L))
                = drop n keys ++ take (2 * n - List.length L) keys).
  { rewrite (object_keys_objects_of w pre _ Hw).
    - subst keys. rewrite map_app.
      change (map fst) with (fmap (M := list) (@fst jsstring Stored)).
      rewrite <- fmap_drop, <- fmap_take. reflexivity.
    - intros e He. apply elem_of_app in He as [He | He].
      + apply (page_in_matching L (List.length L) n).
        rewrite take_ge by (rewrite length_drop; lia). exact He.
      + apply (page_in_matching L (2 * n - List.length L) 0).
        rewrite drop_0. exact He. }
  exists c. eexists. eexists. rewrite H1, H2. cbn [fst].
  split; [reflexivity |]. cbn [objects truncated cursor].
  split; [exact Hk1 |]. split; [reflexivity |]. split; [reflexivity |].
  split; [reflexivity |]. cbn [objects truncated cursor].
  split; [exact Hk2 |].
  split.
  { apply (f_equal (@List.length jsstring)) in Hk2.
    unfold object_keys in Hk2 at 1. rewrite length_map in Hk2.
    rewrite Hk2, length_app, length_drop, length_take. subst keys.
    rewrite length_map. lia. }
  split; [reflexivity |].
  split.
  { unfold cursor_at.
    destruct (2 * n - List.length L)%nat as [| q] eqn:Eq; [lia |].
    destruct (L !! q) eqn:E; [eexists; reflexivity |].
    apply lookup_ge_None in E. lia. }
  rewrite object_keys_app, Hk1, Hk2. intros Hnd.
  destruct (keys !! 0%nat) as [k0 |] eqn:E0.
  2:{ apply lookup_ge_None in E0. rewrite HlenL in E0. lia. }
  apply NoDup_app in Hnd as (_ & Hdis & _).
  apply (Hdis k0).
  - apply elem_of_take. exists 0%nat. split; [exact E0 | lia].
  - apply elem_of_app. right.
    apply elem_of_take. exists 0%nat. split; [exact E0 | lia].
Qed.

Lemma list_pagination_restarts_witness :
  let L := matching (js "") (entries abc_keys) in
  let keys := map fst L in
  written_by_put abc_keys
  /\ keys = [js "a"; js "b"; js "c"]
  /\ (1 <= 2 <= 1000)%nat
  /\ (2 < List.length keys)%nat
  /\ (List.length keys < 2 * 2)%nat
  /\ exists c first second,
       fst (R2Bucket.list (Some (list_options (js "") 2 None)) abc_keys)
       = Ok first
       /\ object_keys (objects first) = take 2 keys
       /\ truncated first = true
       /\ cursor first = Some c
       /\ fst (R2Bucket.list (Some (list_options (js "") 2 (Some c))) abc_keys)
          = Ok second
       /\ object_keys (objects second)
          = drop 2 keys ++ take (2 * 2 - List.length keys) keys
       /\ List.length (objects second) = 2%nat
       /\ truncated second = true
       /\ is_Some (cursor second)
       /\ ~ NoDup (object_keys (objects first ++ objects second)).
Proof.
  cbn zeta.
  assert (Hw : written_by_put abc_keys).
  { unfold abc_keys, after_put. do 3 apply put_written.
    apply empty_world_written. }
  assert (Hk : map fst (matching (js "") (entries abc_keys))
               = [js "a"; js "b"; js "c"]) by (vm_compute; reflexivity).
  assert (Hn : (1 <= 2 <= 1000)%nat) by lia.
  assert (Hlt : (2 < List.length
                       (map fst (matching (js "") (entries abc_keys))))%nat)
    by (rewrite Hk; cbn; lia).
  assert (Hsh : (List.length (map fst (matching (js "") (entries abc_keys)))
                 < 2 * 2)%nat)
    by (rewrite Hk; cbn; lia).
  split; [exact Hw |]. split; [exact Hk |]. split; [exact Hn |].
  split; [exact Hlt |]. split; [exact Hsh |].
  exact (list_pagination_restarts abc_keys (js "") 2 Hw Hn Hlt Hsh).
Defined.

(** A bucket that holds fewer keys than the limit from the cursor on: the
    storage reports the end by an absent cursor, the loop of [list] asks
    again with that absent cursor, and the enumeration starts over. With
    the keys ["a"], ["b"], ["c"] and limit 2, resuming after ["b"] returns
    ["c"] and then ["a"] again, with [truncated] and a cursor. *)
Lemma list_short_page_starts_over :
  exists r,
    fst (R2Bucket.list (Some (list_options (js "") 2 (Some (js "b"))))
           abc_keys) = Ok r
    /\ object_keys (objects r) = [js "c"; js "a"]
    /\ truncated r = true
    /\ cursor r = Some (js "a").
Proof.
  eexists. split; [vm_compute; reflexivity |]. repeat split.
Qed.

(** *** [list] with a delimiter *)

Lemma filter_delimited_with_delimiter pre d dps ms :
  fst (R2Bucket.filter_delimited pre (Some d) dps ms) = [].
Proof.
  revert dps. induction ms as [| m ms IH]; intros dps; [reflexivity |].
  cbn [R2Bucket.filter_delimited R2Bucket.delimiter_callback].
  destruct (includes d _).
  - specialize (IH (R2Bucket.set_add
                      (pre ++ split_head d (slice (List.length pre) (key m)) ++ d)
                      dps)).
    destruct (R2Bucket.filter_delimited pre (Some d) _ ms) as [kept dps'].
    exact IH.
  - specialize (IH dps).
    destruct (R2Bucket.filter_delimited pre (Some d) dps ms) as [kept dps'].
    exact IH.
Qed.

Lemma bind_inv {A B} (m : M A) (f : A -> M B) w r w' :
  (m ≫= f) w = (Ok r, w') ->
  exists a w1, m w = (Ok a, w1) /\ f a w1 = (Ok r, w').
Proof.
  unfold mbind, M_bind, bind.
  destruct (m w) as [[a | e] w1]; [eauto | discriminate].
Qed.

Lemma list_loop_with_delimiter turns pre lim inc d dps cur w objs dps' cur' w' :
  R2Bucket.list_loop turns pre lim inc (Some d) [] dps cur w
  = (Ok (objs, dps', cur'), w') ->
  objs = [].
Proof.
  destruct turns as [| turns]; cbn [R2Bucket.list_loop];
    destruct (_ <? lim); try (intros [= <- _ _ _]; reflexivity).
  intros H. apply bind_inv in H as ([[newObjects newCursor] dps1] & w1 & Hp & H).
  unfold R2Bucket.list_private in Hp.
  apply bind_inv in Hp as (res & w2 & _ & Hp).
  pose proof (filter_delimited_with_delimiter pre d dps (omap snd (fst res)))
    as Hf.
  destruct (R2Bucket.filter_delimited pre (Some d) dps (omap snd (fst res)))
    as [kept dps2].
  cbn in Hf. subst kept. cbn in Hp. injection Hp as <- _ _ _.
  cbn in H. injection H as <- _ _ _. reflexivity.
Qed.

(** With a delimiter, no listing returns an object: the callback of the
    filter never returns [true]. *)
Lemma delimited_listing_has_no_objects opts d w r :
  l_delimiter opts = Some d ->
  fst (R2Bucket.list (Some opts) w) = Ok r ->
  objects r = [].
Proof.
  intros Hd H.
  destruct (R2Bucket.list (Some opts) w) as [res w'] eqn:E.
  cbn in H. subst res.
  unfold R2Bucket.list in E. cbn zeta in E.
  cbn [default from_option] in E. unfold id in E. rewrite Hd in E.
  apply bind_inv in E as (? & w1 & _ & E).
  apply bind_inv in E as ([[objs dps] cur] & w2 & Eloop & E).
  cbn in E. injection E as <- _. cbn [objects].
  match type of Eloop with
  | (match ?x with NaN => _ | Num _ => _ end) _ = _ => destruct x as [| z]
  end.
  - cbn in Eloop. injection Eloop as <- _ _ _. reflexivity.
  - eapply list_loop_with_delimiter. exact Eloop.
Qed.

(** C2. The code does not return the object the claim expects: the bucket
    holds exactly the keys ["a/b"], ["a/c"] and ["d"]; listed with the
    delimiter ["/"] and no prefix, the delimited prefixes are exactly
    ["a/"], and the objects are none: the key ["d"] is missing. For the
    metadata of ["d"] the callback of the filter ends without reaching a
    [return], and [filter] drops the element. *)
Theorem delimiter_grouping_drops_plain_key :
  map fst (matching (js "") (entries three_keys))
  = [js "a/b"; js "a/c"; js "d"]
  /\ fst (R2Bucket.list (Some (list_delimited (js "/"))) three_keys)
     = Ok {| objects := [];
             truncated := false;
             cursor := None;
             delimitedPrefixes := [js "a/"] |}
  /\ (forall dps,
        R2Bucket.delimiter_callback (js "") (Some (js "/")) dps metadata_d
        = (None, dps))
  /\ R2Bucket.keeps None = false.
Proof.
  split; [vm_compute; reflexivity |].
  split; [vm_compute; reflexivity |].
  split; [intros dps; reflexivity | reflexivity].
Qed.

(** *** The turns of the loop of [list] *)

Lemma set_add_length x set :
  (List.length set <= List.length (R2Bucket.set_add x set))%nat.
Proof.
  unfold R2Bucket.set_add. case_bool_decide; [lia |].
  rewrite length_app. cbn. lia.
Qed.

Lemma filter_delimited_prefixes pre del dps ms :
  (List.length dps
   <= List.length (snd (R2Bucket.filter_delimited pre del dps ms)))%nat.
Proof.
  revert dps. induction ms as [| m ms IH]; intros dps; cbn; [lia |].
  unfold R2Bucket.delimiter_callback.
  destruct del as [d |].
  - destruct (includes d _).
    + specialize (IH (R2Bucket.set_add
                        (pre ++ split_head d (slice (List.length pre) (key m)) ++ d)
                        dps)).
      pose proof (set_add_length
                    (pre ++ split_head d (slice (List.length pre) (key m)) ++ d)
                    dps).
      destruct (R2Bucket.filter_delimited pre (Some d) _ ms). cbn in *. lia.
    + specialize (IH dps).
      destruct (R2Bucket.filter_delimited pre (Some d) dps ms). cbn in *. lia.
  - specialize (IH dps).
    destruct (R2Bucket.filter_delimited pre None dps ms). cbn in *. lia.
Qed.

(** The result of the loop is the same for any two numbers of turns that
    are at least the room left in the page: the loop of [list], which is
    given [limit] turns, ends by its own conditions and not for want of
    turns. *)
Lemma list_loop_enough_turns t1 t2 pre lim inc del objs dps cur w :
  (Z.to_nat (lim - (Z.of_nat (List.length objs) + Z.of_nat (List.length dps)))
   <= t1)%nat ->
  (Z.to_nat (lim - (Z.of_nat (List.length objs) + Z.of_nat (List.length dps)))
   <= t2)%nat ->
  R2Bucket.list_loop t1 pre lim inc del objs dps cur w
  = R2Bucket.list_loop t2 pre lim inc del objs dps cur w.
Proof.
  revert t2 objs dps cur w.
  induction t1 as [| t1 IH]; intros t2 objs dps cur w H1 H2.
  - rewrite !list_loop_full by lia. reflexivity.
  - destruct (Z.of_nat (List.length objs) + Z.of_nat (List.length dps) <? lim)
      eqn:E.
    2:{ apply Z.ltb_ge in E. rewrite !list_loop_full by lia. reflexivity. }
    apply Z.ltb_lt in E.
    destruct t2 as [| t2]; [lia |].
    cbn [R2Bucket.list_loop].
    replace (Z.of_nat (List.length objs) + Z.of_nat (List.length dps) <? lim)
      with true by (symmetry; apply Z.ltb_lt; lia).
    unfold mbind, M_bind, bind.
    destruct (R2Bucket.list_private pre (lim - Z.of_nat (List.length objs)) inc
                dps del cur w) as [[[[newObjects newCursor] dps'] | e] w1] eqn:Ep;
      [| reflexivity].
    destruct (List.length newObjects =? 0)%nat eqn:En; [reflexivity |].
    apply Nat.eqb_neq in En.
    assert (Hd : (List.length dps <= List.length dps')%nat).
    { unfold R2Bucket.list_private in Ep.
      apply bind_inv in Ep as (res & w2 & _ & Ep).
      pose proof (filter_delimited_prefixes pre del dps (omap snd (fst res)))
        as Hf.
      destruct (R2Bucket.filter_delimited pre del dps (omap snd (fst res))).
      cbn in Ep. injection Ep as _ _ <- _. exact Hf. }
    apply IH; rewrite length_app; lia.
Qed.

(** The turns that [list] gives its loop are enough: more turns give the
    same result. *)
Lemma list_turns_suffice extra pre z inc del cur w :
  R2Bucket.list_loop (Z.to_nat z + extra) pre z inc del [] [] cur w
  = R2Bucket.list_loop (Z.to_nat z) pre z inc del [] [] cur w.
Proof.
  apply list_loop_enough_turns; cbn [List.length]; lia.
Qed.

End BucketProps.

(** * Properties of the file-system storage *)

Module FileProps.
Import JS FS FileTerms.

(** *** Monadic steps *)

Lemma fs_bind_inv {A B} (m : M A) (f : A -> M B) fs r fs' :
  (m ≫= f) fs = (Ok r, fs') ->
  exists a fs1, m fs = (Ok a, fs1) /\ f a fs1 = (Ok r, fs').
Proof.
  unfold mbind, M_bind.
  destruct (m fs) as [[a | e] fs1]; [eauto | discriminate].
Qed.

Lemma namespace_if_EEXIST_throws {A} key e fs (r : A) fs' :
  FileStorage.namespace_if_EEXIST key e fs <> (Ok r, fs').
Proof.
  unfold FileStorage.namespace_if_EEXIST, throw.
  destruct (negb _); discriminate.
Qed.

(** A path is below a file when its directory is a file or a segment
    above its directory is one. *)
Lemma below_a_file_split fs p :
  below_a_file fs p = above_parent_is_a_file fs p || parent_is_a_file fs p.
Proof.
  unfold below_a_file, above_parent_is_a_file, parent_is_a_file.
  induction (ancestors p) as [| d l _] using rev_ind; [reflexivity |].
  rewrite removelast_last, last_snoc, existsb_app. cbn [existsb].
  rewrite orb_false_r. reflexivity.
Qed.

Lemma writeFile_ok p data fs fs' :
  writeFile p data fs = (Ok tt, fs') ->
  below_a_file fs p = false /\ fs' = <[p := data]> fs.
Proof.
  unfold writeFile. rewrite below_a_file_split.
  destruct (above_parent_is_a_file fs p); [discriminate |].
  destruct (parent_is_a_file fs p); [discriminate |].
  intros [= <-]. split; reflexivity.
Qed.

Lemma writeFile_clear p data fs :
  below_a_file fs p = false ->
  writeFile p data fs = (Ok tt, <[p := data]> fs).
Proof.
  rewrite below_a_file_split. intros H.
  apply orb_false_iff in H as [H1 H2].
  unfold writeFile. rewrite H1, H2. reflexivity.
Qed.

(** *** Paths and the directories above them *)

Lemma ancestors_from_shorter before s a :
  a ∈ ancestors_from before s ->
  (List.length a < List.length before + List.length s)%nat.
Proof.
  revert before. induction s as [| c s IH]; intros before; cbn.
  - intros H. apply elem_of_nil in H. contradiction.
  - destruct ((c =? 47) && negb (bool_decide (before = []))).
    + intros H. apply elem_of_cons in H as [-> | H].
      * rewrite length_rev. lia.
      * apply IH in H. cbn in H. lia.
    + intros H. apply IH in H. cbn in H. lia.
Qed.

Lemma ancestors_shorter p a :
  a ∈ ancestors p -> (List.length a < List.length p)%nat.
Proof. intros H. apply ancestors_from_shorter in H. cbn in H. lia. Qed.

Lemma ancestors_from_no_slash before t :
  Forall (fun c => c <> 47) t -> ancestors_from before t = [].
Proof.
  intros H. revert before.
  induction H as [| c t Hc _ IH]; intros before; cbn; [reflexivity |].
  replace (c =? 47) with false by (symmetry; apply Z.eqb_neq; exact Hc).
  cbn. apply IH.
Qed.

Lemma ancestors_from_app before s t :
  Forall (fun c => c <> 47) t ->
  ancestors_from before (s ++ t) = ancestors_from before s.
Proof.
  intros Ht. revert before.
  induction s as [| c s IH]; intros before; cbn.
  - apply ancestors_from_no_slash. exact Ht.
  - rewrite IH. reflexivity.
Qed.

Lemma ancestors_sidecar p : ancestors (p ++ metaSuffix) = ancestors p.
Proof.
  apply ancestors_from_app.
  vm_compute. repeat constructor; discriminate.
Qed.

Lemma below_a_file_insert fs p q data :
  (List.length p <= List.length q)%nat ->
  below_a_file (<[q := data]> fs) p = below_a_file fs p.
Proof.
  intros Hlen. unfold below_a_file.
  assert (H : forall a, a ∈ ancestors p -> a <> q).
  { intros a Ha ->. apply ancestors_shorter in Ha. lia. }
  induction (ancestors p) as [| a l IH]; cbn [existsb]; [reflexivity |].
  rewrite lookup_insert_ne by (apply not_eq_sym, H; left).
  rewrite IH; [reflexivity |]. intros b Hb. apply H. right. exact Hb.
Qed.

Lemma below_a_file_delete (fs : Files) p q :
  (List.length p <= List.length q)%nat ->
  below_a_file (delete q fs) p = below_a_file fs p.
Proof.
  intros Hlen. unfold below_a_file.
  assert (H : forall a, a ∈ ancestors p -> a <> q).
  { intros a Ha ->. apply ancestors_shorter in Ha. lia. }
  induction (ancestors p) as [| a l IH]; cbn [existsb]; [reflexivity |].
  rewrite lookup_delete_ne by (apply not_eq_sym, H; left).
  rewrite IH; [reflexivity |]. intros b Hb. apply H. right. exact Hb.
Qed.

Lemma below_a_file_sidecar fs p :
  below_a_file fs (p ++ metaSuffix) = below_a_file fs p.
Proof. unfold below_a_file. rewrite ancestors_sidecar. reflexivity. Qed.

Lemma sidecar_differs (p : jsstring) : p <> p ++ metaSuffix.
Proof.
  intros H. apply (f_equal (@List.length Z)) in H.
  rewrite length_app in H. vm_compute (List.length metaSuffix) in H. lia.
Qed.

(** *** Keys outside the root *)

(** A key for which [keyPath] finds no path is refused by [put] with the
    traversal error, and reads as not found; no file is created or
    touched. *)
Lemma no_path_rejected {Meta} (R : Runtime Meta) this key stored fs :
  FileStorage.no_path (fst (FileStorage.keyPath R this key)) = true ->
  FileStorage.put R this key stored fs
  = (Throw FileStorage.traversal_error, fs)
  /\ FileStorage.getMaybeExpired R this key fs = (Ok None, fs)
  /\ FileStorage.deleteMaybeExpired R this key fs = (Ok false, fs).
Proof.
  intros H.
  unfold FileStorage.put, FileStorage.getMaybeExpired,
    FileStorage.deleteMaybeExpired.
  destruct (FileStorage.keyPath R this key) as [filePath sanitised].
  cbn [fst] in H. rewrite H. repeat split.
Qed.

(** C9. The code writes outside the root where the claim has it refuse:
    for the storage rooted at [/tmp/store] that does not sanitise its keys,
    the key ["../store2/x"] resolves to [/tmp/store2/x], which is neither
    the root nor below it; [keyPath] accepts the path, because as a string
    it starts with the root; [put] creates the file there and succeeds, and
    a read of the key returns the bytes of that file. *)
Theorem sibling_directory_escapes_root :
  forall (Meta : Type) (R : Runtime Meta) (b : list byte),
    Path.join (root unsanitised_store) (js "../store2/x")
    = js "/tmp/store2/x"
    /\ ~ below_root (root unsanitised_store) (js "/tmp/store2/x")
    /\ FileStorage.keyPath R unsanitised_store (js "../store2/x")
       = (Some (js "/tmp/store2/x"), false)
    /\ FileStorage.put R unsanitised_store (js "../store2/x") (plain b) ∅
       = (Ok tt, {[ js "/tmp/store2/x" := b ]})
    /\ FileStorage.getMaybeExpired R unsanitised_store (js "../store2/x")
         {[ js "/tmp/store2/x" := b ]}
       = (Ok (Some (plain b)), {[ js "/tmp/store2/x" := b ]}).
Proof.
  intros Meta R b.
  split; [vm_compute; reflexivity |].
  split.
  { intros [H | H]; vm_compute in H; discriminate. }
  split; [vm_compute; reflexivity |].
  split; vm_compute; reflexivity.
Qed.

(** *** The alarm *)

Lemma put_ok_inv {Meta} (R : Runtime Meta) this key stored fs fs' :
  FileStorage.put R this key stored fs = (Ok tt, fs') ->
  exists p,
    fst (FileStorage.keyPath R this key) = Some p
    /\ p <> []
    /\ fs' !! p = Some (value stored)
    /\ below_a_file fs' p = false.
Proof.
  unfold FileStorage.put.
  destruct (FileStorage.keyPath R this key) as [[p |] sanitised];
    cbn [FileStorage.no_path];
    [| discriminate].
  case_bool_decide as Hnil; [discriminate |].
  cbn [default from_option]. unfold id.
  intros H. apply fs_bind_inv in H as ([] & fs1 & Hw & H).
  unfold try_catch in Hw.
  destruct (writeFile p (value stored) fs) as [[[] | e] fs0] eqn:Ew.
  2:{ exfalso. eapply namespace_if_EEXIST_throws. exact Hw. }
  injection Hw as <-.
  apply writeFile_ok in Ew as [Hb ->].
  exists p. split; [reflexivity |]. split; [exact Hnil |].
  destruct (_ || sanitised).
  - apply writeFile_ok in H as [_ ->].
    split.
    + rewrite lookup_insert_ne by (apply not_eq_sym, sidecar_differs).
      apply lookup_insert_eq.
    + rewrite !below_a_file_insert; [exact Hb | lia |].
      rewrite length_app. lia.
  - apply fs_bind_inv in H as (existed & fs2 & Hd & H).
    cbn in H. injection H as <-.
    unfold deleteFile in Hd.
    match type of Hd with
    | (if ?c then _ else _) = _ => destruct c; [discriminate |]
    end.
    injection Hd as _ <-.
    split.
    + rewrite lookup_delete_ne by (apply not_eq_sym, sidecar_differs).
      apply lookup_insert_eq.
    + rewrite below_a_file_delete by (rewrite length_app; lia).
      rewrite below_a_file_insert by lia. exact Hb.
Qed.

Lemma setAlarm_ok_inv {Meta} (R : Runtime Meta) this t fs fs' :
  FileStorage.setAlarm R this t fs = (Ok tt, fs') ->
  exists p,
    alarm_path R this = Some p
    /\ p <> []
    /\ below_a_file fs p = false
    /\ fs' = <[p := utf8_encode (toString R t)]> fs.
Proof.
  unfold FileStorage.setAlarm, alarm_path.
  destruct (FileStorage.keyPath R this ALARM_KEY) as [[p |] sanitised];
    cbn [FileStorage.no_path];
    [| discriminate].
  case_bool_decide as Hp; [discriminate |].
  cbn [default from_option fst]. unfold id. unfold try_catch.
  destruct (writeFile p _ fs) as [[[] | e] fs0] eqn:Ew.
  2:{ intros H. exfalso. eapply namespace_if_EEXIST_throws. exact H. }
  intros [= <-]. apply writeFile_ok in Ew as [Hb ->].
  exists p. repeat split; assumption.
Qed.

Lemma getAlarm_reads {Meta} (R : Runtime Meta) this p b fs :
  alarm_path R this = Some p ->
  p <> [] ->
  below_a_file fs p = false ->
  fs !! p = Some b ->
  FileStorage.getAlarm R this fs
  = (Ok (Some (toNumber R (utf8_decode R b))), fs).
Proof.
  unfold alarm_path, FileStorage.getAlarm.
  destruct (FileStorage.keyPath R this ALARM_KEY) as [filePath sanitised].
  cbn [fst]. intros -> Hp Hb Hs.
  cbn [FileStorage.no_path]. rewrite bool_decide_eq_false_2 by exact Hp.
  cbn [default from_option]. unfold id.
  unfold try_catch, mbind, M_bind, readFile. rewrite Hb, Hs. reflexivity.
Qed.

(** An ordinary read of a key whose file exists and is not below a file:
    the bytes of the file, with what the sidecar holds. *)
Lemma getMaybeExpired_steps {Meta} (R : Runtime Meta) this key p b fs :
  fst (FileStorage.keyPath R this key) = Some p ->
  p <> [] ->
  below_a_file fs p = false ->
  fs !! p = Some b ->
  FileStorage.getMaybeExpired R this key fs
  = match fs !! (p ++ metaSuffix) with
    | None => (Ok (Some (plain b)), fs)
    | Some mb =>
        if bool_decide (utf8_decode R mb = []) then (Ok (Some (plain b)), fs)
        else
          match JSON_parse R (utf8_decode R mb) with
          | Some m =>
              (Ok (Some {| value := b;
                           expiration := meta_expiration m;
                           metadata := meta_metadata m |}), fs)
          | None => (Throw SyntaxError, fs)
          end
    end.
Proof.
  unfold FileStorage.getMaybeExpired.
  destruct (FileStorage.keyPath R this key) as [filePath sanitised].
  cbn [fst]. intros -> Hp Hb Hs.
  cbn [FileStorage.no_path]. rewrite bool_decide_eq_false_2 by exact Hp.
  cbn [default from_option]. unfold id.
  unfold try_catch, mbind, M_bind, readFile at 1. rewrite Hb, Hs.
  unfold FileStorage.meta, mbind, M_bind, readFile.
  rewrite below_a_file_sidecar, Hb.
  destruct (fs !! (p ++ metaSuffix)) as [mb |]; [| reflexivity].
  case_bool_decide as He; [reflexivity |].
  destruct (JSON_parse R (utf8_decode R mb)) as [m |]; reflexivity.
Qed.

Lemma getMaybeExpired_reads {Meta} (R : Runtime Meta) this key p b fs :
  fst (FileStorage.keyPath R this key) = Some p ->
  p <> [] ->
  below_a_file fs p = false ->
  fs !! p = Some b ->
  (sidecar_readable R fs p ->
   exists s, FileStorage.getMaybeExpired R this key fs = (Ok (Some s), fs)
             /\ value s = b)
  /\ (forall r, fst (FileStorage.getMaybeExpired R this key fs) = Ok r ->
                exists s, r = Some s /\ value s = b).
Proof.
  intros Hk Hp Hb Hs.
  rewrite (getMaybeExpired_steps R this key p b fs Hk Hp Hb Hs).
  unfold sidecar_readable.
  destruct (fs !! (p ++ metaSuffix)) as [mb |].
  2:{ split; [intros _ | intros r [= <-]]; eexists; split; reflexivity. }
  case_bool_decide as He.
  { split; [intros _ | intros r [= <-]]; eexists; split; reflexivity. }
  destruct (JSON_parse R (utf8_decode R mb)) as [m |].
  { split; [intros _ | intros r [= <-]]; eexists; split; reflexivity. }
  split.
  - intros [H | [x H]]; [contradiction | discriminate].
  - intros r H. discriminate.
Qed.

(** C10. The alarm lives in the namespace of the ordinary keys. When an
    ordinary [put] of the key ["__MINIFLARE_ALARM__"] with the bytes [b]
    succeeds, the [getAlarm] that follows returns the number parsed from
    the UTF-8 decoding of [b]. When [setAlarm(t)] succeeds, an ordinary
    read of that key that returns at all returns the UTF-8 encoding of the
    text of [t] as its value, and it does return it when the sidecar of the
    file is absent, empty or parsable. *)
Theorem alarm_is_an_ordinary_key {Meta} (R : Runtime Meta) this :
  (forall stored fs fs',
     FileStorage.put R this ALARM_KEY stored fs = (Ok tt, fs') ->
     FileStorage.getAlarm R this fs'
     = (Ok (Some (toNumber R (utf8_decode R (value stored)))), fs'))
  /\ (forall t fs fs',
        FileStorage.setAlarm R this t fs = (Ok tt, fs') ->
        (forall r,
           fst (FileStorage.getMaybeExpired R this ALARM_KEY fs') = Ok r ->
           exists s, r = Some s /\ value s = utf8_encode (toString R t))
        /\ (forall p,
              alarm_path R this = Some p ->
              sidecar_readable R fs' p ->
              exists s,
                FileStorage.getMaybeExpired R this ALARM_KEY fs'
                = (Ok (Some s), fs')
                /\ value s = utf8_encode (toString R t))).
Proof.
  split.
  - intros stored fs fs' H.
    apply put_ok_inv in H as (p & Hk & Hp & Hs & Hb).
    exact (getAlarm_reads R this p _ fs' Hk Hp Hb Hs).
  - intros t fs fs' H.
    apply setAlarm_ok_inv in H as (p & Hk & Hp & Hb & ->).
    assert (Hb' : below_a_file (<[p := utf8_encode (toString R t)]> fs) p
                  = false)
      by (rewrite below_a_file_insert by lia; exact Hb).
    pose proof (getMaybeExpired_reads R this ALARM_KEY p
                  (utf8_encode (toString R t))
                  (<[p := utf8_encode (toString R t)]> fs)
                  Hk Hp Hb' (lookup_insert_eq _ _ _)) as [H1 H2].
    split; [exact H2 |].
    intros q Hq Hside. unfold alarm_path in Hk, Hq.
    rewrite Hk in Hq. injection Hq as <-. exact (H1 Hside).
Qed.

Lemma alarm_is_an_ordinary_key_witness :
  FileStorage.put sample_runtime unsanitised_store ALARM_KEY
    (plain [x34; x32]) ∅ = (Ok tt, after_alarm_put)
  /\ FileStorage.setAlarm sample_runtime unsanitised_store (Num 1234) ∅
     = (Ok tt, after_setAlarm)
  /\ alarm_path sample_runtime unsanitised_store
     = Some (js "/tmp/store/__MINIFLARE_ALARM__")
  /\ sidecar_readable sample_runtime after_setAlarm
       (js "/tmp/store/__MINIFLARE_ALARM__")
  /\ FileStorage.getAlarm sample_runtime unsanitised_store after_alarm_put
     = (Ok (Some (toNumber sample_runtime
                    (utf8_decode sample_runtime [x34; x32]))),
        after_alarm_put)
  /\ exists s,
       FileStorage.getMaybeExpired sample_runtime unsanitised_store ALARM_KEY
         after_setAlarm = (Ok (Some s), after_setAlarm)
       /\ value s = utf8_encode (toString sample_runtime (Num 1234)).
Proof.
  assert (Hput : FileStorage.put sample_runtime unsanitised_store ALARM_KEY
                   (plain [x34; x32]) ∅ = (Ok tt, after_alarm_put))
    by (vm_compute; reflexivity).
  assert (Hset : FileStorage.setAlarm sample_runtime unsanitised_store
                   (Num 1234) ∅ = (Ok tt, after_setAlarm))
    by (vm_compute; reflexivity).
  assert (Hpath : alarm_path sample_runtime unsanitised_store
                  = Some (js "/tmp/store/__MINIFLARE_ALARM__"))
    by (vm_compute; reflexivity).
  assert (Hside : sidecar_readable sample_runtime after_setAlarm
                    (js "/tmp/store/__MINIFLARE_ALARM__"))
    by (vm_compute; exact I).
  split; [exact Hput |]. split; [exact Hset |]. split; [exact Hpath |].
  split; [exact Hside |].
  split.
  - exact (proj1 (alarm_is_an_ordinary_key sample_runtime unsanitised_store)
             (plain [x34; x32]) ∅ after_alarm_put Hput).
  - exact (proj2 (proj2 (alarm_is_an_ordinary_key sample_runtime
                           unsanitised_store)
                    (Num 1234) ∅ after_setAlarm Hset)
             (js "/tmp/store/__MINIFLARE_ALARM__") Hpath Hside).
Defined.

End FileProps.

(** * Further properties of the gateway *)

Module BucketMore.
Import JS R2 BucketTerms MoreBucketTerms.

(** *** Operations that only read *)

Lemma reads_ret {A} (a : A) : reads (mret a).
Proof. intros w. reflexivity. Qed.

Lemma reads_lift {A} (r : Result A) : reads (lift r).
Proof. intros w. reflexivity. Qed.

Lemma reads_bind {A B} (m : M A) (f : A -> M B) :
  reads m -> (forall a, reads (f a)) -> reads (m ≫= f).
Proof.
  intros Hm Hf w. unfold mbind, M_bind, bind.
  specialize (Hm w). destruct (m w) as [[a | e] w1]; cbn in *.
  - rewrite Hf. exact Hm.
  - exact Hm.
Qed.

Lemma reads_storage_meta k : reads (storage_meta k).
Proof. intros w. reflexivity. Qed.

Lemma reads_storage_get k : reads (storage_get k).
Proof. intros w. reflexivity. Qed.

Lemma reads_storage_list pre lim cur : reads (storage_list pre lim cur).
Proof. intros w. reflexivity. Qed.

Lemma reads_satisfiable (read : World -> option (option Stored) * World) :
  (forall w, entries (snd (read w)) = entries w) ->
  reads (R2Bucket.satisfiable read).
Proof.
  intros H w. unfold R2Bucket.satisfiable.
  specialize (H w). destruct (read w) as [[s |] w1]; exact H.
Qed.

Lemma reads_get_stored P k range : reads (R2Bucket.get_stored P k range).
Proof.
  unfold R2Bucket.get_stored.
  destruct (r_suffix range) as [suf |].
  { apply reads_satisfiable. intros w. reflexivity. }
  destruct (r_offset range) as [off |], (r_length range) as [len |];
    try apply reads_storage_get;
    (apply reads_bind;
     [ try apply reads_ret;
       match goal with
       | |- reads (match ?l with _ => _ end) =>
           destruct l as [| []]; try apply reads_ret; try apply reads_lift
       end
     | intros _; apply reads_satisfiable; intros w; reflexivity ]).
Qed.

Lemma reads_head k : reads (R2Bucket.head k).
Proof.
  unfold R2Bucket.head.
  apply reads_bind; [apply reads_lift | intros _].
  apply reads_bind; [apply reads_storage_meta | intros stored].
  destruct (mjoin stored); apply reads_ret.
Qed.

Lemma reads_get P k o : reads (R2Bucket.get P k o).
Proof.
  unfold R2Bucket.get. cbn zeta.
  apply reads_bind; [apply reads_lift | intros _].
  apply reads_bind; [apply reads_lift | intros _].
  apply reads_bind; [apply reads_storage_meta | intros meta].
  destruct (mjoin meta) as [m |]; [| apply reads_ret].
  destruct (_ || _); [apply reads_ret |].
  apply reads_bind; [apply reads_get_stored | intros stored].
  destruct stored as [[v [md |]] |]; apply reads_ret.
Qed.

Lemma reads_list_private pre lim inc dps del cur :
  reads (R2Bucket.list_private pre lim inc dps del cur).
Proof.
  unfold R2Bucket.list_private.
  apply reads_bind; [apply reads_storage_list | intros res].
  destruct (R2Bucket.filter_delimited pre del dps (omap snd (fst res))).
  apply reads_ret.
Qed.

Lemma reads_list_loop turns pre lim inc del objs dps cur :
  reads (R2Bucket.list_loop turns pre lim inc del objs dps cur).
Proof.
  revert objs dps cur.
  induction turns as [| turns IH]; intros objs dps cur;
    cbn [R2Bucket.list_loop]; destruct (_ <? lim); try apply reads_ret.
  apply reads_bind; [apply reads_list_private | intros [[newObjects c] d]].
  destruct (_ =? _)%nat; [apply reads_ret | apply IH].
Qed.

Lemma reads_list o : reads (R2Bucket.list o).
Proof.
  unfold R2Bucket.list. cbn zeta.
  apply reads_bind; [apply reads_lift | intros _].
  apply reads_bind.
  - match goal with
    | |- reads (match ?x with NaN => _ | Num _ => _ end) => destruct x
    end; [apply reads_ret | apply reads_list_loop].
  - intros [[objs dps] cur]. apply reads_ret.
Qed.

(** X1. The reading operations never write: whatever their arguments and
    whatever they return or throw, [head], [get] and [list] leave every
    entry of the storage as it was. *)
Theorem reading_operations_do_not_write P w :
  (forall k, entries (snd (R2Bucket.head k w)) = entries w)
  /\ (forall k o, entries (snd (R2Bucket.get P k o w)) = entries w)
  /\ (forall o, entries (snd (R2Bucket.list o w)) = entries w).
Proof.
  split; [| split]; intros.
  - apply reads_head.
  - apply reads_get.
  - apply reads_list.
Qed.

(** *** [put], [delete] and what the other operations see afterwards *)

Lemma validateKey_Ok_any m1 m2 k :
  validateKey m1 k = Ok tt -> validateKey m2 k = Ok tt.
Proof.
  unfold validateKey. repeat case_bool_decide; try discriminate.
  destruct (_ <? _); [discriminate | reflexivity].
Qed.

(** A [put] that resolves to an object had a valid key, and stored the
    object it resolves to. *)
Lemma put_success P fresh k v o w m w1 :
  R2Bucket.put P fresh k v o w = (Ok (Some (R2Object m)), w1) ->
  validateKey PUT k = Ok tt
  /\ exists bytes,
       R2Bucket.toUint8Array v = Ok bytes
       /\ m = new_metadata P fresh k bytes (default noPutOptions o)
       /\ entries w1 = <[k := {| value := bytes; metadata := Some m |}]>
                         (entries w).
Proof.
  intros H.
  destruct (validateKey PUT k) as [[] | e] eqn:Hk.
  2:{ unfold R2Bucket.put in H. cbn in H. rewrite Hk in H. discriminate. }
  split; [reflexivity |].
  assert (E : R2Bucket.put P fresh k v o w
              = R2Bucket.put P fresh k v (Some (default noPutOptions o)) w)
    by (destruct o; reflexivity).
  rewrite E in H. clear E.
  set (opts := default noPutOptions o) in *. clearbody opts.
  destruct (validateR2PutOptions opts) as [[] | e] eqn:Ho.
  2:{ unfold R2Bucket.put in H. cbn in H. unfold id in H.
      rewrite Hk in H. cbn in H. rewrite Ho in H. discriminate. }
  rewrite (BucketProps.put_steps _ _ _ _ _ _ Hk Ho) in H.
  destruct (short_circuits P _ w k); [discriminate |].
  destruct (R2Bucket.toUint8Array v) as [bytes | e]; [| discriminate].
  destruct (_ <? _); [discriminate |].
  destruct (R2Bucket.md5_mismatch _ _); [discriminate |].
  injection H as <- <-. exists bytes. repeat split.
Qed.

Lemma head_steps k w :
  validateKey HEAD k = Ok tt ->
  R2Bucket.head k w
  = (Ok (R2Object <$> stored_metadata w k), called (CallMeta k) w).
Proof.
  intros Hk. unfold R2Bucket.head, stored_metadata.
  unfold mbind, M_bind, bind, lift. rewrite Hk.
  unfold storage_meta.
  destruct (mjoin (metadata <$> entries w !! k)); reflexivity.
Qed.

(** X2. After a [put] that resolved to an object, [head] of the same key
    resolves to the very metadata the [put] returned, and it makes one call
    on the storage, the metadata lookup: it does not read the value. *)
Theorem head_after_put P fresh k v o w m w1 :
  R2Bucket.put P fresh k v o w = (Ok (Some (R2Object m)), w1) ->
  R2Bucket.head k w1 = (Ok (Some (R2Object m)), called (CallMeta k) w1).
Proof.
  intros H. apply put_success in H as (Hk & bytes & _ & _ & He).
  rewrite (head_steps k w1 (validateKey_Ok_any PUT HEAD k Hk)).
  unfold stored_metadata. rewrite He, lookup_insert_eq. reflexivity.
Qed.

Lemma head_after_put_witness :
  let m := new_metadata sample_platform sample_fresh (js "k") [x68; x69]
             noPutOptions in
  R2Bucket.put sample_platform sample_fresh (js "k") (PutString (js "hi"))
    None empty_world
  = (Ok (Some (R2Object m)), after_put "k" "hi" empty_world)
  /\ R2Bucket.head (js "k") (after_put "k" "hi" empty_world)
     = (Ok (Some (R2Object m)),
        called (CallMeta (js "k")) (after_put "k" "hi" empty_world)).
Proof.
  cbn zeta.
  assert (H : R2Bucket.put sample_platform sample_fresh (js "k")
                (PutString (js "hi")) None empty_world
              = (Ok (Some (R2Object
                             (new_metadata sample_platform sample_fresh
                                (js "k") [x68; x69] noPutOptions))),
                 after_put "k" "hi" empty_world))
    by (vm_compute; reflexivity).
  split; [exact H |].
  exact (head_after_put sample_platform sample_fresh (js "k")
           (PutString (js "hi")) None empty_world _ _ H).
Defined.

(** X3. [put] and [delete] touch at most their own key: whatever they
    return or throw, the entry of every other key is afterwards what it was
    before. *)
Theorem writes_touch_only_their_key P fresh k k' v o w :
  k' <> k ->
  entries (snd (R2Bucket.put P fresh k v o w)) !! k' = entries w !! k'
  /\ entries (snd (R2Bucket.delete k w)) !! k' = entries w !! k'.
Proof.
  intros Hne. split.
  - destruct (BucketProps.put_entries P fresh k v o w)
      as [H | (bytes & _ & _ & _ & H)]; cbn zeta in H; rewrite H;
      [reflexivity |].
    apply lookup_insert_ne. congruence.
  - unfold R2Bucket.delete, mbind, M_bind, bind, lift.
    destruct (validateKey DELETE k); [| reflexivity].
    cbn. apply lookup_delete_ne. congruence.
Qed.

Lemma writes_touch_only_their_key_witness :
  js "a" <> js "b"
  /\ entries (snd (R2Bucket.put sample_platform sample_fresh (js "b")
                     PutNull None ab_keys)) !! js "a"
     = entries ab_keys !! js "a"
  /\ entries (snd (R2Bucket.delete (js "b") ab_keys)) !! js "a"
     = entries ab_keys !! js "a".
Proof.
  assert (Hne : js "a" <> js "b") by (vm_compute; discriminate).
  split; [exact Hne |].
  exact (writes_touch_only_their_key sample_platform sample_fresh (js "b")
           (js "a") PutNull None ab_keys Hne).
Defined.

Lemma delete_steps k w :
  validateKey DELETE k = Ok tt ->
  R2Bucket.delete k w
  = (Ok tt, {| entries := delete k (entries w);
               calls := CallDelete k :: calls w |}).
Proof.
  intros Hk. unfold R2Bucket.delete, mbind, M_bind, bind, lift.
  rewrite Hk. reflexivity.
Qed.

Lemma get_missing P k o w :
  validateKey GET k = Ok tt ->
  validateR2GetOptions (default noGetOptions o) = Ok tt ->
  stored_metadata w k = None ->
  R2Bucket.get P k o w = (Ok None, called (CallMeta k) w).
Proof.
  intros Hk Ho Hn. unfold R2Bucket.get. cbn zeta.
  unfold mbind, M_bind, bind, lift. rewrite Hk, Ho.
  unfold storage_meta. unfold stored_metadata in Hn. rewrite Hn.
  reflexivity.
Qed.

(** X4. [delete] of a valid key succeeds whether or not the key is stored;
    afterwards the key has no entry, [head] and every [get] with valid
    options resolve to [null], and a second [delete] succeeds and leaves
    the storage as the first one left it. *)
Theorem delete_then_absent P k w :
  ~ invalid_key k ->
  let w1 := snd (R2Bucket.delete k w) in
  fst (R2Bucket.delete k w) = Ok tt
  /\ entries w1 !! k = None
  /\ fst (R2Bucket.head k w1) = Ok None
  /\ (forall o, validateR2GetOptions (default noGetOptions o) = Ok tt ->
                fst (R2Bucket.get P k o w1) = Ok None)
  /\ fst (R2Bucket.delete k w1) = Ok tt
  /\ entries (snd (R2Bucket.delete k w1)) = entries w1.
Proof.
  intros Hk. cbn zeta.
  rewrite (delete_steps k w (BucketProps.validateKey_valid DELETE k Hk)).
  cbn [fst snd].
  set (w1 := {| entries := delete k (entries w);
                calls := CallDelete k :: calls w |}).
  assert (Hnone : entries w1 !! k = None) by apply lookup_delete_eq.
  assert (Hmeta : stored_metadata w1 k = None)
    by (unfold stored_metadata; rewrite Hnone; reflexivity).
  split; [reflexivity |]. split; [exact Hnone |].
  split.
  { rewrite (head_steps k w1 (BucketProps.validateKey_valid HEAD k Hk)).
    cbn [fst]. rewrite Hmeta. reflexivity. }
  split.
  { intros o Ho.
    rewrite (get_missing P k o w1 (BucketProps.validateKey_valid GET k Hk)
               Ho Hmeta).
    reflexivity. }
  rewrite (delete_steps k w1 (BucketProps.validateKey_valid DELETE k Hk)).
  cbn [fst snd entries]. split; [reflexivity |].
  apply delete_id. exact Hnone.
Qed.

Lemma delete_then_absent_witness :
  let w1 := snd (R2Bucket.delete (js "a") ab_keys) in
  ~ invalid_key (js "a")
  /\ fst (R2Bucket.delete (js "a") ab_keys) = Ok tt
  /\ entries w1 !! js "a" = None
  /\ fst (R2Bucket.head (js "a") w1) = Ok None
  /\ (forall o, validateR2GetOptions (default noGetOptions o) = Ok tt ->
                fst (R2Bucket.get sample_platform (js "a") o w1) = Ok None)
  /\ fst (R2Bucket.delete (js "a") w1) = Ok tt
  /\ entries (snd (R2Bucket.delete (js "a") w1)) = entries w1.
Proof.
  cbn zeta.
  assert (Hk : ~ invalid_key (js "a"))
    by (apply BucketProps.validateKey_ok_valid; reflexivity).
  split; [exact Hk |].
  exact (delete_then_absent sample_platform (js "a") ab_keys Hk).
Defined.

(** *** The metadata invariant *)

Lemma empty_world_consistent P : consistent P empty_world.
Proof. intros k s H. cbn in H. rewrite lookup_empty in H. discriminate. Qed.

Lemma consistent_same_entries P w w' :
  entries w' = entries w -> consistent P w -> consistent P w'.
Proof. intros He H k s. rewrite He. apply H. Qed.

Lemma put_consistent P fresh k v o w :
  consistent P w -> consistent P (snd (R2Bucket.put P fresh k v o w)).
Proof.
  intros Hw k' s.
  destruct (BucketProps.put_entries P fresh k v o w)
    as [H | (bytes & _ & _ & _ & H)]; cbn zeta in H; rewrite H;
    [apply Hw |].
  destruct (decide (k = k')) as [<- | Hne].
  - rewrite lookup_insert_eq. intros [= <-].
    eexists. repeat split; reflexivity.
  - rewrite lookup_insert_ne by exact Hne. apply Hw.
Qed.

Lemma delete_consistent P k w :
  consistent P w -> consistent P (snd (R2Bucket.delete k w)).
Proof.
  intros Hw. unfold R2Bucket.delete, mbind, M_bind, bind, lift.
  destruct (validateKey DELETE k); [| exact Hw].
  intros k' s Hs. cbn in Hs.
  apply lookup_delete_Some in Hs as [_ Hs]. exact (Hw k' s Hs).
Qed.

(** X5. The gateway keeps the storage consistent: if every entry carries
    metadata that names its key, whose [size] is the byte length of the
    stored value, whose [etag] is the digest of the stored value and whose
    [httpEtag] is the quoted etag, then the same holds after any [put],
    [delete], [head], [get] or [list], whatever they return or throw. *)
Theorem operations_keep_consistency P w :
  consistent P w ->
  (forall fresh k v o, consistent P (snd (R2Bucket.put P fresh k v o w)))
  /\ (forall k, consistent P (snd (R2Bucket.delete k w)))
  /\ (forall k, consistent P (snd (R2Bucket.head k w)))
  /\ (forall k o, consistent P (snd (R2Bucket.get P k o w)))
  /\ (forall o, consistent P (snd (R2Bucket.list o w))).
Proof.
  intros Hw. repeat split; intros.
  - apply put_consistent, Hw.
  - apply delete_consistent, Hw.
  - eapply consistent_same_entries; [apply reads_head | exact Hw].
  - eapply consistent_same_entries; [apply reads_get | exact Hw].
  - eapply consistent_same_entries; [apply reads_list | exact Hw].
Qed.

Lemma operations_keep_consistency_witness :
  consistent sample_platform empty_world
  /\ consistent sample_platform
       (snd (R2Bucket.put sample_platform sample_fresh (js "k")
               (PutString (js "hi")) None empty_world)).
Proof.
  split; [apply empty_world_consistent |].
  exact (proj1 (operations_keep_consistency sample_platform empty_world
                  (empty_world_consistent sample_platform))
           sample_fresh (js "k") (PutString (js "hi")) None).
Defined.

(** *** What [get] reads *)

(** X6. In a consistent storage, whenever a [get] without range resolves to
    an object with a body, the body is the stored value of the key, it is
    not empty, and the metadata returned with it gives its byte length as
    [size] and its digest as [etag]. *)
Theorem get_body_matches_metadata P k o w m body :
  consistent P w ->
  get_range (default noGetOptions o) = None ->
  fst (R2Bucket.get P k o w) = Ok (Some (R2ObjectBody m body)) ->
  entries w !! k = Some {| value := body; metadata := Some m |}
  /\ body <> []
  /\ size m = byteLength body
  /\ etag m = createMD5 P body.
Proof.
  intros Hw Hr. unfold R2Bucket.get. cbn zeta.
  unfold mbind, M_bind, bind, lift.
  destruct (validateKey GET k); [| discriminate].
  destruct (validateR2GetOptions _); [| discriminate].
  unfold storage_meta. rewrite Hr.
  destruct (entries w !! k) as [[val md] |] eqn:Es; [| discriminate].
  cbn [fmap option_fmap option_map mjoin option_join metadata].
  destruct md as [m0 |]; [| discriminate].
  destruct (testR2Conditional _ _ m0 || (size m0 =? 0)) eqn:Et; [discriminate |].
  cbn. rewrite Es. cbn. intros [= <- <-].
  destruct (Hw k _ Es) as (m' & Hm' & _ & Hsz & Het & _).
  cbn in Hm', Hsz, Het. injection Hm' as <-.
  apply orb_false_iff in Et as [_ Et]. apply Z.eqb_neq in Et.
  repeat split; try assumption.
  intros ->. apply Et. rewrite Hsz. reflexivity.
Qed.

Lemma get_body_matches_metadata_witness :
  let w := after_put "k" "hi" empty_world in
  let m := new_metadata sample_platform sample_fresh (js "k") [x68; x69]
             noPutOptions in
  consistent sample_platform w
  /\ get_range (default noGetOptions None) = None
  /\ fst (R2Bucket.get sample_platform (js "k") None w)
     = Ok (Some (R2ObjectBody m [x68; x69]))
  /\ entries w !! js "k" = Some {| value := [x68; x69]; metadata := Some m |}
  /\ [x68; x69] <> @nil byte
  /\ size m = byteLength [x68; x69]
  /\ etag m = createMD5 sample_platform [x68; x69].
Proof.
  cbn zeta.
  assert (Hw : consistent sample_platform (after_put "k" "hi" empty_world))
    by (apply put_consistent, empty_world_consistent).
  assert (Hg : fst (R2Bucket.get sample_platform (js "k") None
                      (after_put "k" "hi" empty_world))
               = Ok (Some (R2ObjectBody
                             (new_metadata sample_platform sample_fresh
                                (js "k") [x68; x69] noPutOptions)
                             [x68; x69])))
    by (vm_compute; reflexivity).
  split; [exact Hw |]. split; [reflexivity |]. split; [exact Hg |].
  exact (get_body_matches_metadata sample_platform (js "k") None
           (after_put "k" "hi" empty_world) _ _ Hw eq_refl Hg).
Defined.

(** X7. A [get] that resolves to metadata without a body, because the
    conditional test failed or the object is empty, has made one call on
    the storage, the metadata lookup: the value was not read. The same
    holds for a [get] with valid key and options of a key without
    metadata, which resolves to [null]. *)
Theorem get_without_body_reads_no_value P k o w :
  (forall m, fst (R2Bucket.get P k o w) = Ok (Some (R2Object m)) ->
             snd (R2Bucket.get P k o w) = called (CallMeta k) w
             /\ stored_metadata w k = Some m)
  /\ (~ invalid_key k ->
      validateR2GetOptions (default noGetOptions o) = Ok tt ->
      stored_metadata w k = None ->
      R2Bucket.get P k o w = (Ok None, called (CallMeta k) w)).
Proof.
  split.
  - intros m. unfold R2Bucket.get, stored_metadata. cbn zeta.
    unfold mbind, M_bind, bind, lift.
    destruct (validateKey GET k); [| discriminate].
    destruct (validateR2GetOptions _); [| discriminate].
    unfold storage_meta.
    destruct (mjoin (metadata <$> entries w !! k)) as [m0 |]; [| discriminate].
    destruct (testR2Conditional _ _ m0 || (size m0 =? 0)).
    + cbn. intros [= <-]. split; reflexivity.
    + destruct (R2Bucket.get_stored P k _ (called (CallMeta k) w))
        as [[[[val [md |]] |] | e] w1]; cbn; discriminate.
  - intros Hk Ho Hn.
    exact (get_missing P k o w (BucketProps.validateKey_valid GET k Hk) Ho Hn).
Qed.

Lemma get_without_body_reads_no_value_witness :
  let m := new_metadata sample_platform sample_fresh (js "k") [] noPutOptions in
  fst (R2Bucket.get sample_platform (js "k") None empty_object)
  = Ok (Some (R2Object m))
  /\ snd (R2Bucket.get sample_platform (js "k") None empty_object)
     = called (CallMeta (js "k")) empty_object
  /\ stored_metadata empty_object (js "k") = Some m
  /\ ~ invalid_key (js "x")
  /\ validateR2GetOptions (default noGetOptions None) = Ok tt
  /\ stored_metadata empty_world (js "x") = None
  /\ R2Bucket.get sample_platform (js "x") None empty_world
     = (Ok None, called (CallMeta (js "x")) empty_world).
Proof.
  cbn zeta.
  assert (Hg : fst (R2Bucket.get sample_platform (js "k") None empty_object)
               = Ok (Some (R2Object
                             (new_metadata sample_platform sample_fresh
                                (js "k") [] noPutOptions))))
    by (vm_compute; reflexivity).
  assert (Hk : ~ invalid_key (js "x"))
    by (apply BucketProps.validateKey_ok_valid; vm_compute; reflexivity).
  pose proof (get_without_body_reads_no_value sample_platform (js "k") None
                empty_object) as [H1 _].
  pose proof (get_without_body_reads_no_value sample_platform (js "x") None
                empty_world) as [_ H2].
  destruct (H1 _ Hg) as [Hs Hm].
  split; [exact Hg |]. split; [exact Hs |]. split; [exact Hm |].
  split; [exact Hk |]. split; [reflexivity |]. split; [reflexivity |].
  exact (H2 Hk eq_refl eq_refl).
Defined.

(** *** The limit of [list] *)

(** X8. [list] checks its limit before anything else: with a limit below 1
    or above 1000 it throws the 400 error of the LIST method and the
    storage is neither called nor changed. A limit that is [NaN] passes
    that check, since both comparisons are false on it; the loop is then
    never entered, so the listing is empty, no call is made on the
    storage, and the cursor the caller passed is handed back, with
    [truncated] set when there is one. *)
Theorem list_limit_checked o w :
  (forall z, requested_limit o = Num z ->
             z < 1 \/ MAX_LIST_KEYS < z ->
             R2Bucket.list o w = (Throw ListLimitInvalid, w))
  /\ (requested_limit o = NaN ->
      R2Bucket.list o w
      = (Ok {| objects := [];
               truncated :=
                 bool_decide (is_Some (l_cursor (default noListOptions o)));
               cursor := l_cursor (default noListOptions o);
               delimitedPrefixes := [] |}, w)).
Proof.
  unfold requested_limit, R2Bucket.list. cbn zeta.
  set (opts := default noListOptions o). clearbody opts.
  split.
  - intros z -> Hz. unfold mbind, M_bind, bind, lift.
    assert ((z <? 1) || (MAX_LIST_KEYS <? z) = true) as ->.
    { apply orb_true_iff. destruct Hz; [left | right]; apply Z.ltb_lt; lia. }
    reflexivity.
  - intros ->. unfold mbind, M_bind, bind, lift. cbn.
    destruct (List.length (default [] (l_include opts))); reflexivity.
Qed.

Lemma list_limit_checked_witness :
  requested_limit (Some (list_options (js "") 0 None)) = Num 0
  /\ (0 < 1 \/ MAX_LIST_KEYS < 0)
  /\ R2Bucket.list (Some (list_options (js "") 0 None)) abc_keys
     = (Throw ListLimitInvalid, abc_keys).
Proof.
  split; [reflexivity |]. split; [left; lia |].
  exact (proj1 (list_limit_checked (Some (list_options (js "") 0 None))
                  abc_keys) 0 eq_refl (or_introl eq_refl)).
Defined.

Lemma set_add_length_le x set :
  (List.length (R2Bucket.set_add x set) <= S (List.length set))%nat.
Proof.
  unfold R2Bucket.set_add. case_bool_decide; [lia |].
  rewrite length_app. cbn. lia.
Qed.

Lemma filter_delimited_count pre del dps ms :
  (List.length (fst (R2Bucket.filter_delimited pre del dps ms))
   + List.length (snd (R2Bucket.filter_delimited pre del dps ms))
   <= List.length ms + List.length dps)%nat.
Proof.
  revert dps. induction ms as [| m ms IH]; intros dps; [cbn; lia |].
  cbn [R2Bucket.filter_delimited]. unfold R2Bucket.delimiter_callback.
  destruct del as [d |].
  - destruct (includes d _).
    + specialize (IH (R2Bucket.set_add
                        (pre ++ split_head d (slice (List.length pre) (key m))
                             ++ d) dps)).
      pose proof (set_add_length_le
                    (pre ++ split_head d (slice (List.length pre) (key m))
                         ++ d) dps).
      destruct (R2Bucket.filter_delimited pre (Some d) _ ms) as [kept dps'].
      cbn in *. lia.
    + specialize (IH dps).
      destruct (R2Bucket.filter_delimited pre (Some d) dps ms) as [kept dps'].
      cbn in *. lia.
  - specialize (IH dps).
    destruct (R2Bucket.filter_delimited pre None dps ms) as [kept dps'].
    cbn in *. lia.
Qed.

Lemma filter_delimited_kept_or_grouped pre del dps ms :
  fst (R2Bucket.filter_delimited pre del dps ms) = []
  \/ snd (R2Bucket.filter_delimited pre del dps ms) = dps.
Proof.
  destruct del as [d |].
  - left. apply BucketProps.filter_delimited_with_delimiter.
  - right. rewrite BucketProps.filter_delimited_no_delimiter. reflexivity.
Qed.

Lemma length_omap_le {A B} (f : A -> option B) (l : list A) :
  (List.length (omap f l) <= List.length l)%nat.
Proof.
  induction l as [| a l IH]; [cbn; lia |].
  cbn. destruct (f a); cbn; lia.
Qed.

Lemma list_private_count pre lim inc dps del cur w objs c dps' w' :
  R2Bucket.list_private pre lim inc dps del cur w = (Ok (objs, c, dps'), w') ->
  (List.length objs + List.length dps' <= Z.to_nat lim + List.length dps)%nat
  /\ (objs = [] \/ dps' = dps).
Proof.
  unfold R2Bucket.list_private, mbind, M_bind, bind, storage_list.
  cbn [fst snd].
  set (page := take (Z.to_nat lim) _).
  set (ms := omap snd _).
  pose proof (filter_delimited_count pre del dps ms) as Hc.
  pose proof (filter_delimited_kept_or_grouped pre del dps ms) as Hk.
  destruct (R2Bucket.filter_delimited pre del dps ms) as [kept dps1].
  cbn. intros [= <- <- <- <-]. cbn in Hc, Hk.
  assert (List.length ms <= Z.to_nat lim)%nat.
  { subst ms. etransitivity; [apply length_omap_le |].
    rewrite length_map. subst page. rewrite length_take. lia. }
  split.
  - rewrite length_map. lia.
  - destruct Hk as [-> | ->]; [left | right]; reflexivity.
Qed.

Lemma list_loop_count turns pre lim inc del objs dps cur w objs' dps' cur' w' :
  Z.of_nat (List.length objs) <= lim ->
  R2Bucket.list_loop turns pre lim inc del objs dps cur w
  = (Ok (objs', dps', cur'), w') ->
  Z.of_nat (List.length objs') + Z.of_nat (List.length dps')
  <= lim + Z.of_nat (List.length dps).
Proof.
  revert objs dps cur w.
  induction turns as [| turns IH]; intros objs dps cur w Hle;
    cbn [R2Bucket.list_loop];
    destruct (_ <? lim) eqn:Hc;
    try (intros [= <- <- <- <-]; lia).
  apply Z.ltb_lt in Hc.
  intros H. apply BucketProps.bind_inv in H as ([[new c] dps1] & w1 & Hp & H).
  apply list_private_count in Hp as [Hn Hk].
  destruct (List.length new =? 0)%nat eqn:Hz.
  - injection H as <- <- <- <-. lia.
  - apply Nat.eqb_neq in Hz.
    destruct Hk as [-> | ->]; [cbn in Hz; lia |].
    apply IH in H; [exact H |].
    rewrite length_app. lia.
Qed.

Lemma list_count_with_numeric_limit o w r z :
  requested_limit o = Num z ->
  fst (R2Bucket.list o w) = Ok r ->
  1 <= z <= MAX_LIST_KEYS
  /\ Z.of_nat (List.length (objects r))
     + Z.of_nat (List.length (delimitedPrefixes r))
     <= (if bool_decide (requested_include o = []) then z else Z.min z 100).
Proof.
  unfold requested_limit, requested_include, R2Bucket.list. cbn zeta.
  set (opts := default noListOptions o). clearbody opts.
  intros ->. unfold mbind, M_bind, bind, lift.
  destruct ((z <? 1) || (MAX_LIST_KEYS <? z)) eqn:Hz; [discriminate |].
  apply orb_false_iff in Hz as [Hz1 Hz2].
  apply Z.ltb_ge in Hz1, Hz2.
  set (lim := if (0 <? _)%nat then _ else _).
  assert (Hlim : lim = Num (if bool_decide (default [] (l_include opts) = [])
                            then z else Z.min z 100)).
  { subst lim. destruct (default [] (l_include opts)); reflexivity. }
  rewrite Hlim. clear Hlim lim.
  set (z' := if bool_decide _ then z else Z.min z 100).
  assert (Hz' : 1 <= z') by (subst z'; case_bool_decide; lia).
  clearbody z'.
  destruct (R2Bucket.list_loop _ _ _ _ _ _ _ _ w) as [[[[objs dps] c] | e] w1]
    eqn:Hl; [| discriminate].
  cbn. intros [= <-]. cbn.
  apply list_loop_count in Hl; [| cbn; lia].
  cbn in Hl. split; lia.
Qed.

(** X9. What a [list] that resolves returns is bounded by its limit.
    When the limit is a number, it is between 1 and 1000, and the objects
    and the delimited prefixes of the result are together at most that
    limit, and at most 100 when metadata groups are to be included. When
    the limit is [NaN], which passes the check of the limit, the result
    has no object and no delimited prefix. ([Storage.list] returns at most
    the number of keys it is asked for.) *)
Theorem list_returns_at_most_limit o w r :
  fst (R2Bucket.list o w) = Ok r ->
  match requested_limit o with
  | Num z =>
      1 <= z <= MAX_LIST_KEYS
      /\ Z.of_nat (List.length (objects r))
         + Z.of_nat (List.length (delimitedPrefixes r))
         <= (if bool_decide (requested_include o = []) then z
             else Z.min z 100)
  | NaN => objects r = [] /\ delimitedPrefixes r = []
  end.
Proof.
  intros H. destruct (requested_limit o) as [| z] eqn:Hl.
  - revert H. unfold requested_limit in Hl. unfold R2Bucket.list. cbn zeta.
    set (opts := default noListOptions o) in *. clearbody opts.
    rewrite Hl. unfold mbind, M_bind, bind, lift. cbn.
    destruct (List.length (default [] (l_include opts)));
      cbn; intros [= <-]; split; reflexivity.
  - exact (list_count_with_numeric_limit o w r z Hl H).
Qed.

Lemma list_returns_at_most_limit_witness :
  exists r,
    fst (R2Bucket.list (Some (list_options (js "") 2 None)) abc_keys) = Ok r
    /\ object_keys (objects r) = [js "a"; js "b"]
    /\ requested_limit (Some (list_options (js "") 2 None)) = Num 2
    /\ 1 <= 2 <= MAX_LIST_KEYS
    /\ Z.of_nat (List.length (objects r))
       + Z.of_nat (List.length (delimitedPrefixes r)) <= 2.
Proof.
  assert (exists r,
            fst (R2Bucket.list (Some (list_options (js "") 2 None)) abc_keys)
            = Ok r
            /\ object_keys (objects r) = [js "a"; js "b"]) as (r & H & Hk)
    by (eexists; split; vm_compute; reflexivity).
  exists r. split; [exact H |]. split; [exact Hk |]. split; [reflexivity |].
  exact (list_returns_at_most_limit (Some (list_options (js "") 2 None))
           abc_keys r H).
Defined.

(** *** Delimited prefixes *)

Lemma startsWith_app (p s : jsstring) :
  startsWith p s = true <-> exists r, s = p ++ r.
Proof.
  revert s. induction p as [| a p IH]; intros s; cbn.
  - split; [intros _; exists s; reflexivity | reflexivity].
  - destruct s as [| b s].
    + split; [discriminate | intros [r [=]]].
    + rewrite andb_true_iff, bool_decide_eq_true, IH. split.
      * intros [-> [r ->]]. exists r. reflexivity.
      * intros [r [= -> ->]]. split; [reflexivity | exists r; reflexivity].
Qed.

Lemma startsWith_nil (d : jsstring) : d <> [] -> startsWith d [] = false.
Proof. destruct d; [congruence | reflexivity]. Qed.

Lemma before_first_prefix (d s : jsstring) :
  exists rest, s = before_first d s ++ rest.
Proof.
  induction s as [| c s [rest IH]]; [exists []; reflexivity |].
  cbn [before_first]. destruct (startsWith d (c :: s)).
  - exists (c :: s). reflexivity.
  - exists rest. cbn. congruence.
Qed.

Lemma includes_split (d s : jsstring) :
  d <> [] -> includes d s = true ->
  exists rest, s = before_first d s ++ d ++ rest.
Proof.
  intros Hd. induction s as [| c s IH]; cbn [includes before_first].
  - rewrite (startsWith_nil d Hd). discriminate.
  - destruct (startsWith d (c :: s)) eqn:Hs.
    + intros _. apply startsWith_app in Hs as [rest ->]. exists rest.
      reflexivity.
    + cbn. intros H. destruct (IH H) as [rest Hr]. exists rest.
      cbn. congruence.
Qed.

Lemma before_first_excludes (d s : jsstring) :
  d <> [] -> includes d (before_first d s) = false.
Proof.
  intros Hd. induction s as [| c s IH]; cbn [before_first].
  - cbn. rewrite (startsWith_nil d Hd). reflexivity.
  - destruct (startsWith d (c :: s)) eqn:Hs.
    + cbn. rewrite (startsWith_nil d Hd). reflexivity.
    + cbn [includes]. rewrite IH, orb_false_r.
      destruct (startsWith d (c :: before_first d s)) eqn:Hb; [| reflexivity].
      apply startsWith_app in Hb as [r Hr].
      destruct (before_first_prefix d s) as [rest Hrest].
      assert (startsWith d (c :: s) = true); [| congruence].
      apply startsWith_app. exists (r ++ rest).
      rewrite app_assoc, <- Hr. cbn. congruence.
Qed.

Lemma set_add_elem x set p :
  p ∈ R2Bucket.set_add x set -> p ∈ set \/ p = x.
Proof.
  unfold R2Bucket.set_add. case_bool_decide; [left; assumption |].
  rewrite elem_of_app, list_elem_of_singleton. tauto.
Qed.

Lemma set_add_NoDup x set : NoDup set -> NoDup (R2Bucket.set_add x set).
Proof.
  intros Hn. unfold R2Bucket.set_add. case_bool_decide; [assumption |].
  apply NoDup_app. split; [assumption |].
  split; [| apply NoDup_singleton].
  intros y Hy Hx. apply list_elem_of_singleton in Hx as ->. contradiction.
Qed.

Lemma filter_delimited_NoDup pre del dps ms :
  NoDup dps -> NoDup (snd (R2Bucket.filter_delimited pre del dps ms)).
Proof.
  revert dps. induction ms as [| m ms IH]; intros dps Hn; [exact Hn |].
  cbn [R2Bucket.filter_delimited]. unfold R2Bucket.delimiter_callback.
  destruct del as [d |]; [destruct (includes d _) |].
  - specialize (IH _ (set_add_NoDup
                        (pre ++ split_head d (slice (List.length pre) (key m))
                             ++ d) dps Hn)).
    destruct (R2Bucket.filter_delimited pre (Some d) _ ms). exact IH.
  - specialize (IH dps Hn).
    destruct (R2Bucket.filter_delimited pre (Some d) dps ms). exact IH.
  - specialize (IH dps Hn).
    destruct (R2Bucket.filter_delimited pre None dps ms). exact IH.
Qed.

Lemma filter_delimited_elem pre del dps ms p :
  p ∈ snd (R2Bucket.filter_delimited pre del dps ms) ->
  p ∈ dps
  \/ exists d m,
       del = Some d /\ m ∈ ms
       /\ includes d (slice (List.length pre) (key m)) = true
       /\ p = pre ++ split_head d (slice (List.length pre) (key m)) ++ d.
Proof.
  revert dps. induction ms as [| m ms IH]; intros dps; [left; assumption |].
  cbn [R2Bucket.filter_delimited]. unfold R2Bucket.delimiter_callback.
  assert (Hrest : forall dps0,
            p ∈ snd (R2Bucket.filter_delimited pre del dps0 ms) ->
            p ∈ dps0
            \/ exists d m0,
                 del = Some d /\ m0 ∈ m :: ms
                 /\ includes d (slice (List.length pre) (key m0)) = true
                 /\ p = pre ++ split_head d (slice (List.length pre) (key m0))
                            ++ d).
  { intros dps0 H. destruct (IH dps0 H) as [? | (d & m0 & ? & ? & ? & ?)];
      [left; assumption |].
    right. exists d, m0. repeat split; try assumption.
    apply elem_of_cons. right. assumption. }
  destruct del as [d |]; [destruct (includes d _) eqn:Hi |].
  - intros H.
    destruct (R2Bucket.filter_delimited pre (Some d) _ ms) eqn:E.
    cbn in H. specialize (Hrest _ ltac:(rewrite E; exact H)).
    destruct Hrest as [Hrest | Hrest]; [| right; exact Hrest].
    apply set_add_elem in Hrest as [? | ->]; [left; assumption |].
    right. exists d, m. repeat split; try assumption.
    apply elem_of_cons. left. reflexivity.
  - intros H. destruct (R2Bucket.filter_delimited pre (Some d) dps ms) eqn:E.
    cbn in H. apply Hrest. rewrite E. exact H.
  - intros H. destruct (R2Bucket.filter_delimited pre None dps ms) eqn:E.
    cbn in H. apply Hrest. rewrite E. exact H.
Qed.

Lemma written_key_groups w pre d k s m :
  written_by_put w -> d <> [] ->
  entries w !! k = Some s -> metadata s = Some m ->
  startsWith pre k = true ->
  includes d (slice (List.length pre) (key m)) = true ->
  groups_stored_key (entries w) pre d
    (pre ++ split_head d (slice (List.length pre) (key m)) ++ d).
Proof.
  intros Hw Hd Hs Hm Hp Hi.
  destruct (Hw k s Hs) as (m' & Hm' & Hk).
  rewrite Hm in Hm'. injection Hm' as <-. rewrite Hk in *.
  apply startsWith_app in Hp as [r ->].
  unfold slice in *. rewrite drop_app_length in *.
  assert (Hsh : split_head d r = before_first d r)
    by (destruct d; [congruence | reflexivity]).
  rewrite Hsh.
  exists (before_first d r), (pre ++ r).
  split; [reflexivity |].
  split; [apply before_first_excludes, Hd |].
  split; [rewrite Hs; eexists; reflexivity |].
  split; [apply startsWith_app; exists r; reflexivity |].
  destruct (includes_split d r Hd Hi) as [rest Hr].
  apply startsWith_app. exists rest.
  rewrite <- !app_assoc. f_equal. exact Hr.
Qed.

Lemma list_private_prefixes pre lim inc dps d cur w objs c dps' w' :
  written_by_put w -> d <> [] ->
  R2Bucket.list_private pre lim inc dps (Some d) cur w
  = (Ok (objs, c, dps'), w') ->
  entries w' = entries w
  /\ forall p, p ∈ dps' -> p ∈ dps \/ groups_stored_key (entries w) pre d p.
Proof.
  intros Hw Hd.
  unfold R2Bucket.list_private, mbind, M_bind, bind, storage_list.
  cbn [fst snd]. rewrite BucketProps.omap_listed.
  set (page := take (Z.to_nat lim) _).
  pose proof (filter_delimited_elem pre (Some d) dps
                (omap (fun e => metadata (snd e)) page)) as He.
  destruct (R2Bucket.filter_delimited pre (Some d) dps _) as [kept dps1].
  cbn. intros [= <- <- <- <-]. split; [reflexivity |].
  intros p Hp. destruct (He p Hp) as [? | (d' & m & [= <-] & Hm & Hi & ->)];
    [left; assumption | right].
  apply list_elem_of_omap in Hm as ([k s] & Hin & Hm). cbn in Hm.
  assert (Hin' : (k, s) ∈ matching pre (entries w)).
  { subst page. apply elem_of_take in Hin as (i & Hin & _).
    apply list_elem_of_lookup_2 in Hin.
    unfold after_cursor in Hin. destruct cur; [| exact Hin].
    apply list_elem_of_In, filter_In in Hin as [Hin _].
    apply list_elem_of_In. exact Hin. }
  apply (proj2 (BucketProps.matching_keys pre (entries w))) in Hin'
    as [Hs Hpre].
  exact (written_key_groups w pre d k s m Hw Hd Hs Hm Hpre Hi).
Qed.

Lemma list_private_NoDup pre lim inc dps del cur w objs c dps' w' :
  R2Bucket.list_private pre lim inc dps del cur w
  = (Ok (objs, c, dps'), w') ->
  NoDup dps -> NoDup dps'.
Proof.
  unfold R2Bucket.list_private, mbind, M_bind, bind, storage_list.
  cbn [fst snd].
  set (ms := omap snd _).
  pose proof (filter_delimited_NoDup pre del dps ms) as Hn.
  destruct (R2Bucket.filter_delimited pre del dps ms) as [kept dps1].
  cbn. intros [= <- <- <- <-]. exact Hn.
Qed.

Lemma list_loop_NoDup turns pre lim inc del objs dps cur w objs' dps' cur' w' :
  R2Bucket.list_loop turns pre lim inc del objs dps cur w
  = (Ok (objs', dps', cur'), w') ->
  NoDup dps -> NoDup dps'.
Proof.
  revert objs dps cur w.
  induction turns as [| turns IH]; intros objs dps cur w;
    cbn [R2Bucket.list_loop];
    destruct (_ <? lim);
    try (intros [= <- <- <- <-]; tauto).
  intros H Hn.
  apply BucketProps.bind_inv in H as ([[new c] dps1] & w1 & Hp & H).
  apply list_private_NoDup in Hp; [| exact Hn].
  destruct (List.length new =? 0)%nat.
  - injection H as <- <- <- <-. exact Hp.
  - exact (IH _ _ _ _ H Hp).
Qed.

Lemma written_by_put_same_entries w w' :
  entries w' = entries w -> written_by_put w -> written_by_put w'.
Proof. intros He H k s. rewrite He. apply H. Qed.

Lemma list_loop_prefixes turns pre lim inc d objs dps cur w objs' dps' cur' w' :
  written_by_put w -> d <> [] ->
  R2Bucket.list_loop turns pre lim inc (Some d) objs dps cur w
  = (Ok (objs', dps', cur'), w') ->
  forall p, p ∈ dps' -> p ∈ dps \/ groups_stored_key (entries w) pre d p.
Proof.
  intros Hw Hd. revert objs dps cur w Hw.
  induction turns as [| turns IH]; intros objs dps cur w Hw;
    cbn [R2Bucket.list_loop];
    destruct (_ <? lim);
    try (intros [= <- <- <- <-]; tauto).
  intros H p Hp.
  apply BucketProps.bind_inv in H as ([[new c] dps1] & w1 & Hl & H).
  apply list_private_prefixes in Hl as [He Hl]; [| assumption ..].
  destruct (List.length new =? 0)%nat.
  - injection H as <- <- <- <-. exact (Hl p Hp).
  - apply (IH _ _ _ _ (written_by_put_same_entries w w1 He Hw)) with (p := p)
      in H; [| exact Hp].
    rewrite He in H. destruct H as [H | H]; [exact (Hl p H) | right; exact H].
Qed.

(** X10. The delimited prefixes of a listing. In a storage whose entries
    carry metadata naming their keys, a [list] with prefix [pre] and a
    non-empty delimiter [d] returns as delimited prefixes only strings
    [pre ++ seg ++ d], with [seg] free of [d], that some stored key
    starting with [pre] starts with; and it returns none of them twice. *)
Theorem delimited_prefixes_group_stored_keys o w r d :
  written_by_put w ->
  l_delimiter (default noListOptions o) = Some d ->
  d <> [] ->
  fst (R2Bucket.list o w) = Ok r ->
  NoDup (delimitedPrefixes r)
  /\ forall p,
       p ∈ delimitedPrefixes r ->
       groups_stored_key (entries w)
         (default [] (l_prefix (default noListOptions o))) d p.
Proof.
  intros Hw Hdel Hd. unfold R2Bucket.list. cbn zeta.
  set (opts := default noListOptions o) in *. clearbody opts.
  rewrite Hdel. unfold mbind, M_bind, bind, lift.
  destruct (match default (Num MAX_LIST_KEYS) (l_limit opts) with
            | NaN => Ok tt
            | Num z => _
            end); [| discriminate].
  destruct (if (0 <? _)%nat then _ else _) as [| z].
  - cbn. intros [= <-]. cbn. split; [apply NoDup_nil_2 |].
    intros p Hp. apply elem_of_nil in Hp. contradiction.
  - destruct (R2Bucket.list_loop _ _ _ _ _ _ _ _ w)
      as [[[[objs dps] c] | e] w1] eqn:Hl; [| discriminate].
    cbn. intros [= <-]. cbn. split.
    + exact (list_loop_NoDup _ _ _ _ _ _ _ _ _ _ _ _ _ Hl (NoDup_nil_2)).
    + intros p Hp.
      destruct (list_loop_prefixes _ _ _ _ _ _ _ _ _ _ _ _ _ Hw Hd Hl p Hp)
        as [H | H]; [apply elem_of_nil in H; contradiction | exact H].
Qed.

Lemma delimited_prefixes_group_stored_keys_witness :
  exists r,
    written_by_put three_keys
    /\ l_delimiter (default noListOptions (Some (list_delimited (js "/"))))
       = Some (js "/")
    /\ js "/" <> []
    /\ fst (R2Bucket.list (Some (list_delimited (js "/"))) three_keys) = Ok r
    /\ delimitedPrefixes r = [js "a/"]
    /\ NoDup (delimitedPrefixes r)
    /\ forall p,
         p ∈ delimitedPrefixes r ->
         groups_stored_key (entries three_keys) (js "") (js "/") p.
Proof.
  assert (exists r,
            fst (R2Bucket.list (Some (list_delimited (js "/"))) three_keys)
            = Ok r
            /\ delimitedPrefixes r = [js "a/"]) as (r & H & Hk)
    by (eexists; split; vm_compute; reflexivity).
  assert (Hw : written_by_put three_keys)
    by (repeat apply BucketProps.put_written;
        apply BucketProps.empty_world_written).
  assert (Hd : js "/" <> []) by discriminate.
  exists r. split; [exact Hw |]. split; [reflexivity |]. split; [exact Hd |].
  split; [exact H |]. split; [exact Hk |].
  exact (delimited_prefixes_group_stored_keys
           (Some (list_delimited (js "/"))) three_keys r (js "/")
           Hw eq_refl Hd H).
Defined.

(** *** The length of keys *)

Lemma utf8_code_point_length cp : (1 <= List.length (utf8_code_point cp))%nat.
Proof.
  unfold utf8_code_point.
  destruct (cp <? 128); [cbn; lia |].
  destruct (cp <? 2048); [cbn; lia |].
  destruct (cp <? 65536); cbn; lia.
Qed.

Lemma utf8_pair_length c d :
  is_high_surrogate c = true -> is_low_surrogate d = true ->
  List.length
    (utf8_code_point (0x10000 + Z.shiftl (c - 0xD800) 10 + (d - 0xDC00)))
  = 4%nat.
Proof.
  unfold is_high_surrogate, is_low_surrogate.
  rewrite !andb_true_iff, !Z.leb_le. intros [Hc _] [Hd _].
  assert (0 <= Z.shiftl (c - 0xD800) 10) by (apply Z.shiftl_nonneg; lia).
  unfold utf8_code_point.
  destruct (_ <? 128) eqn:H1; [apply Z.ltb_lt in H1; lia |].
  destruct (_ <? 2048) eqn:H2; [apply Z.ltb_lt in H2; lia |].
  destruct (_ <? 65536) eqn:H3; [apply Z.ltb_lt in H3; lia |].
  reflexivity.
Qed.

Lemma utf8_encode_length_bounded n (s : jsstring) :
  (List.length s <= n)%nat ->
  (List.length s <= List.length (utf8_encode s))%nat.
Proof.
  revert s. induction n as [| n IH]; intros s Hn.
  - destruct s; [cbn; lia | cbn in Hn; lia].
  - destruct s as [| c rest]; [cbn; lia |].
    cbn [utf8_encode]. cbn in Hn.
    pose proof (IH rest ltac:(lia)) as Hrest.
    destruct (is_high_surrogate c) eqn:Hc.
    + destruct rest as [| d rest']; [cbn; lia |].
      destruct (is_low_surrogate d) eqn:Hd.
      * cbn in Hn. pose proof (IH rest' ltac:(lia)).
        rewrite length_app, (utf8_pair_length c d Hc Hd). cbn. lia.
      * rewrite length_app. cbn in *. lia.
    + destruct (is_low_surrogate c); rewrite length_app;
        pose proof (utf8_code_point_length c); cbn in *; lia.
Qed.

Lemma utf8_encode_length (s : jsstring) :
  (List.length s <= List.length (utf8_encode s))%nat.
Proof. exact (utf8_encode_length_bounded (List.length s) s (le_n _)). Qed.

Lemma utf8_encode_ascii (s : jsstring) :
  ascii_only s -> utf8_encode s = map byte_of_Z s.
Proof.
  induction 1 as [| c s Hc _ IH]; [reflexivity |].
  cbn [utf8_encode map].
  assert (is_high_surrogate c = false) as ->.
  { unfold is_high_surrogate. apply andb_false_iff. left.
    apply Z.leb_gt. lia. }
  assert (is_low_surrogate c = false) as ->.
  { unfold is_low_surrogate. apply andb_false_iff. left.
    apply Z.leb_gt. lia. }
  unfold utf8_code_point.
  assert ((c <? 128) = true) as -> by (apply Z.ltb_lt; lia).
  cbn. rewrite IH. reflexivity.
Qed.

(** X11. The key length limit counts UTF-8 bytes, and a code unit never
    takes less than one byte: a key of more than 512 code units is refused
    with the 414 error of the method, whatever its characters. A key of
    ASCII characters takes one byte per character, so it is accepted
    exactly when it is not [""], ["."] or [".."] and has at most 512
    characters. *)
Theorem key_length_limit method (k : jsstring) :
  ((512 < List.length k)%nat ->
   exists message, validateKey method k = Throw (R2Error method 414 message))
  /\ (ascii_only k ->
      (validateKey method k = Ok tt
       <-> k <> js "" /\ k <> js "." /\ k <> js ".."
           /\ (List.length k <= 512)%nat)).
Proof.
  split.
  - intros Hl. unfold validateKey.
    do 3 (case_bool_decide as Hk; [subst k; cbn in Hl; lia | clear Hk]).
    cbn zeta. unfold byteLength, MAX_KEY_SIZE.
    pose proof (utf8_encode_length k).
    destruct (512 <? _) eqn:Hc; [| apply Z.ltb_ge in Hc; lia].
    eexists. reflexivity.
  - intros Ha. unfold validateKey.
    case_bool_decide as H1; [split; [discriminate | tauto] |].
    case_bool_decide as H2; [split; [discriminate | tauto] |].
    case_bool_decide as H3; [split; [discriminate | tauto] |].
    cbn zeta. unfold byteLength, MAX_KEY_SIZE.
    rewrite (utf8_encode_ascii k Ha), length_map.
    destruct (512 <? _) eqn:Hc.
    + apply Z.ltb_lt in Hc. split; [discriminate | lia].
    + apply Z.ltb_ge in Hc. split; [intros _ | reflexivity].
      repeat split; try assumption. lia.
Qed.

Lemma key_length_limit_witness :
  ((512 < List.length (repeat 97 513))%nat /\ ascii_only (js "a/b"))
  /\ (exists message,
        validateKey GET (repeat 97 513) = Throw (R2Error GET 414 message))
  /\ validateKey GET (js "a/b") = Ok tt.
Proof.
  assert (Hl : (512 < List.length (repeat 97 513))%nat)
    by (rewrite repeat_length; lia).
  assert (Ha : ascii_only (js "a/b"))
    by (repeat constructor; cbn; lia).
  split; [split; assumption |]. split.
  - exact (proj1 (key_length_limit GET (repeat 97 513)) Hl).
  - apply (proj2 (key_length_limit GET (js "a/b")) Ha).
    repeat split; try discriminate. cbn. lia.
Defined.

(** *** The errors of the gateway *)

Lemma validateKey_errors method k e :
  validateKey method k = Throw e ->
  InvalidInput e /\ e <> DigestNotValid.
Proof.
  unfold validateKey.
  do 3 (case_bool_decide; [intros [= <-]; split; [exact I | discriminate] |]).
  cbn zeta. destruct (_ <? _); [| discriminate].
  intros [= <-]. split; [cbn; lia | discriminate].
Qed.

Lemma validateOnlyIf_errors c e :
  validateOnlyIf c = Throw e -> BadRequest e /\ e <> DigestNotValid.
Proof.
  destruct c as [h | c]; [discriminate |]. unfold validateOnlyIf.
  repeat match goal with
         | |- context [if ?b then _ else _] => destruct b
         end;
    try discriminate; intros [= <-]; split; try reflexivity; discriminate.
Qed.

Lemma string_value_message_differs (k : jsstring) :
  k ++ js "'s value must be a string or undefined."
  <> js "The Content-MD5 you specified is not valid.".
Proof.
  intros H. apply (f_equal (@rev Z)) in H. rewrite rev_app_distr in H.
  cbn in H. discriminate.
Qed.

Lemma validateHttpEntries_errors es e :
  validateHttpEntries es = Throw e -> BadRequest e /\ e <> DigestNotValid.
Proof.
  induction es as [| [k v] es IH]; [discriminate |].
  cbn [validateHttpEntries].
  case_bool_decide.
  - destruct (negb (is_date v) && is_defined v); [| exact IH].
    intros [= <-]. split; [reflexivity | discriminate].
  - destruct (negb (is_string v) && is_defined v); [| exact IH].
    intros [= <-]. split; [reflexivity |].
    intros [= H']. exact (string_value_message_differs k H').
Qed.

Lemma validateCustomValues_errors es e :
  validateCustomValues es = Throw e -> BadRequest e /\ e <> DigestNotValid.
Proof.
  induction es as [| [k v] es IH]; [discriminate |].
  cbn [validateCustomValues].
  destruct (negb (is_string v)); [| exact IH].
  intros [= <-]. split; [reflexivity | discriminate].
Qed.

Lemma validateR2PutOptions_errors opts e :
  validateR2PutOptions opts = Throw e -> BadRequest e /\ e <> DigestNotValid.
Proof.
  unfold validateR2PutOptions. cbn zeta.
  destruct (validateOnlyIf _) as [[] | e1] eqn:H1;
    [| intros [= <-]; exact (validateOnlyIf_errors _ _ H1)].
  cbn.
  destruct (validateHttpMetadata _) as [[] | e2] eqn:H2.
  2: { intros [= <-]. unfold validateHttpMetadata in H2.
       destruct (put_httpMetadata opts) as [[h | o] |]; try discriminate.
       exact (validateHttpEntries_errors _ _ H2). }
  cbn.
  destruct (put_customMetadata opts) as [o |].
  - destruct (validateCustomValues o) as [[] | e3] eqn:H3;
      [| intros [= <-]; exact (validateCustomValues_errors _ _ H3)].
    cbn. destruct (_ && _); [| discriminate].
    intros [= <-]. split; [reflexivity | discriminate].
  - cbn. destruct (_ && _); [| discriminate].
    intros [= <-]. split; [reflexivity | discriminate].
Qed.


Lemma BadRequest_InvalidInput e : BadRequest e -> InvalidInput e.
Proof. destruct e; cbn; [tauto | lia]. Qed.

Lemma put_throws P fresh k v o w e :
  fst (R2Bucket.put P fresh k v o w) = Throw e ->
  InvalidInput e /\ e <> DigestNotValid.
Proof.
  assert (Ho : R2Bucket.put P fresh k v o w
               = R2Bucket.put P fresh k v (Some (default noPutOptions o)) w)
    by (destruct o; reflexivity).
  rewrite Ho. clear Ho.
  set (opts := default noPutOptions o). clearbody opts.
  destruct (validateKey PUT k) as [[] | e1] eqn:Hk.
  2: { unfold R2Bucket.put, mbind, M_bind, bind, lift. cbn zeta.
       rewrite Hk. cbn. intros [= <-].
       exact (validateKey_errors _ _ _ Hk). }
  destruct (validateR2PutOptions opts) as [[] | e2] eqn:Hv.
  2: { unfold R2Bucket.put, mbind, M_bind, bind, lift. cbn zeta.
       rewrite Hk. cbn [default id]. unfold id. rewrite Hv. cbn.
       intros [= <-].
       destruct (validateR2PutOptions_errors _ _ Hv) as [H1 H2].
       split; [exact (BadRequest_InvalidInput _ H1) | exact H2]. }
  rewrite (BucketProps.put_steps P fresh k v opts w Hk Hv).
  destruct (short_circuits P opts w k); [discriminate |].
  destruct (R2Bucket.toUint8Array v) as [bytes | e3] eqn:Hb.
  2: { cbn. intros [= <-]. destruct v; try discriminate.
       injection Hb as <-. split; [exact I | discriminate]. }
  destruct (MAX_VALUE_SIZE <? byteLength bytes).
  { cbn. intros [= <-]. split; [cbn; lia | discriminate]. }
  destruct (R2Bucket.md5_mismatch _ _); [| discriminate].
  cbn. intros [= <-]. split; [cbn; lia | discriminate].
Qed.








(** X13. The second test of the digest in [put], which would throw "The
    Content-MD5 you specified is not valid.", can never fire: a digest that
    is neither a string nor an [ArrayBuffer] has been refused by
    [validateR2PutOptions] before, with its own message. No [put] throws
    that error. *)
Theorem put_never_reports_digest_not_valid P fresh k v o w e :
  fst (R2Bucket.put P fresh k v o w) = Throw e -> e <> DigestNotValid.
Proof. intros H. exact (proj2 (put_throws P fresh k v o w e H)). Qed.

Lemma put_never_reports_digest_not_valid_witness :
  let e := R2Error PUT 400
             (js "md5 must be a string, ArrayBuffer, or undefined.") in
  fst (R2Bucket.put sample_platform sample_fresh (js "k") (PutString (js "hi"))
         (Some (put_with_md5 (VNumber (Num 1)))) empty_world) = Throw e
  /\ e <> DigestNotValid.
Proof.
  cbn zeta.
  assert (H : fst (R2Bucket.put sample_platform sample_fresh (js "k")
                     (PutString (js "hi"))
                     (Some (put_with_md5 (VNumber (Num 1)))) empty_world)
              = Throw (R2Error PUT 400
                         (js "md5 must be a string, ArrayBuffer, or undefined.")))
    by (vm_compute; reflexivity).
  split; [exact H |].
  exact (put_never_reports_digest_not_valid sample_platform sample_fresh
           (js "k") (PutString (js "hi"))
           (Some (put_with_md5 (VNumber (Num 1)))) empty_world _ H).
Defined.

End BucketMore.

(** * Further properties of the file-system storage *)

Module FileMore.
Import JS FS FileTerms MoreFileTerms.

Lemma put_run {Meta} (R : Runtime Meta) this key stored fs p :
  fst (FileStorage.keyPath R this key) = Some p ->
  p <> [] ->
  FileStorage.put R this key stored fs
  = if above_parent_is_a_file fs p
    then (Throw (SystemError (js "ENOTDIR")), fs)
    else if parent_is_a_file fs p
    then (Throw (NamespaceKeyChild key), fs)
    else (Ok tt,
          after_write R key stored (snd (FileStorage.keyPath R this key)) p fs).
Proof.
  unfold FileStorage.put, after_write, has_sidecar, sidecar_bytes,
    sidecar_record.
  destruct (FileStorage.keyPath R this key) as [filePath sanitised].
  cbn [fst snd]. intros -> Hp.
  cbn [FileStorage.no_path]. rewrite bool_decide_eq_false_2 by exact Hp.
  cbn [default from_option]. unfold id.
  unfold mbind at 1, M_bind at 1, try_catch, writeFile at 1.
  destruct (above_parent_is_a_file fs p) eqn:Ha; [reflexivity |].
  destruct (parent_is_a_file fs p) eqn:Hd; [reflexivity |].
  assert (Hb : below_a_file fs p = false)
    by (rewrite FileProps.below_a_file_split, Ha, Hd; reflexivity).
  destruct (_ || sanitised).
  - rewrite FileProps.writeFile_clear; [reflexivity |].
    rewrite FileProps.below_a_file_sidecar.
    rewrite FileProps.below_a_file_insert by lia. exact Hb.
  - unfold mbind, M_bind, deleteFile.
    rewrite FileProps.below_a_file_sidecar.
    rewrite FileProps.below_a_file_insert by lia. rewrite Hb. reflexivity.
Qed.

Lemma get_run_absent {Meta} (R : Runtime Meta) this key fs p :
  fst (FileStorage.keyPath R this key) = Some p ->
  below_a_file fs p = true \/ fs !! p = None ->
  FileStorage.getMaybeExpired R this key fs = (Ok None, fs).
Proof.
  unfold FileStorage.getMaybeExpired.
  destruct (FileStorage.keyPath R this key) as [filePath sanitised].
  cbn [fst]. intros -> H.
  cbn [FileStorage.no_path]. case_bool_decide as Hp; [reflexivity |].
  cbn [default from_option]. unfold id.
  unfold try_catch, mbind, M_bind, readFile at 1.
  destruct (below_a_file fs p) eqn:Hb; [reflexivity |].
  destruct H as [H | H]; [discriminate |]. rewrite H. reflexivity.
Qed.

Lemma delete_run {Meta} (R : Runtime Meta) this key fs p :
  fst (FileStorage.keyPath R this key) = Some p ->
  p <> [] ->
  FileStorage.deleteMaybeExpired R this key fs
  = if below_a_file fs p then (Ok false, fs)
    else (Ok (bool_decide (is_Some (fs !! p))),
          delete (p ++ metaSuffix) (delete p fs)).
Proof.
  unfold FileStorage.deleteMaybeExpired.
  destruct (FileStorage.keyPath R this key) as [filePath sanitised].
  cbn [fst]. intros -> Hp.
  cbn [FileStorage.no_path]. rewrite bool_decide_eq_false_2 by exact Hp.
  cbn [default from_option]. unfold id.
  unfold try_catch, mbind, M_bind, deleteFile.
  destruct (below_a_file fs p) eqn:Hb; [reflexivity |].
  rewrite FileProps.below_a_file_sidecar.
  rewrite FileProps.below_a_file_delete by lia. rewrite Hb. reflexivity.
Qed.

Lemma after_write_value {Meta} (R : Runtime Meta) key
    (stored : StoredValueMeta Meta) san p fs :
  after_write R key stored san p fs !! p = Some (value stored).
Proof.
  unfold after_write. destruct (has_sidecar stored san).
  - rewrite lookup_insert_ne by (apply not_eq_sym, FileProps.sidecar_differs).
    apply lookup_insert_eq.
  - rewrite lookup_delete_ne by (apply not_eq_sym, FileProps.sidecar_differs).
    apply lookup_insert_eq.
Qed.

Lemma after_write_sidecar {Meta} (R : Runtime Meta) key
    (stored : StoredValueMeta Meta) san p fs :
  after_write R key stored san p fs !! (p ++ metaSuffix)
  = if has_sidecar stored san then Some (sidecar_bytes R key stored) else None.
Proof.
  unfold after_write. destruct (has_sidecar stored san).
  - apply lookup_insert_eq.
  - apply lookup_delete_eq.
Qed.

Lemma after_write_below {Meta} (R : Runtime Meta) key
    (stored : StoredValueMeta Meta) san p fs q :
  (List.length q <= List.length p)%nat ->
  below_a_file (after_write R key stored san p fs) q = below_a_file fs q.
Proof.
  intros Hq. unfold after_write. destruct (has_sidecar stored san).
  - rewrite !FileProps.below_a_file_insert; [reflexivity | lia |].
    rewrite length_app. lia.
  - rewrite FileProps.below_a_file_delete by (rewrite length_app; lia).
    rewrite FileProps.below_a_file_insert by lia. reflexivity.
Qed.

Lemma after_write_other {Meta} (R : Runtime Meta) key
    (stored : StoredValueMeta Meta) san p fs q :
  q <> p -> q <> p ++ metaSuffix ->
  after_write R key stored san p fs !! q = fs !! q.
Proof.
  intros H1 H2. unfold after_write. destruct (has_sidecar stored san).
  - rewrite !lookup_insert_ne by congruence. reflexivity.
  - rewrite lookup_delete_ne by congruence.
    rewrite lookup_insert_ne by congruence. reflexivity.
Qed.

Lemma put_ok_run {Meta} (R : Runtime Meta) this key stored fs fs' :
  FileStorage.put R this key stored fs = (Ok tt, fs') ->
  exists p,
    fst (FileStorage.keyPath R this key) = Some p
    /\ p <> []
    /\ below_a_file fs p = false
    /\ fs' = after_write R key stored
               (snd (FileStorage.keyPath R this key)) p fs.
Proof.
  intros H.
  destruct (FileProps.put_ok_inv R this key stored fs fs' H)
    as (p & Hk & Hp & _ & _).
  rewrite (put_run R this key stored fs p Hk Hp) in H.
  destruct (above_parent_is_a_file fs p) eqn:Ha; [discriminate |].
  destruct (parent_is_a_file fs p) eqn:Hd; [discriminate |].
  assert (Hb : below_a_file fs p = false)
    by (rewrite FileProps.below_a_file_split, Ha, Hd; reflexivity).
  injection H as <-. exists p. repeat split; assumption || reflexivity.
Qed.

(** *** Round trips *)

(** X14. What [put] stored, [getMaybeExpired] returns. After a [put] that
    succeeded, from whatever files there were before: when the value has
    no expiration and no metadata and the key was not changed by the
    sanitiser, the sidecar is gone and the record read back is the one
    that was put; otherwise the sidecar holds the record, and the record
    read back is the one that was put provided the sidecar record survives
    the trip through JSON text and UTF-8. *)
Theorem stored_value_round_trip {Meta} (R : Runtime Meta) this key stored
    fs fs' :
  FileStorage.put R this key stored fs = (Ok tt, fs') ->
  (has_sidecar stored (snd (FileStorage.keyPath R this key)) = true ->
   json_round_trips R (sidecar_record key stored)) ->
  FileStorage.getMaybeExpired R this key fs' = (Ok (Some stored), fs').
Proof.
  intros H Hj.
  apply put_ok_run in H as (p & Hk & Hp & Hb & ->).
  set (san := snd (FileStorage.keyPath R this key)) in *.
  rewrite (FileProps.getMaybeExpired_steps R this key p (value stored));
    [| exact Hk | exact Hp
     | rewrite after_write_below by lia; exact Hb
     | apply after_write_value].
  rewrite after_write_sidecar.
  destruct (has_sidecar stored san) eqn:Hs.
  - destruct (Hj eq_refl) as [Hne Hparse]. unfold sidecar_bytes.
    rewrite bool_decide_eq_false_2 by exact Hne.
    rewrite Hparse. destruct stored; reflexivity.
  - unfold has_sidecar in Hs.
    apply orb_false_iff in Hs as [Hs _]. apply orb_false_iff in Hs as [He Hm].
    destruct stored as [v [e |] [m |]]; cbn in He, Hm;
      try (rewrite bool_decide_eq_true_2 in He by (eexists; reflexivity));
      try (rewrite bool_decide_eq_true_2 in Hm by (eexists; reflexivity));
      try discriminate.
    reflexivity.
Qed.

Lemma stored_value_round_trip_witness :
  let fs' := after_write compact_runtime (js "k") (expiring [x34]) false
               (js "/tmp/store/k") ∅ in
  FileStorage.put compact_runtime unsanitised_store (js "k") (expiring [x34]) ∅
  = (Ok tt, fs')
  /\ json_round_trips compact_runtime (sidecar_record (js "k") (expiring [x34]))
  /\ FileStorage.getMaybeExpired compact_runtime unsanitised_store (js "k") fs'
     = (Ok (Some (expiring [x34])), fs').
Proof.
  cbn zeta.
  assert (Hp : FileStorage.put compact_runtime unsanitised_store (js "k")
                 (expiring [x34]) ∅
               = (Ok tt,
                  after_write compact_runtime (js "k") (expiring [x34]) false
                    (js "/tmp/store/k") ∅))
    by (vm_compute; reflexivity).
  assert (Hj : json_round_trips compact_runtime
                 (sidecar_record (js "k") (expiring [x34])))
    by (split; [discriminate | reflexivity]).
  split; [exact Hp |]. split; [exact Hj |].
  exact (stored_value_round_trip compact_runtime unsanitised_store (js "k")
           (expiring [x34]) ∅ _ Hp (fun _ => Hj)).
Defined.

(** *** A key below a key *)







(** X16. Deleting what was put. After a [put] that succeeded,
    [deleteMaybeExpired] of the key answers [true] and removes the value
    file and the sidecar; the key then reads as absent, and a second
    [deleteMaybeExpired] answers [false]. *)
Theorem delete_after_put {Meta} (R : Runtime Meta) this key stored fs fs' :
  FileStorage.put R this key stored fs = (Ok tt, fs') ->
  exists p fs'',
    fst (FileStorage.keyPath R this key) = Some p
    /\ FileStorage.deleteMaybeExpired R this key fs' = (Ok true, fs'')
    /\ fs'' !! p = None
    /\ fs'' !! (p ++ metaSuffix) = None
    /\ FileStorage.getMaybeExpired R this key fs'' = (Ok None, fs'')
    /\ FileStorage.deleteMaybeExpired R this key fs'' = (Ok false, fs'').
Proof.
  intros H.
  destruct (FileProps.put_ok_inv R this key stored fs fs' H)
    as (p & Hk & Hp & Hv & Hb).
  exists p, (delete (p ++ metaSuffix) (delete p fs')).
  assert (H1 : delete (p ++ metaSuffix) (delete p fs') !! p = None).
  { rewrite lookup_delete_ne by (apply not_eq_sym, FileProps.sidecar_differs).
    apply lookup_delete_eq. }
  assert (H2 : delete (p ++ metaSuffix) (delete p fs') !! (p ++ metaSuffix)
               = None) by apply lookup_delete_eq.
  assert (Hb' : below_a_file (delete (p ++ metaSuffix) (delete p fs')) p
                = false).
  { rewrite FileProps.below_a_file_delete by (rewrite length_app; lia).
    rewrite FileProps.below_a_file_delete by lia. exact Hb. }
  split; [exact Hk |].
  rewrite (delete_run R this key fs' p Hk Hp), Hb, Hv.
  rewrite bool_decide_eq_true_2 by (eexists; reflexivity).
  split; [reflexivity |]. split; [exact H1 |]. split; [exact H2 |].
  rewrite (get_run_absent R this key _ p Hk (or_intror H1)).
  split; [reflexivity |].
  rewrite (delete_run R this key _ p Hk Hp), Hb', H1.
  rewrite bool_decide_eq_false_2 by (intros [x [=]]).
  set (X := delete (p ++ metaSuffix) (delete p fs')) in *.
  rewrite (delete_id X p) by exact H1.
  rewrite (delete_id X (p ++ metaSuffix)) by exact H2. reflexivity.
Qed.

Lemma delete_after_put_witness :
  exists p fs'',
    FileStorage.put compact_runtime unsanitised_store (js "k") (expiring [x34]) ∅
    = (Ok tt,
       after_write compact_runtime (js "k") (expiring [x34]) false
         (js "/tmp/store/k") ∅)
    /\ fst (FileStorage.keyPath compact_runtime unsanitised_store (js "k"))
       = Some p
    /\ FileStorage.deleteMaybeExpired compact_runtime unsanitised_store (js "k")
         (after_write compact_runtime (js "k") (expiring [x34]) false
            (js "/tmp/store/k") ∅)
       = (Ok true, fs'')
    /\ fs'' !! p = None
    /\ fs'' !! (p ++ metaSuffix) = None
    /\ FileStorage.getMaybeExpired compact_runtime unsanitised_store (js "k")
         fs'' = (Ok None, fs'')
    /\ FileStorage.deleteMaybeExpired compact_runtime unsanitised_store
         (js "k") fs'' = (Ok false, fs'').
Proof.
  assert (Hp : FileStorage.put compact_runtime unsanitised_store (js "k")
                 (expiring [x34]) ∅
               = (Ok tt,
                  after_write compact_runtime (js "k") (expiring [x34]) false
                    (js "/tmp/store/k") ∅))
    by (vm_compute; reflexivity).
  destruct (delete_after_put compact_runtime unsanitised_store (js "k")
              (expiring [x34]) ∅ _ Hp) as (p & fs'' & H).
  exists p, fs''. split; [exact Hp | exact H].
Defined.

(** *** What the methods touch *)

Lemma meta_keeps_files {Meta} (R : Runtime Meta) p fs :
  snd (FileStorage.meta R p fs) = fs.
Proof.
  unfold FileStorage.meta, mbind, M_bind, readFile.
  destruct (below_a_file fs _); [reflexivity |].
  destruct (fs !! _) as [b |]; [| reflexivity].
  case_bool_decide; [reflexivity |].
  destruct (JSON_parse R _); reflexivity.
Qed.

(** X17. The reading methods write nothing: whatever the key and the
    files, and whether they return or throw, [getMaybeExpired] and
    [getAlarm] leave every file as it is. *)
Theorem reading_methods_keep_files {Meta} (R : Runtime Meta) this key fs :
  snd (FileStorage.getMaybeExpired R this key fs) = fs
  /\ snd (FileStorage.getAlarm R this fs) = fs.
Proof.
  split.
  - unfold FileStorage.getMaybeExpired.
    destruct (FileStorage.keyPath R this key) as [filePath sanitised].
    destruct (FileStorage.no_path filePath); [reflexivity |].
    unfold try_catch, mbind, M_bind, readFile.
    destruct (below_a_file fs _); [reflexivity |].
    destruct (fs !! _) as [b |]; [| reflexivity].
    pose proof (meta_keeps_files R (default [] filePath) fs) as Hm.
    destruct (FileStorage.meta R (default [] filePath) fs) as [[m | e] fs1];
      cbn in Hm; subst fs1; [reflexivity |].
    unfold FileStorage.not_found_if_ENOTDIR.
    destruct (has_code e _); reflexivity.
  - unfold FileStorage.getAlarm.
    destruct (FileStorage.keyPath R this ALARM_KEY) as [filePath sanitised].
    destruct (FileStorage.no_path filePath); [reflexivity |].
    unfold try_catch, mbind, M_bind, readFile.
    destruct (below_a_file fs _); [reflexivity |].
    destruct (fs !! _) as [b |]; reflexivity.
Qed.

Lemma path_cases {Meta} (R : Runtime Meta) this key :
  FileStorage.no_path (fst (FileStorage.keyPath R this key)) = true
  \/ exists p, fst (FileStorage.keyPath R this key) = Some p /\ p <> [].
Proof.
  destruct (fst (FileStorage.keyPath R this key)) as [p |];
    [| left; reflexivity].
  cbn. case_bool_decide; [left; reflexivity | right].
  exists p. split; [reflexivity | assumption].
Qed.

Lemma setAlarm_run {Meta} (R : Runtime Meta) this t fs p :
  alarm_path R this = Some p ->
  p <> [] ->
  FileStorage.setAlarm R this t fs
  = if above_parent_is_a_file fs p
    then (Throw (SystemError (js "ENOTDIR")), fs)
    else if parent_is_a_file fs p
    then (Throw (NamespaceKeyChild ALARM_KEY), fs)
    else (Ok tt, <[p := utf8_encode (toString R t)]> fs).
Proof.
  unfold alarm_path, FileStorage.setAlarm.
  destruct (FileStorage.keyPath R this ALARM_KEY) as [filePath sanitised].
  cbn [fst]. intros -> Hp.
  cbn [FileStorage.no_path]. rewrite bool_decide_eq_false_2 by exact Hp.
  cbn [default from_option]. unfold id.
  unfold try_catch, writeFile.
  destruct (above_parent_is_a_file fs p); [reflexivity |].
  destruct (parent_is_a_file fs p); reflexivity.
Qed.

Lemma deleteAlarm_run {Meta} (R : Runtime Meta) this fs p :
  alarm_path R this = Some p ->
  p <> [] ->
  FileStorage.deleteAlarm R this fs
  = if below_a_file fs p then (Ok tt, fs)
    else (Ok tt, delete (p ++ metaSuffix) (delete p fs)).
Proof.
  unfold alarm_path, FileStorage.deleteAlarm.
  destruct (FileStorage.keyPath R this ALARM_KEY) as [filePath sanitised].
  cbn [fst]. intros -> Hp.
  cbn [FileStorage.no_path]. rewrite bool_decide_eq_false_2 by exact Hp.
  cbn [default from_option]. unfold id.
  unfold try_catch, mbind, M_bind, deleteFile.
  destruct (below_a_file fs p) eqn:Hb; [reflexivity |].
  rewrite FileProps.below_a_file_sidecar.
  rewrite FileProps.below_a_file_delete by lia. rewrite Hb. reflexivity.
Qed.

Lemma no_alarm_path {Meta} (R : Runtime Meta) this t fs :
  FileStorage.no_path (alarm_path R this) = true ->
  FileStorage.setAlarm R this t fs = (Throw FileStorage.traversal_error, fs)
  /\ FileStorage.deleteAlarm R this fs = (Ok tt, fs)
  /\ FileStorage.getAlarm R this fs = (Ok None, fs).
Proof.
  unfold alarm_path, FileStorage.setAlarm, FileStorage.deleteAlarm,
    FileStorage.getAlarm.
  destruct (FileStorage.keyPath R this ALARM_KEY) as [filePath sanitised].
  cbn [fst]. intros ->. repeat split.
Qed.

(** X18. The writing methods touch two files at most. [put] and
    [deleteMaybeExpired] of a key leave every file other than the value
    file of the key and its sidecar as it was, whether they return or
    throw; [setAlarm] and [deleteAlarm] do the same for the files of the
    alarm key, and [setAlarm] also leaves the sidecar as it was. When the
    key has no path inside the root, nothing changes at all. *)
Theorem writing_methods_touch_only_the_key_files {Meta} (R : Runtime Meta)
    this fs q :
  (forall key stored,
     (forall p, fst (FileStorage.keyPath R this key) = Some p ->
                q <> p /\ q <> p ++ metaSuffix) ->
     snd (FileStorage.put R this key stored fs) !! q = fs !! q
     /\ snd (FileStorage.deleteMaybeExpired R this key fs) !! q = fs !! q)
  /\ (forall t,
        (forall p, alarm_path R this = Some p -> q <> p) ->
        snd (FileStorage.setAlarm R this t fs) !! q = fs !! q)
  /\ ((forall p, alarm_path R this = Some p ->
                 q <> p /\ q <> p ++ metaSuffix) ->
      snd (FileStorage.deleteAlarm R this fs) !! q = fs !! q).
Proof.
  split; [| split].
  - intros key stored Hq.
    destruct (path_cases R this key) as [Hn | (p & Hk & Hp)].
    + destruct (FileProps.no_path_rejected R this key stored fs Hn)
        as (-> & _ & ->). split; reflexivity.
    + destruct (Hq p Hk) as [Hq1 Hq2].
      rewrite (put_run R this key stored fs p Hk Hp),
        (delete_run R this key fs p Hk Hp).
      split.
      * destruct (above_parent_is_a_file fs p); [reflexivity |].
        destruct (parent_is_a_file fs p); [reflexivity |].
        cbn [snd]. apply after_write_other; assumption.
      * destruct (below_a_file fs p); cbn [snd]; [reflexivity |].
        rewrite !lookup_delete_ne by congruence. reflexivity.
  - intros t Hq.
    destruct (path_cases R this ALARM_KEY) as [Hn | (p & Hk & Hp)].
    + destruct (no_alarm_path R this t fs Hn) as (-> & _). reflexivity.
    + rewrite (setAlarm_run R this t fs p Hk Hp).
      destruct (above_parent_is_a_file fs p); [reflexivity |].
      destruct (parent_is_a_file fs p); [reflexivity |].
      cbn [snd].
      rewrite lookup_insert_ne by (apply not_eq_sym, (Hq p Hk)). reflexivity.
  - intros Hq.
    destruct (path_cases R this ALARM_KEY) as [Hn | (p & Hk & Hp)].
    + destruct (no_alarm_path R this NaN fs Hn) as (_ & -> & _). reflexivity.
    + destruct (Hq p Hk) as [Hq1 Hq2].
      rewrite (deleteAlarm_run R this fs p Hk Hp).
      destruct (below_a_file fs p); cbn [snd]; [reflexivity |].
      rewrite !lookup_delete_ne by congruence. reflexivity.
Qed.

Lemma writing_methods_touch_only_the_key_files_witness :
  let fs : Files := {[ js "/tmp/store/other" := [x31] ]} in
  (forall p,
     fst (FileStorage.keyPath sample_runtime unsanitised_store (js "k"))
     = Some p ->
     js "/tmp/store/other" <> p /\ js "/tmp/store/other" <> p ++ metaSuffix)
  /\ snd (FileStorage.put sample_runtime unsanitised_store (js "k")
            (plain [x32]) fs) !! js "/tmp/store/other" = Some [x31]
  /\ snd (FileStorage.deleteMaybeExpired sample_runtime unsanitised_store
            (js "k") fs) !! js "/tmp/store/other" = Some [x31].
Proof.
  cbn zeta.
  assert (Hq : forall p,
             fst (FileStorage.keyPath sample_runtime unsanitised_store (js "k"))
             = Some p ->
             js "/tmp/store/other" <> p
             /\ js "/tmp/store/other" <> p ++ metaSuffix)
    by (intros p [= <-]; split; discriminate).
  split; [exact Hq |].
  destruct (proj1 (writing_methods_touch_only_the_key_files sample_runtime
                     unsanitised_store {[ js "/tmp/store/other" := [x31] ]}
                     (js "/tmp/store/other"))
              (js "k") (plain [x32]) Hq) as [H1 H2].
  rewrite H1, H2. split; apply lookup_singleton_eq.
Defined.

(** *** The alarm *)

(** X19. The alarm round trip. After a [setAlarm] that succeeded,
    [getAlarm] returns the number read from the text of the scheduled
    time, and the sidecar of the alarm key is what it was before; a
    [deleteAlarm] then removes both files of the alarm key and [getAlarm]
    returns [null]. *)
Theorem alarm_round_trip {Meta} (R : Runtime Meta) this t fs fs' :
  FileStorage.setAlarm R this t fs = (Ok tt, fs') ->
  exists p fs'',
    alarm_path R this = Some p
    /\ FileStorage.getAlarm R this fs'
       = (Ok (Some (toNumber R (utf8_decode R (utf8_encode (toString R t))))),
          fs')
    /\ fs' !! (p ++ metaSuffix) = fs !! (p ++ metaSuffix)
    /\ FileStorage.deleteAlarm R this fs' = (Ok tt, fs'')
    /\ fs'' !! p = None
    /\ fs'' !! (p ++ metaSuffix) = None
    /\ FileStorage.getAlarm R this fs'' = (Ok None, fs'').
Proof.
  intros H.
  apply FileProps.setAlarm_ok_inv in H as (p & Hk & Hp & Hb & ->).
  exists p, (delete (p ++ metaSuffix)
               (delete p (<[p := utf8_encode (toString R t)]> fs))).
  assert (Hb' : below_a_file (<[p := utf8_encode (toString R t)]> fs) p = false)
    by (rewrite FileProps.below_a_file_insert by lia; exact Hb).
  split; [exact Hk |]. split.
  { apply (FileProps.getAlarm_reads R this p); try assumption.
    apply lookup_insert_eq. }
  split.
  { apply lookup_insert_ne, FileProps.sidecar_differs. }
  rewrite (deleteAlarm_run R this _ p Hk Hp), Hb'.
  split; [reflexivity |].
  assert (H1 : delete (p ++ metaSuffix)
                 (delete p (<[p := utf8_encode (toString R t)]> fs)) !! p
               = None).
  { rewrite lookup_delete_ne by (apply not_eq_sym, FileProps.sidecar_differs).
    apply lookup_delete_eq. }
  split; [exact H1 |]. split; [apply lookup_delete_eq |].
  unfold FileStorage.getAlarm. unfold alarm_path in Hk.
  destruct (FileStorage.keyPath R this ALARM_KEY) as [filePath sanitised].
  cbn [fst] in Hk. subst filePath.
  cbn [FileStorage.no_path]. rewrite bool_decide_eq_false_2 by exact Hp.
  cbn [default from_option]. unfold id.
  unfold try_catch, mbind, M_bind, readFile.
  rewrite FileProps.below_a_file_delete by (rewrite length_app; lia).
  rewrite FileProps.below_a_file_delete by lia.
  rewrite Hb', H1. reflexivity.
Qed.

Lemma alarm_round_trip_witness :
  exists p fs'',
    FileStorage.setAlarm sample_runtime unsanitised_store (Num 1234) ∅
    = (Ok tt, after_setAlarm)
    /\ alarm_path sample_runtime unsanitised_store = Some p
    /\ FileStorage.getAlarm sample_runtime unsanitised_store after_setAlarm
       = (Ok (Some (toNumber sample_runtime
                      (utf8_decode sample_runtime
                         (utf8_encode (toString sample_runtime (Num 1234)))))),
          after_setAlarm)
    /\ after_setAlarm !! (p ++ metaSuffix) = (∅ : Files) !! (p ++ metaSuffix)
    /\ FileStorage.deleteAlarm sample_runtime unsanitised_store after_setAlarm
       = (Ok tt, fs'')
    /\ fs'' !! p = None
    /\ fs'' !! (p ++ metaSuffix) = None
    /\ FileStorage.getAlarm sample_runtime unsanitised_store fs''
       = (Ok None, fs'').
Proof.
  assert (Hs : FileStorage.setAlarm sample_runtime unsanitised_store
                 (Num 1234) ∅ = (Ok tt, after_setAlarm))
    by (vm_compute; reflexivity).
  destruct (alarm_round_trip sample_runtime unsanitised_store (Num 1234) ∅
              after_setAlarm Hs) as (p & fs'' & H).
  exists p, fs''. split; [exact Hs | exact H].
Defined.

(** *** Sidecars as keys *)

(** X20. A sidecar is not set apart from the values: when the path of the
    key [key ++ ".meta.json"] is the path of the sidecar of [key], a [put]
    of [key] that writes a sidecar makes [key ++ ".meta.json"] a key,
    whose value [getMaybeExpired] reads as the JSON text of the sidecar
    record of [key]. *)
Theorem sidecar_reads_as_a_key {Meta} (R : Runtime Meta) this key stored
    fs fs' p :
  FileStorage.put R this key stored fs = (Ok tt, fs') ->
  has_sidecar stored (snd (FileStorage.keyPath R this key)) = true ->
  fst (FileStorage.keyPath R this key) = Some p ->
  fst (FileStorage.keyPath R this (key ++ metaSuffix))
  = Some (p ++ metaSuffix) ->
  forall r,
    fst (FileStorage.getMaybeExpired R this (key ++ metaSuffix) fs') = Ok r ->
    exists s, r = Some s /\ value s = sidecar_bytes R key stored.
Proof.
  intros H Hs Hk Hk2.
  apply put_ok_run in H as (p' & Hk' & Hp & Hb & ->).
  rewrite Hk in Hk'. injection Hk' as <-.
  apply (FileProps.getMaybeExpired_reads R this (key ++ metaSuffix)
           (p ++ metaSuffix)).
  - exact Hk2.
  - destruct p; [contradiction | discriminate].
  - rewrite FileProps.below_a_file_sidecar.
    rewrite after_write_below by lia. exact Hb.
  - rewrite after_write_sidecar, Hs. reflexivity.
Qed.

Lemma sidecar_reads_as_a_key_witness :
  let fs' := after_write compact_runtime (js "k") (expiring [x34]) false
               (js "/tmp/store/k") ∅ in
  (FileStorage.put compact_runtime unsanitised_store (js "k") (expiring [x34]) ∅
   = (Ok tt, fs')
   /\ has_sidecar (expiring [x34])
        (snd (FileStorage.keyPath compact_runtime unsanitised_store (js "k")))
      = true
   /\ fst (FileStorage.keyPath compact_runtime unsanitised_store (js "k"))
      = Some (js "/tmp/store/k")
   /\ fst (FileStorage.keyPath compact_runtime unsanitised_store
             (js "k" ++ metaSuffix))
      = Some (js "/tmp/store/k" ++ metaSuffix))
  /\ exists s,
       fst (FileStorage.getMaybeExpired compact_runtime unsanitised_store
              (js "k" ++ metaSuffix) fs') = Ok (Some s)
       /\ value s = sidecar_bytes compact_runtime (js "k") (expiring [x34]).
Proof.
  cbn zeta.
  assert (Hp : FileStorage.put compact_runtime unsanitised_store (js "k")
                 (expiring [x34]) ∅
               = (Ok tt,
                  after_write compact_runtime (js "k") (expiring [x34]) false
                    (js "/tmp/store/k") ∅))
    by (vm_compute; reflexivity).
  split; [repeat split; assumption || reflexivity |].
  assert (exists r,
            fst (FileStorage.getMaybeExpired compact_runtime unsanitised_store
                   (js "k" ++ metaSuffix)
                   (after_write compact_runtime (js "k") (expiring [x34]) false
                      (js "/tmp/store/k") ∅)) = Ok r) as [r Hr]
    by (eexists; vm_compute; reflexivity).
  destruct (sidecar_reads_as_a_key compact_runtime unsanitised_store (js "k")
              (expiring [x34]) ∅ _ (js "/tmp/store/k") Hp eq_refl eq_refl
              eq_refl r Hr) as (s & -> & Hv).
  exists s. split; [exact Hr | exact Hv].
Defined.

(** *** The enumeration *)

Lemma walk_elem (dir : jsstring) (fs : Files) (p : jsstring) :
  p ∈ List.filter (startsWith (dir ++ js "/")) (map fst (map_to_list fs))
  <-> is_Some (fs !! p) /\ startsWith (dir ++ js "/") p = true.
Proof.
  rewrite list_elem_of_In, filter_In, <- list_elem_of_In.
  change (map fst (map_to_list fs)) with (fst <$> map_to_list fs).
  rewrite list_elem_of_fmap. split.
  - intros [([q b] & -> & Hin) Hs]. split; [| exact Hs].
    apply elem_of_map_to_list in Hin. cbn. rewrite Hin. eexists. reflexivity.
  - intros [[b Hb] Hs]. split; [| exact Hs].
    exists (p, b). split; [reflexivity |].
    apply elem_of_map_to_list. exact Hb.
Qed.

Lemma list_paths_inv {Meta} (R : Runtime Meta) this paths keys fs r fs' :
  FileListing.list_paths R this paths keys fs = (Ok r, fs') ->
  fs' = fs
  /\ (forall e, e ∈ keys -> e ∈ r)
  /\ (forall p m,
        p ∈ paths -> endsWith metaSuffix p = false ->
        fst (FileStorage.meta R p fs) = Ok m ->
        {| FileListing.name :=
             default (slice (List.length (root this) + 1) p) (meta_key m);
           FileListing.key_expiration := meta_expiration m;
           FileListing.key_metadata := meta_metadata m |} ∈ r).
Proof.
  revert keys fs. induction paths as [| q paths IH]; intros keys fs.
  - cbn. intros [= <- <-]. split; [reflexivity |]. split; [tauto |].
    intros p m Hin. apply elem_of_nil in Hin. contradiction.
  - cbn [FileListing.list_paths].
    destruct (endsWith metaSuffix q) eqn:Hq.
    + intros H. destruct (IH _ _ H) as (-> & Hk & Hl).
      split; [reflexivity |]. split; [exact Hk |].
      intros p m Hin Hp Hm. apply elem_of_cons in Hin as [-> | Hin];
        [congruence | exact (Hl p m Hin Hp Hm)].
    + intros H. apply FileProps.fs_bind_inv in H as (mq & fs1 & Hmq & H).
      pose proof (meta_keeps_files R q fs) as Hsame.
      rewrite Hmq in Hsame. cbn in Hsame. subst fs1.
      destruct (IH _ _ H) as (-> & Hk & Hl).
      split; [reflexivity |]. split.
      * intros e He. apply Hk, elem_of_app. left. exact He.
      * intros p m Hin Hp Hm. apply elem_of_cons in Hin as [-> | Hin];
          [| exact (Hl p m Hin Hp Hm)].
        rewrite Hmq in Hm. injection Hm as <-.
        apply Hk, elem_of_app. right. apply list_elem_of_singleton.
        reflexivity.
Qed.

Lemma list_paths_sidecars_only {Meta} (R : Runtime Meta) this paths keys fs :
  Forall (fun p => endsWith metaSuffix p = true) paths ->
  FileListing.list_paths R this paths keys fs = (Ok keys, fs).
Proof.
  induction 1 as [| p paths Hp _ IH]; [reflexivity |].
  cbn [FileListing.list_paths]. rewrite Hp. exact IH.
Qed.

(** X21. The enumeration recovers the key from the sidecar. After a [put]
    that succeeded and wrote a sidecar, for a key whose file lies below
    the root and is not named like a sidecar, and whose sidecar record
    survives the trip through JSON text and UTF-8: an enumeration that
    succeeds shows the key under the name it was put with, whatever the
    sanitiser made of it, together with the expiration and the metadata
    that were put. *)
Theorem enumeration_recovers_the_key {Meta} (R : Runtime Meta) this key
    stored fs fs' p keys :
  FileStorage.put R this key stored fs = (Ok tt, fs') ->
  has_sidecar stored (snd (FileStorage.keyPath R this key)) = true ->
  json_round_trips R (sidecar_record key stored) ->
  fst (FileStorage.keyPath R this key) = Some p ->
  startsWith (root this ++ js "/") p = true ->
  endsWith metaSuffix p = false ->
  fst (FileListing.listAllMaybeExpired R this fs') = Ok keys ->
  listed_as key stored ∈ keys.
Proof.
  intros H Hs [Hne Hparse] Hk Hroot Hend.
  apply put_ok_run in H as (p' & Hk' & Hp & Hb & ->).
  rewrite Hk in Hk'. injection Hk' as <-.
  set (fs' := after_write R key stored _ p fs).
  unfold FileListing.listAllMaybeExpired, mbind, M_bind, FileListing.walk.
  destruct (FileListing.list_paths R this _ [] fs') as [[r | e] fs1] eqn:Hl;
    [| discriminate].
  cbn. intros [= <-].
  destruct (list_paths_inv R this _ _ _ _ _ Hl) as (_ & _ & Hin).
  apply (Hin p (sidecar_record key stored)).
  - apply walk_elem. split; [| exact Hroot].
    subst fs'. rewrite after_write_value. eexists. reflexivity.
  - exact Hend.
  - unfold FileStorage.meta, mbind, M_bind, readFile.
    rewrite FileProps.below_a_file_sidecar.
    subst fs'. rewrite after_write_below by lia. rewrite Hb.
    rewrite after_write_sidecar, Hs. unfold sidecar_bytes.
    rewrite bool_decide_eq_false_2 by exact Hne.
    rewrite Hparse. reflexivity.
Qed.

Lemma enumeration_recovers_the_key_witness :
  let fs' := after_write compact_runtime (js "k") (expiring [x34]) false
               (js "/tmp/store/k") ∅ in
  exists keys,
    (FileStorage.put compact_runtime unsanitised_store (js "k")
       (expiring [x34]) ∅ = (Ok tt, fs')
     /\ json_round_trips compact_runtime
          (sidecar_record (js "k") (expiring [x34]))
     /\ fst (FileStorage.keyPath compact_runtime unsanitised_store (js "k"))
        = Some (js "/tmp/store/k")
     /\ fst (FileListing.listAllMaybeExpired compact_runtime unsanitised_store
               fs') = Ok keys)
    /\ listed_as (js "k") (expiring [x34]) ∈ keys.
Proof.
  cbn zeta.
  assert (Hp : FileStorage.put compact_runtime unsanitised_store (js "k")
                 (expiring [x34]) ∅
               = (Ok tt,
                  after_write compact_runtime (js "k") (expiring [x34]) false
                    (js "/tmp/store/k") ∅))
    by (vm_compute; reflexivity).
  assert (Hj : json_round_trips compact_runtime
                 (sidecar_record (js "k") (expiring [x34])))
    by (split; [discriminate | reflexivity]).
  assert (exists keys,
            fst (FileListing.listAllMaybeExpired compact_runtime
                   unsanitised_store
                   (after_write compact_runtime (js "k") (expiring [x34]) false
                      (js "/tmp/store/k") ∅)) = Ok keys) as [keys Hl]
    by (eexists; vm_compute; reflexivity).
  exists keys.
  split; [split; [exact Hp | split; [exact Hj | split; [reflexivity | exact Hl]]] |].
  exact (enumeration_recovers_the_key compact_runtime unsanitised_store
           (js "k") (expiring [x34]) ∅ _ (js "/tmp/store/k") keys
           Hp eq_refl Hj eq_refl eq_refl eq_refl Hl).
Defined.

(** X22. Files named like sidecars are never enumerated: when every file
    below the root has a name that ends in [".meta.json"], the enumeration
    is empty. A key of that form that was put is stored and can be read,
    but is not listed. *)
Theorem sidecar_names_are_not_enumerated {Meta} (R : Runtime Meta) this fs :
  only_sidecar_names (root this) fs ->
  FileListing.listAllMaybeExpired R this fs = (Ok [], fs).
Proof.
  intros H. unfold FileListing.listAllMaybeExpired, mbind, M_bind,
    FileListing.walk.
  apply list_paths_sidecars_only. apply Forall_forall. intros p Hp.
  apply walk_elem in Hp as [Hs Hr].
  exact (H p Hs Hr).
Qed.

Lemma sidecar_names_are_not_enumerated_witness :
  let fs : Files := {[ js "/tmp/store/x.meta.json" := [x31] ]} in
  FileStorage.put sample_runtime unsanitised_store (js "x.meta.json")
    (plain [x31]) ∅ = (Ok tt, fs)
  /\ FileStorage.getMaybeExpired sample_runtime unsanitised_store
       (js "x.meta.json") fs = (Ok (Some (plain [x31])), fs)
  /\ only_sidecar_names (root unsanitised_store) fs
  /\ FileListing.listAllMaybeExpired sample_runtime unsanitised_store fs
     = (Ok [], fs).
Proof.
  cbn zeta.
  assert (Ho : only_sidecar_names (root unsanitised_store)
                 {[ js "/tmp/store/x.meta.json" := [x31] ]}).
  { intros p [b Hb] _. apply lookup_singleton_Some in Hb as [<- _].
    reflexivity. }
  split; [vm_compute; reflexivity |].
  split; [vm_compute; reflexivity |].
  split; [exact Ho |].
  exact (sidecar_names_are_not_enumerated sample_runtime unsanitised_store
           _ Ho).
Defined.

End FileMore.

(** * Properties of Workers Sites *)

Module SitesProps.
Import JS SitesTerms.

(** ** The keys of a site *)
Lemma startsWith_prefix_app (p r : jsstring) : startsWith p (p ++ r) = true.
Proof.
  induction p as [| a p IH]; [reflexivity |].
  cbn. rewrite bool_decide_eq_true_2 by reflexivity. exact IH.
Qed.

(** X23. Decoding undoes encoding: for a key whose URI component decodes
    back to it, [decodeSitesKey (encodeSitesKey key)] is the key; so the
    keys of a listing and of the manifest name the files they were made
    from. *)
Theorem sites_key_round_trip (S : Sites.Shared) (key : jsstring) :
  Sites.decodeURIComponent S (Sites.encodeURIComponent S key) = key ->
  Sites.decodeSitesKey S (Sites.encodeSitesKey S key) = key.
Proof.
  intros H. unfold Sites.decodeSitesKey, Sites.encodeSitesKey.
  rewrite startsWith_prefix_app. unfold slice.
  rewrite drop_app_length. exact H.
Qed.

Lemma sites_key_round_trip_witness :
  Sites.decodeURIComponent sample_shared
    (Sites.encodeURIComponent sample_shared (js "index.html"))
  = js "index.html"
  /\ Sites.decodeSitesKey sample_shared
       (Sites.encodeSitesKey sample_shared (js "index.html"))
     = js "index.html".
Proof.
  split; [reflexivity |].
  exact (sites_key_round_trip sample_shared (js "index.html") eq_refl).
Defined.

Lemma findIndex_found (k : jsstring) (K : list jsstring) (i : nat) (j : Z) :
  NoDup K -> K !! i = Some k -> Sites.findIndex k K j = j + Z.of_nat i.
Proof.
  revert i j. induction K as [| a K IH]; intros i j Hn Hi; [discriminate |].
  apply NoDup_cons in Hn as [Ha Hn]. cbn [Sites.findIndex].
  destruct i as [| i]; cbn in Hi.
  - injection Hi as ->. rewrite bool_decide_eq_true_2 by reflexivity. lia.
  - rewrite bool_decide_eq_false_2.
    + rewrite (IH i (j + 1) Hn Hi). lia.
    + intros ->. apply Ha. eapply list_elem_of_lookup_2. exact Hi.
Qed.

Lemma findIndex_absent (k : jsstring) (K : list jsstring) (j : Z) :
  k ∉ K -> Sites.findIndex k K j = -1.
Proof.
  revert j. induction K as [| a K IH]; intros j Hk; [reflexivity |].
  cbn [Sites.findIndex]. apply not_elem_of_cons in Hk as [Hne Hk].
  rewrite bool_decide_eq_false_2 by congruence. exact (IH _ Hk).
Qed.

Lemma array_slice_page (K : list jsstring) (pos n : nat) :
  Sites.array_slice K (Z.of_nat pos) (Z.of_nat pos + Z.of_nat n)
  = take n (drop pos K).
Proof.
  unfold Sites.array_slice. cbn zeta.
  destruct (Z.of_nat pos <? 0) eqn:H1; [apply Z.ltb_lt in H1; lia |].
  destruct (Z.of_nat pos + Z.of_nat n <? 0) eqn:H2; [apply Z.ltb_lt in H2; lia |].
  destruct (decide (pos <= List.length K)%nat) as [Hle | Hgt].
  - replace (Z.to_nat (Z.min (Z.of_nat pos) (Z.of_nat (List.length K))))
      with pos by lia.
    destruct (decide (pos + n <= List.length K)%nat).
    + f_equal. lia.
    + rewrite !take_ge; [reflexivity | |]; rewrite length_drop; lia.
  - rewrite !drop_ge by lia. rewrite !take_nil. reflexivity.
Qed.

Lemma sitesGatewayList_from (S : Sites.Shared) names re opts (n pos : nat) :
  let K := Sites.site_keys S names re (Sites.prefix opts) in
  Sites.validateListOptions S opts = None ->
  Sites.limit opts = Some (Z.of_nat n) ->
  (1 <= n)%nat ->
  (if bool_decide (match Sites.cursor opts with
                   | None => []
                   | Some c => Sites.base64Decode S c
                   end = [])
   then 0
   else (let i := Sites.findIndex
                    (match Sites.cursor opts with
                     | None => []
                     | Some c => Sites.base64Decode S c
                     end) K 0 in
         if i =? -1 then Z.of_nat (List.length K) else i) + 1)
  = Z.of_nat pos ->
  Sites.sitesGatewayList S names re opts = Sites.Ok (page_at S K pos n).
Proof.
  intros K Hv Hl Hn Hpos. unfold Sites.sitesGatewayList.
  rewrite Hv, Hl. cbn [default from_option]. unfold id. fold K.
  cbn zeta in Hpos. rewrite Hpos. unfold page_at.
  rewrite array_slice_page.
  destruct (Z.of_nat pos + Z.of_nat n <? Z.of_nat (List.length K)) eqn:Hc.
  - apply Z.ltb_lt in Hc.
    rewrite bool_decide_eq_false_2 by lia.
    unfold Sites.at_index.
    destruct (_ <? 0) eqn:H0; [apply Z.ltb_lt in H0; lia |].
    replace (Z.to_nat (Z.of_nat pos + Z.of_nat n - 1))
      with (pos + n - 1)%nat by lia.
    destruct (K !! (pos + n - 1)%nat) as [k |] eqn:Hk; [reflexivity |].
    apply lookup_ge_None in Hk. lia.
  - apply Z.ltb_ge in Hc.
    rewrite bool_decide_eq_true_2 by lia. reflexivity.
Qed.

(** X24. The pages of [sitesGatewayList] follow one another. With
    options that [validateListOptions] accepts and a limit of [n >= 1],
    over the sorted keys [K] that match: without a cursor the result is
    the first [n] keys; with the cursor that encodes the key at position
    [i] of [K], which base64 decodes back and which occurs once, it is the
    [n] keys after position [i]. In both cases the listing is complete
    exactly when no key remains after the page, and otherwise the cursor
    encodes the last key of the page. *)
Theorem sites_pages_follow (S : Sites.Shared) names re opts (n : nat) :
  let K := Sites.site_keys S names re (Sites.prefix opts) in
  Sites.validateListOptions S opts = None ->
  Sites.limit opts = Some (Z.of_nat n) ->
  (1 <= n)%nat ->
  (Sites.cursor opts = None ->
   Sites.sitesGatewayList S names re opts = Sites.Ok (page_at S K 0 n))
  /\ (forall i k,
        Sites.cursor opts = Some (Sites.base64Encode S k) ->
        K !! i = Some k ->
        NoDup K ->
        k <> [] ->
        Sites.base64Decode S (Sites.base64Encode S k) = k ->
        Sites.sitesGatewayList S names re opts = Sites.Ok (page_at S K (i + 1) n)).
Proof.
  intros K Hv Hl Hn. split.
  - intros Hc. apply (sitesGatewayList_from S names re opts n 0 Hv Hl Hn).
    rewrite Hc. reflexivity.
  - intros i k Hc Hi Hd Hk Hb.
    apply (sitesGatewayList_from S names re opts n (i + 1) Hv Hl Hn).
    rewrite Hc, Hb. rewrite bool_decide_eq_false_2 by exact Hk.
    fold K. cbn zeta. rewrite (findIndex_found k K i 0 Hd Hi).
    destruct (0 + Z.of_nat i =? -1) eqn:H1; [apply Z.eqb_eq in H1; lia |].
    lia.
Qed.

Lemma sites_pages_follow_witness :
  let K := Sites.site_keys sample_shared site_files all_files None in
  let first := list_from 2 None None in
  let second :=
    list_from 2 None
      (Some (Sites.base64Encode sample_shared
               (js "$__MINIFLARE_SITES__$/css/site.css"))) in
  K = [js "$__MINIFLARE_SITES__$/about.html";
       js "$__MINIFLARE_SITES__$/css/site.css";
       js "$__MINIFLARE_SITES__$/index.html"]
  /\ NoDup K
  /\ Sites.sitesGatewayList sample_shared site_files all_files first
     = Sites.Ok (page_at sample_shared K 0 2)
  /\ Sites.next_cursor (page_at sample_shared K 0 2) = Sites.cursor second
  /\ Sites.sitesGatewayList sample_shared site_files all_files second
     = Sites.Ok (page_at sample_shared K 2 2)
  /\ Sites.keys (page_at sample_shared K 0 2)
       ++ Sites.keys (page_at sample_shared K 2 2) = K
  /\ Sites.list_complete (page_at sample_shared K 2 2) = true.
Proof.
  cbn zeta.
  assert (HK : Sites.site_keys sample_shared site_files all_files None
               = [js "$__MINIFLARE_SITES__$/about.html";
                  js "$__MINIFLARE_SITES__$/css/site.css";
                  js "$__MINIFLARE_SITES__$/index.html"])
    by (vm_compute; reflexivity).
  assert (Hd : NoDup (Sites.site_keys sample_shared site_files all_files None)).
  { rewrite HK. apply NoDup_ListNoDup.
    repeat (constructor; [cbn; intuition discriminate |]). constructor. }
  split; [exact HK |]. split; [exact Hd |].
  split.
  { exact (proj1 (sites_pages_follow sample_shared site_files all_files
                    (list_from 2 None None) 2 eq_refl eq_refl
                    (le_S 1 1 (le_n 1)))
             eq_refl). }
  split; [rewrite HK; reflexivity |].
  split.
  { refine (proj2 (sites_pages_follow sample_shared site_files all_files
                     (list_from 2 None
                        (Some (Sites.base64Encode sample_shared
                                 (js "$__MINIFLARE_SITES__$/css/site.css"))))
                     2 eq_refl eq_refl (le_S 1 1 (le_n 1)))
              1%nat (js "$__MINIFLARE_SITES__$/css/site.css")
              eq_refl _ Hd _ eq_refl).
    - cbn [Sites.prefix list_from]. rewrite HK. reflexivity.
    - discriminate. }
  split; rewrite HK; reflexivity.
Defined.

(** X25. A cursor that names no key ends the listing: when the cursor
    decodes to a non-empty text that is not among the sorted keys that
    match, [sitesGatewayList] with a limit that is not negative returns no
    keys, reports the listing as complete and gives no cursor. *)
Theorem sites_unknown_cursor (S : Sites.Shared) names re opts c (n : nat) :
  Sites.validateListOptions S opts = None ->
  Sites.limit opts = Some (Z.of_nat n) ->
  Sites.cursor opts = Some c ->
  Sites.base64Decode S c <> [] ->
  Sites.base64Decode S c
    ∉ Sites.site_keys S names re (Sites.prefix opts) ->
  Sites.sitesGatewayList S names re opts = Sites.Ok no_keys.
Proof.
  intros Hv Hl Hc Hne Hnot. unfold Sites.sitesGatewayList.
  rewrite Hv, Hl, Hc. cbn [default from_option]. unfold id.
  set (K := Sites.site_keys S names re (Sites.prefix opts)) in *.
  rewrite bool_decide_eq_false_2 by exact Hne.
  cbn zeta. rewrite (findIndex_absent _ K 0 Hnot).
  change (-1 =? -1) with true. cbn iota.
  destruct (_ <? Z.of_nat (List.length K)) eqn:H1; [apply Z.ltb_lt in H1; lia |].
  unfold no_keys. f_equal. f_equal.
  replace (Z.of_nat (List.length K) + 1) with (Z.of_nat (List.length K + 1))
    by lia.
  rewrite array_slice_page. rewrite drop_ge by lia. apply take_nil.
Qed.

Lemma sites_unknown_cursor_witness :
  let opts := list_from 2 None (Some (js "bgone")) in
  Sites.base64Decode sample_shared (js "bgone") = js "gone"
  /\ (js "gone" ∉ Sites.site_keys sample_shared site_files all_files None)
  /\ Sites.sitesGatewayList sample_shared site_files all_files opts
     = Sites.Ok no_keys.
Proof.
  cbn zeta.
  assert (Hn : (Sites.base64Decode sample_shared (js "bgone"))
               ∉ (Sites.site_keys sample_shared site_files all_files
                    (Sites.prefix (list_from 2 None (Some (js "bgone")))))).
  { vm_compute. intros H.
    repeat (apply elem_of_cons in H as [H | H]; [discriminate |]).
    apply elem_of_nil in H. exact H. }
  split; [reflexivity |]. split; [exact Hn |].
  refine (sites_unknown_cursor sample_shared site_files all_files
            (list_from 2 None (Some (js "bgone"))) (js "bgone") 2
            eq_refl eq_refl eq_refl _ Hn).
  discriminate.
Defined.

Lemma array_slice_elem (K : list jsstring) (first last : Z) (k : jsstring) :
  k ∈ Sites.array_slice K first last -> k ∈ K.
Proof.
  unfold Sites.array_slice. cbn zeta. intros H.
  apply elem_of_take in H as (i & H & _).
  apply list_elem_of_lookup_2 in H.
  apply list_elem_of_lookup in H as [j H]. rewrite lookup_drop in H.
  eapply list_elem_of_lookup_2. exact H.
Qed.

Lemma insert_name_perm (x : jsstring) (l : list jsstring) :
  insert_name x l ≡ₚ x :: l.
Proof.
  induction l as [| y l IH]; [reflexivity |].
  cbn. destruct (ltb y x); [| reflexivity].
  rewrite IH. apply Permutation_swap.
Qed.

Lemma sample_sort_perm (l : list jsstring) :
  Sites.sort_names sample_shared l ≡ₚ l.
Proof.
  induction l as [| x l IH]; [reflexivity |].
  cbn in *. rewrite insert_name_perm, IH. reflexivity.
Qed.

(** X26. A listing shows only what the filters let pass: when sorting
    permutes the keys, every key that [sitesGatewayList] returns is
    [encodeSitesKey] of a file name of the directory that the include and
    exclude expressions accept, and it starts with the prefix when one is
    given. *)
Theorem sites_listing_is_filtered (S : Sites.Shared) names re opts r :
  (forall l, Sites.sort_names S l ≡ₚ l) ->
  Sites.sitesGatewayList S names re opts = Sites.Ok r ->
  forall k,
    k ∈ Sites.keys r ->
    (exists name,
       name ∈ names
       /\ Sites.testSiteRegExps S re name = true
       /\ k = Sites.encodeSitesKey S name)
    /\ (forall p, Sites.prefix opts = Some p -> startsWith p k = true).
Proof.
  intros Hsort. unfold Sites.sitesGatewayList.
  destruct (Sites.validateListOptions S opts); [discriminate |].
  cbn zeta.
  set (K := Sites.site_keys S names re (Sites.prefix opts)).
  set (first := if bool_decide _ then 0 else _).
  set (last := first + _).
  assert (HK : forall k, k ∈ Sites.array_slice K first last ->
               (exists name,
                  name ∈ names
                  /\ Sites.testSiteRegExps S re name = true
                  /\ k = Sites.encodeSitesKey S name)
               /\ (forall p, Sites.prefix opts = Some p ->
                             startsWith p k = true)).
  { intros k Hk. apply array_slice_elem in Hk.
    subst K. unfold Sites.site_keys in Hk. rewrite (Hsort _) in Hk.
    apply list_elem_of_In, filter_In in Hk as [Hk Hp].
    apply in_map_iff in Hk as (name & <- & Hn).
    apply filter_In in Hn as [Hn Ht].
    split.
    - exists name. split; [apply list_elem_of_In; exact Hn |].
      split; [exact Ht | reflexivity].
    - intros p Hpre. rewrite Hpre in Hp. exact Hp. }
  destruct (last <? _).
  - destruct (Sites.at_index K (last - 1)); [| discriminate].
    intros [= <-]. exact HK.
  - intros [= <-]. exact HK.
Qed.

Lemma sites_listing_is_filtered_witness :
  let re : Sites.SiteMatcherRegExps (Sites.MatcherRegExps sample_shared) :=
    {| Sites.include := None; Sites.exclude := Some (js "css") |} in
  let r := {| Sites.keys := [js "$__MINIFLARE_SITES__$/about.html";
                             js "$__MINIFLARE_SITES__$/index.html"];
              Sites.list_complete := true;
              Sites.next_cursor := None |} in
  (forall l, Sites.sort_names sample_shared l ≡ₚ l)
  /\ Sites.sitesGatewayList sample_shared site_files re
       (list_from 5 None None) = Sites.Ok r
  /\ forall k,
       k ∈ Sites.keys r ->
       (exists name,
          name ∈ site_files
          /\ Sites.testSiteRegExps sample_shared re name = true
          /\ k = Sites.encodeSitesKey sample_shared name)
       /\ (forall p, Sites.prefix (list_from 5 None None) = Some p ->
                     startsWith p k = true).
Proof.
  cbn zeta. split; [exact sample_sort_perm |].
  split; [vm_compute; reflexivity |].
  exact (sites_listing_is_filtered sample_shared site_files
           {| Sites.include := None; Sites.exclude := Some (js "css") |}
           (list_from 5 None None) _ sample_sort_perm eq_refl).
Defined.

End SitesProps.
